(** * b70: the BIP70 payment protocol codec of bcoin

    A shallow embedding of the protobuf reader ([lib/utils/protoreader.js]),
    of the four message classes ([PaymentDetails], [Payment], [PaymentACK],
    [PaymentRequest]), of the trust binding of [PaymentRequest] and of the
    dispatch on hash and key of [lib/pk.js], with the properties of the
    specification stated and settled on that embedding, and further
    properties of the code: what the reader answers on any bytes, round
    trips, signing and verifying, options.

    Conventions of the embedding:
    - a [Buffer] is a list of bytes; every numeric JS value that occurs is an
      integer below 2^53, so JS numbers are [Z] and the float operations that
      occur ([+], [*], [Math.pow(2, k)]) are exact; the 32-bit operators
      ([<<], [>>>], [&]) are written with their conversions;
    - byte counts and cursors are [nat];
    - a JS string is the [string] of its UTF-8 code units:
      [Buffer.from(s, 'utf8')] is the list of these code units, and
      [buf.toString('utf8')] is the decoder [toStringUtf8], which replaces
      what is not UTF-8 by U+FFFD. The strings of JS that have a lone
      surrogate have no UTF-8 code units and are outside the embedding: the
      statements about strings that are written and read back are about
      the well-formed ones, [wellFormed];
    - [null] is [None]; a thrown exception is the outcome [Throw]; the state
      of an object survives an exception, as it does in JS;
    - the [for (;;)] loop of a group and the [while] loops over a repeated
      field take a budget of iterations, [fuel]; the statements that a call
      returns are for every budget that is large enough;
    - the writer, [lib/utils/protowriter.js], and the certificate module,
      [lib/x509.js], are not among the sources: the writer is embedded as
      the specification describes it, the functions of the certificate
      module are parameters; so are the primitives of the package bcrypto
      that [lib/pk.js] calls, [JSON.stringify] and [JSON.parse];
    - the options of [fromOptions] are records whose fields have the types
      that its assertions ask for, an option that is not given being
      [None]. *)

From Stdlib Require Import ZArith String Ascii Lia Bool List.
From Stdlib Require Strings.Byte.
Import ListNotations.
Local Open Scope Z_scope.

(** ** JavaScript integer operators *)

Module JS.

Definition ToUint32 (x : Z) : Z := x mod 2 ^ 32.

Definition ToInt32 (x : Z) : Z :=
  let u := x mod 2 ^ 32 in
  if u <? 2 ^ 31 then u else u - 2 ^ 32.

(** [a << b] *)
Definition shl (a b : Z) : Z :=
  ToInt32 (Z.shiftl (ToInt32 a) (ToUint32 b mod 32)).

(** [a >>> b] *)
Definition ushr (a b : Z) : Z :=
  Z.shiftr (ToUint32 a) (ToUint32 b mod 32).

(** [a & b] *)
Definition band (a b : Z) : Z := Z.land (ToInt32 a) (ToInt32 b).

(** [Math.pow(2, k)] for a natural [k] below 1024 *)
Definition pow2 (k : Z) : Z := 2 ^ k.

End JS.

(** ** Buffers *)

Definition Buffer := list Byte.byte.

Definition byteZ (b : Byte.byte) : Z := Z.of_N (Byte.to_N b).

(** The byte whose value is [z mod 256]. *)
Definition byteOf (z : Z) : Byte.byte :=
  match Byte.of_N (Z.to_N (z mod 256)) with
  | Some b => b
  | None => Byte.x00
  end.

Definition len (b : Buffer) : Z := Z.of_nat (length b).

(** ** Outcomes of a call *)

Inductive error : Type :=
| AssertionError (msg : string)
| EncodingError (msg : string)
| TypeError (msg : string)
| Error (msg : string).

(** [OutOfFuel] is not a JS outcome: it is what a function that takes an
    iteration budget answers when the budget is used up. *)
Inductive result (A : Type) : Type :=
| Ok (a : A)
| Throw (e : error)
| OutOfFuel.

Arguments Ok {A} a.
Arguments Throw {A} e.
Arguments OutOfFuel {A}.

Definition assert {A} (c : bool) (msg : string) (k : result A) : result A :=
  if c then k else Throw (AssertionError msg).

(** ** protoreader.js: [_readVarint] *)

Record Varint := mkVarint { vsize : nat; vvalue : Z }.

(** The body of the [while (ch & 0x80)] loop. [rest] is the part of [data]
    from [off] on: [off >= data.length] is [rest = []] and [data[off]] is its
    head. [num] and [size] are the loop variables. *)
Fixpoint readVarintLoop (rest : Buffer) (num : Z) (size : nat)
  : result Varint :=
  match rest with
  | [] => Ok (mkVarint size 0)
  | b :: rest' =>
      let ch := byteZ b in
      let num :=
        match size with
        | 0%nat | 1%nat | 2%nat | 3%nat =>
            num + JS.shl (JS.band ch 0x7f) (7 * Z.of_nat size)
        | 4%nat =>
            num + JS.band ch 0x7f * JS.shl 1 (7 * Z.of_nat size)
        | _ =>
            num + JS.band ch 0x7f * JS.pow2 (7 * Z.of_nat size)
        end in
      let size := S size in
      assert (Z.of_nat size <? 7) "Number exceeds 2^53-1."
        (if JS.band ch 0x80 =? 0
         then Ok (mkVarint size num)
         else readVarintLoop rest' num size)
  end.

Definition _readVarint (data : Buffer) (off : nat) : result Varint :=
  readVarintLoop (skipn off data) 0 0.

(** ** Stateful calls

    A method is a function of the state of its object that answers an
    outcome and the state it leaves. For a reader the state is the cursor. *)

Definition M (S A : Type) : Type := S -> result A * S.

Definition ret {S A} (a : A) : M S A := fun s => (Ok a, s).

Definition throw {S A} (e : error) : M S A := fun s => (Throw e, s).

Definition outOfFuel {S A} : M S A := fun s => (OutOfFuel, s).

Definition bind {S A B} (m : M S A) (k : A -> M S B) : M S B :=
  fun s =>
    match m s with
    | (Ok a, s') => k a s'
    | (Throw e, s') => (Throw e, s')
    | (OutOfFuel, s') => (OutOfFuel, s')
    end.

Notation "x <- m ;; k" := (bind m (fun x => k))
  (at level 61, m at next level, right associativity).

Definition get {S} : M S S := fun s => (Ok s, s).

Definition put {S} (s : S) : M S unit := fun _ => (Ok tt, s).

Definition liftResult {S A} (r : result A) : M S A := fun s => (r, s).

Definition assertM {S} (c : bool) (msg : string) : M S unit :=
  if c then ret tt else throw (AssertionError msg).

(** [try { m } catch (e) { h }] *)
Definition tryCatch {S A} (m : M S A) (h : M S A) : M S A :=
  fun s =>
    match m s with
    | (Throw _, s') => h s'
    | r => r
    end.

(** Calls without state. *)
Definition bindR {A B} (r : result A) (k : A -> result B) : result B :=
  match r with
  | Ok a => k a
  | Throw e => Throw e
  | OutOfFuel => OutOfFuel
  end.

Notation "'do' x <- r ; k" := (bindR r (fun x => k))
  (at level 61, r at next level, x name, right associativity).

Definition Reader (A : Type) : Type := M nat A.

(** ** protoreader.js: [ProtoReader] *)

Module wireType.
Definition VARINT : Z := 0.
Definition FIXED64 : Z := 1.
Definition DELIMITED : Z := 2.
Definition START_GROUP : Z := 3.
Definition END_GROUP : Z := 4.
Definition FIXED32 : Z := 5.
End wireType.

#[local] Set Warnings "-register-all".

Inductive Field : Type := mkField {
  ftag : Z;
  ftype : Z;
  fsize : nat;
  fvalue : Z;
  fdata : option Buffer;
  fgroup : option (list Field)
}.

(** [new Field(header)] *)
Definition newField (header : Z) : Field :=
  mkField (JS.ushr header 3) (JS.band header 7) 0 0 None None.

Definition setValue (f : Field) (v : Z) : Field :=
  mkField (ftag f) (ftype f) (fsize f) v (fdata f) (fgroup f).

Definition setData (f : Field) (d : Buffer) : Field :=
  mkField (ftag f) (ftype f) (fsize f) (fvalue f) (Some d) (fgroup f).

Definition setGroup (f : Field) (g : list Field) : Field :=
  mkField (ftag f) (ftype f) (fsize f) (fvalue f) (fdata f) (Some g).

Definition setSize (f : Field) (n : nat) : Field :=
  mkField (ftag f) (ftype f) n (fvalue f) (fdata f) (fgroup f).

(** Little-endian value of a list of bytes. *)
Fixpoint littleEndian (bs : Buffer) : Z :=
  match bs with
  | [] => 0
  | b :: bs' => byteZ b + 256 * littleEndian bs'
  end.

(** ** [buf.toString('utf8')]

    A string is held as its UTF-8 code units, so the decoder answers
    bytes: a well-formed sequence decodes to the code point whose code
    units it is, and what is not UTF-8 is replaced by U+FFFD, whose code
    units are [ef bf bd]. The decoder is that of the runtime: one
    replacement for every maximal part of an ill-formed sequence, the byte
    that ends such a part being read again as the start of the next
    sequence. *)

Module Utf8.

(** The code units of U+FFFD. *)
Definition replacement : Buffer := [Byte.xef; Byte.xbf; Byte.xbd].

Definition inRange (lo hi : Z) (b : Byte.byte) : bool :=
  (lo <=? byteZ b) && (byteZ b <=? hi).

(** The state between two bytes: the number of continuation bytes that the
    sequence still needs, the range of the next one, the bytes of the
    sequence so far. *)
Record state := mkState {
  needed : nat;
  lower : Z;
  upper : Z;
  seen : Buffer
}.

Definition start : state := mkState 0 0x80 0xBF [].

(** A byte at the start of a sequence. *)
Definition lead (b : Byte.byte) : Buffer * state :=
  if byteZ b <=? 0x7F then ([b], start)
  else if inRange 0xC2 0xDF b then ([], mkState 1 0x80 0xBF [b])
  else if inRange 0xE0 0xEF b
  then ([], mkState 2 (if byteZ b =? 0xE0 then 0xA0 else 0x80)
              (if byteZ b =? 0xED then 0x9F else 0xBF) [b])
  else if inRange 0xF0 0xF4 b
  then ([], mkState 3 (if byteZ b =? 0xF0 then 0x90 else 0x80)
              (if byteZ b =? 0xF4 then 0x8F else 0xBF) [b])
  else (replacement, start).

(** One byte: what is emitted, and the next state. *)
Definition step (st : state) (b : Byte.byte) : Buffer * state :=
  match needed st with
  | O => lead b
  | S n =>
      if inRange (lower st) (upper st) b
      then
        match n with
        | O => (seen st ++ [b], start)
        | S _ => ([], mkState n 0x80 0xBF (seen st ++ [b]))
        end
      else
        match lead b with
        | (out, st') => (replacement ++ out, st')
        end
  end.

Fixpoint run (st : state) (bs : Buffer) : Buffer :=
  match bs with
  | [] =>
      match needed st with
      | O => []
      | S _ => replacement
      end
  | b :: bs' =>
      match step st b with
      | (out, st') => out ++ run st' bs'
      end
  end.

Definition decode (bs : Buffer) : Buffer := run start bs.

End Utf8.

(** [buf.toString('utf8')], and [buf.toString()] *)
Definition toStringUtf8 (buf : Buffer) : string :=
  string_of_list_byte (Utf8.decode buf).

Section ProtoReader.

Variable data : Buffer.

(** *** The base class

    [ProtoReader] extends the [BufferReader] of the package bufio, which is
    a dependency and not part of the repository. The methods used here
    are embedded as the package documents them: a read past the end of the
    buffer throws and leaves the cursor where it was. *)

Definition check (size : nat) : Reader unit :=
  off <- get ;;
  if (length data <? off + size)%nat
  then throw (EncodingError "Out of bounds read")
  else ret tt.

Definition left : Reader nat :=
  off <- get ;;
  ret (length data - off)%nat.

Definition seek (delta : Z) : Reader unit :=
  off <- get ;;
  if Z.of_nat off + delta <? 0
  then throw (EncodingError "Out of bounds read")
  else if len data <? Z.of_nat off + delta
  then throw (EncodingError "Out of bounds read")
  else put (Z.to_nat (Z.of_nat off + delta)).

Definition readBytes (size : Z) : Reader Buffer :=
  if negb (JS.ushr size 0 =? size)
  then throw (TypeError "size must be a(n) integer")
  else
    _ <- check (Z.to_nat size) ;;
    off <- get ;;
    _ <- put (off + Z.to_nat size)%nat ;;
    ret (firstn (Z.to_nat size) (skipn off data)).

Definition readU32 : Reader Z :=
  _ <- check 4 ;;
  off <- get ;;
  _ <- put (off + 4)%nat ;;
  ret (littleEndian (firstn 4 (skipn off data))).

Definition readU64 : Reader Z :=
  _ <- check 8 ;;
  off <- get ;;
  let lo := littleEndian (firstn 4 (skipn off data)) in
  let hi := littleEndian (firstn 4 (skipn (off + 4) data)) in
  if negb (JS.band hi 0xffe00000 =? 0)
  then throw (EncodingError "Number exceeds 2^53-1")
  else
    _ <- put (off + 8)%nat ;;
    ret (hi * 0x100000000 + lo).

(** *** The methods of protoreader.js *)

Definition readVarint : Reader Z :=
  off <- get ;;
  v <- liftResult (_readVarint data off) ;;
  _ <- put (off + vsize v)%nat ;;
  ret (vvalue v).

(** [readVarBytes] is inherited: it reads a length with the overridden
    [readVarint], then that many bytes. *)
Definition readVarBytes : Reader Buffer :=
  n <- readVarint ;;
  readBytes n.

(** [readField(tag, opt)]. [fuel] bounds the iterations of the [for (;;)]
    loop of a group and the nesting of groups; the other wire types use
    none. The cases of the [switch] are the wire types 0 to 5 of
    [wireType], in their order. *)
Fixpoint readField (fuel : nat) (tag : option Z) (opt : bool)
  : Reader (option Field) :=
  offset <- get ;;
  header <- readVarint ;;
  let field := newField header in
  if match tag with
     | Some t => negb (ftag field =? t)
     | None => false
     end
  then
    _ <- assertM opt "Non-optional field not present." ;;
    _ <- put offset ;;
    ret None
  else
    field <-
      match ftype field with
      | 0 => v <- readVarint ;; ret (setValue field v)
      | 1 => v <- readU64 ;; ret (setValue field v)
      | 2 => d <- readVarBytes ;; ret (setData field d)
      | 3 =>
          match fuel with
          | O => outOfFuel
          | S fuel' =>
              g <-
              (fix loop (n : nat) (group : list Field)
                 : Reader (list Field) :=
                 match n with
                 | O => outOfFuel
                 | S n' =>
                     inner <- readField fuel' None false ;;
                     match inner with
                     | None =>
                         throw (TypeError "Cannot read properties of null")
                     | Some f =>
                         if ftype f =? wireType.END_GROUP
                         then ret group
                         else loop n' (group ++ [f])
                     end
                 end) fuel' [] ;;
              ret (setGroup field g)
          end
      | 4 => throw (AssertionError "Unexpected end group.")
      | 5 => v <- readU32 ;; ret (setValue field v)
      | _ => throw (AssertionError "Bad wire type.")
      end ;;
    off' <- get ;;
    ret (Some (setSize field (off' - offset))).

(** The [value] of a field is a number from its construction on, so the
    assertion [field.value != null] holds. *)
Definition readFieldValue (fuel : nat) (tag : Z) (opt : bool) : Reader Z :=
  field <- readField fuel (Some tag) opt ;;
  match field with
  | None => ret (-1)
  | Some f => ret (fvalue f)
  end.

Definition readFieldU64 (fuel : nat) (tag : Z) (opt : bool) : Reader Z :=
  field <- readField fuel (Some tag) opt ;;
  match field with
  | None => ret (-1)
  | Some f =>
      _ <- assertM ((ftype f =? wireType.VARINT)
                    || (ftype f =? wireType.FIXED64)) "Assertion failed." ;;
      ret (fvalue f)
  end.

Definition readFieldU32 (fuel : nat) (tag : Z) (opt : bool) : Reader Z :=
  field <- readField fuel (Some tag) opt ;;
  match field with
  | None => ret (-1)
  | Some f =>
      _ <- assertM ((ftype f =? wireType.VARINT)
                    || (ftype f =? wireType.FIXED32)) "Assertion failed." ;;
      ret (fvalue f)
  end.

Definition readFieldBytes (fuel : nat) (tag : Z) (opt : bool)
  : Reader (option Buffer) :=
  field <- readField fuel (Some tag) opt ;;
  match field with
  | None => ret None
  | Some f =>
      match fdata f with
      | None => throw (AssertionError "Assertion failed.")
      | Some d => ret (Some d)
      end
  end.

(** [readFieldString(tag, opt)]: the message classes give no encoding,
    so the data are decoded with [toString('utf8')]. *)
Definition readFieldString (fuel : nat) (tag : Z) (opt : bool)
  : Reader (option string) :=
  field <- readField fuel (Some tag) opt ;;
  match field with
  | None => ret None
  | Some f =>
      match fdata f with
      | None => throw (AssertionError "Assertion failed.")
      | Some d => ret (Some (toStringUtf8 d))
      end
  end.

Definition nextTag (fuel : nat) : Reader Z :=
  l <- left ;;
  if (l =? 0)%nat then ret (-1)
  else
    field <- readField fuel None false ;;
    match field with
    | None => throw (TypeError "Cannot read properties of null")
    | Some f =>
        _ <- seek (- Z.of_nat (fsize f)) ;;
        ret (ftag f)
    end.

(** [while (br.nextTag() === tag) acc = body(acc)], with at most [n]
    iterations. *)
Fixpoint whileNextTag {A} (fuel n : nat) (tag : Z)
  (body : A -> Reader A) (acc : A) : Reader A :=
  match n with
  | O => outOfFuel
  | S n' =>
      t <- nextTag fuel ;;
      if t =? tag
      then acc' <- body acc ;; whileNextTag fuel n' tag body acc'
      else ret acc
  end.

End ProtoReader.

(** [new ProtoReader(data)]: the constructor of the base class asserts that
    [data] is a buffer. *)
Definition newProtoReader (data : option Buffer) : result Buffer :=
  match data with
  | Some d => Ok d
  | None => Throw (AssertionError "Must pass a Buffer.")
  end.

(** A reader is run from the start of its buffer. *)
Definition runReader {A} (m : Reader A) : result A := fst (m 0%nat).

(** ** protowriter.js: [ProtoWriter]

    The writer, lib/utils/protowriter.js, is required by the four message
    classes and is not among the sources. It is embedded as section 4.2 of
    the specification describes it; a writer is the buffer it has
    accumulated. *)

Module ProtoWriter.

(** Modelled from the spec: the largest value of the supported range of
    the missing [writeVarint], the largest safe integer. *)
Definition MAX_SAFE_INTEGER : Z := 2 ^ 53 - 1.

(** A string or a buffer, for the arguments that are given either:
    [PaymentDetails.toRaw] hands [merchantData], a buffer, to
    [writeFieldString]. *)
Inductive StringOrBuffer : Type :=
| Str (s : string)
| Buf (b : Buffer).

(** Modelled from the spec: the UTF-8 encoding in the missing
    [writeFieldString], as [Buffer.from(x, 'utf8')]: the code units of a
    string, the copy of a buffer. *)
Definition utf8 (x : StringOrBuffer) : Buffer :=
  match x with
  | Str s => list_byte_of_string s
  | Buf b => b
  end.

(** Modelled from the spec: the groups that the missing [writeVarint]
    writes. A base-128 integer, least significant group first, every
    group but the last with the continuation bit. Eight groups hold every
    value of the supported range. *)
Fixpoint varintGroups (n : nat) (num : Z) : Buffer :=
  match n with
  | O => []
  | S n' =>
      if num <? 128
      then [byteOf num]
      else byteOf (num mod 128 + 128) :: varintGroups n' (num / 128)
  end.

Definition encodeVarint (num : Z) : Buffer := varintGroups 8 num.

(** Modelled from the spec: the missing [writeVarint(u64)] appends the
    groups of a value of the supported range and fails on a value beyond
    it. *)
Definition writeVarint (num : Z) (bw : Buffer) : result Buffer :=
  assert ((0 <=? num) && (num <=? MAX_SAFE_INTEGER)) "Number exceeds 2^53-1."
    (Ok (bw ++ encodeVarint num)).

(** Modelled from the spec: the missing [writeFieldBytes(tag, bytes)]
    writes the header with the length-delimited wire type, the length as a
    varint, the raw bytes. *)
Definition writeFieldBytes (tag : Z) (data : Buffer) (bw : Buffer)
  : result Buffer :=
  do bw <- writeVarint (tag * 8 + wireType.DELIMITED) bw ;
  do bw <- writeVarint (len data) bw ;
  Ok (bw ++ data).

(** Modelled from the spec: the missing [writeFieldString(tag, string)]
    encodes in UTF-8, then does as [writeFieldBytes]. *)
Definition writeFieldString (tag : Z) (data : StringOrBuffer) (bw : Buffer)
  : result Buffer :=
  writeFieldBytes tag (utf8 data) bw.

(** Modelled from the spec: the missing [writeFieldU32] and
    [writeFieldU64] write the header with the varint wire type, then the
    value as [writeVarint] does. *)
Definition writeFieldVarint (tag : Z) (value : Z) (bw : Buffer)
  : result Buffer :=
  do bw <- writeVarint (tag * 8 + wireType.VARINT) bw ;
  writeVarint value bw.

Definition writeFieldU64 := writeFieldVarint.

Definition writeFieldU32 := writeFieldVarint.

(** Modelled from the spec: the missing constructor, with nothing
    accumulated, and [render()], which answers what is accumulated. *)
Definition new : Buffer := [].

Definition render (bw : Buffer) : Buffer := bw.

(** [for (const x of xs) body(x)] over a writer. *)
Fixpoint forEach {A} (xs : list A) (body : A -> Buffer -> result Buffer)
  (bw : Buffer) : result Buffer :=
  match xs with
  | [] => Ok bw
  | x :: xs' => do bw <- body x bw ; forEach xs' body bw
  end.

End ProtoWriter.

(** ** Outputs, as they occur in [PaymentDetails] and [Payment] *)

Record Output := mkOutput {
  value : Z;
  script : option Buffer
}.

(** The body of the loop over outputs in [toRaw]. A [script] that is
    [null] has no [length]. *)
Definition writeOutput (tag : Z) (output : Output) (bw : Buffer)
  : result Buffer :=
  let op := ProtoWriter.new in
  do op <- ProtoWriter.writeFieldU64 1 (value output) op ;
  do op <- match script output with
           | Some s => ProtoWriter.writeFieldBytes 2 s op
           | None => Throw (TypeError "Cannot read properties of null")
           end ;
  ProtoWriter.writeFieldBytes tag (ProtoWriter.render op) bw.

(** The body of the loop over outputs in [fromRaw]: [data] is what
    [br.readFieldBytes(tag)] answered. *)
Definition readOutput (fuel : nat) (data : option Buffer) : result Output :=
  do op <- newProtoReader data ;
  runReader (
    value <- readFieldU64 op fuel 1 true ;;
    script <- readFieldBytes op fuel 2 true ;;
    ret (mkOutput value script)).

(** ** Options

    [fromOptions] takes an object of options. The options are embedded with
    the types their assertions ask for, an option that is not given as
    [None]; the assertions on a type ([typeof x === 'string'],
    [Array.isArray(x)]) then hold by construction, and what is left to
    check are the ranges of the numbers and the presence of a script. *)

(** [Number.isSafeInteger(v)] for an integer [v]. *)
Definition isSafeInteger (v : Z) : bool :=
  (- (2 ^ 53 - 1) <=? v) && (v <=? 2 ^ 53 - 1).

(** [Buffer.isBuffer(x)] for a buffer or [null]. *)
Definition isBuffer (x : option Buffer) : bool :=
  match x with
  | Some _ => true
  | None => false
  end.

(** [for (const x of xs) body(x)] over the state of an object. *)
Fixpoint forEachM {S A} (xs : list A) (body : A -> M S unit) : M S unit :=
  match xs with
  | [] => ret tt
  | x :: xs' => _ <- body x ;; forEachM xs' body
  end.

(** A method of a member object, called on the member: what it has done
    to the member stays when it throws. *)
Definition within {S S' A} (member : S -> S') (update : S -> S' -> S)
  (m : M S' A) : M S A :=
  fun s =>
    match m (member s) with
    | (r, s') => (r, update s s')
    end.

(** The assertions on an output in the loops of [fromOptions]. *)
Definition checkOutput (output : Output) : result unit :=
  assert (isSafeInteger (value output) && (0 <=? value output))
    "Assertion failed."
    (assert (isBuffer (script output)) "Assertion failed." (Ok tt)).

(** ** paymentdetails.js *)

Module PaymentDetails.

Record t := mk {
  network : option string;
  outputs : list Output;
  time : Z;
  expires : Z;
  memo : option string;
  paymentUrl : option string;
  merchantData : option Buffer
}.

(** The constructor without options. [now] is [Date.now()], in
    milliseconds; for an integer below 2^53, [Math.floor(now / 1000)] is
    the integer quotient. *)
Definition create (now : Z) : t :=
  mk None [] (now / 1000) (-1) None None None.

Definition isExpired (now : Z) (this : t) : bool :=
  if expires this =? -1 then false
  else expires this <? now / 1000.

(** What [getData] answers: [null], the buffer, a parsed document or a
    string. *)
Inductive Data (J : Type) : Type :=
| DNull
| DBuffer (b : Buffer)
| DJson (j : J)
| DString (s : string).

Arguments DNull {J}.
Arguments DBuffer {J} b.
Arguments DJson {J} j.
Arguments DString {J} s.

Section GetData.

(** JSON documents and [JSON.parse], which answers a document or
    throws ([None]); [toString] of a buffer in an encoding other than
    UTF-8, which throws on an encoding it does not know. *)
Variable J : Type.
Variable JSON_parse : string -> option J.
Variable toString : Buffer -> string -> option string.

(** [getData(enc)] on the [merchantData] of an object; [enc] absent or
    empty is falsy. *)
Definition getDataOf (merchantData : option Buffer) (enc : option string)
  : result (Data J) :=
  match merchantData with
  | None => Ok DNull
  | Some data =>
      match enc with
      | None | Some EmptyString => Ok (DBuffer data)
      | Some enc =>
          if String.eqb enc "json"
          then
            let data := toStringUtf8 data in
            match JSON_parse data with
            | Some j => Ok (DJson j)
            | None => Ok DNull
            end
          else
            match toString data enc with
            | Some s => Ok (DString s)
            | None => Throw (TypeError "Unknown encoding")
            end
      end
  end.

Definition getData (this : t) (enc : option string) : result (Data J) :=
  getDataOf (merchantData this) enc.

End GetData.

(** [fromRaw(data)] on the object [this]. The fields are assigned as the
    reads succeed; the object is answered when all have. *)
Definition fromRaw (fuel : nat) (this : t) (data : option Buffer)
  : result t :=
  do br <- newProtoReader data ;
  runReader (
    network <- readFieldString br fuel 1 true ;;
    outputs <- whileNextTag br fuel fuel 2
                 (fun outputs =>
                    d <- readFieldBytes br fuel 2 false ;;
                    output <- liftResult (readOutput fuel d) ;;
                    ret (outputs ++ [output]))
                 (outputs this) ;;
    time <- readFieldU64 br fuel 3 false ;;
    expires <- readFieldU64 br fuel 4 true ;;
    memo <- readFieldString br fuel 5 true ;;
    paymentUrl <- readFieldString br fuel 6 true ;;
    merchantData <- readFieldBytes br fuel 7 true ;;
    ret (mk network outputs time expires memo paymentUrl merchantData)).

(** The static [fromRaw]: [new PaymentDetails().fromRaw(data)]. *)
Definition decode (fuel : nat) (now : Z) (data : Buffer) : result t :=
  fromRaw fuel (create now) (Some data).

Definition toRaw (this : t) : result Buffer :=
  let bw := ProtoWriter.new in
  do bw <- match network this with
           | Some s => ProtoWriter.writeFieldString 1 (ProtoWriter.Str s) bw
           | None => Ok bw
           end ;
  do bw <- ProtoWriter.forEach (outputs this) (writeOutput 2) bw ;
  do bw <- ProtoWriter.writeFieldU64 3 (time this) bw ;
  do bw <- (if negb (expires this =? -1)
            then ProtoWriter.writeFieldU64 4 (expires this) bw
            else Ok bw) ;
  do bw <- match memo this with
           | Some s => ProtoWriter.writeFieldString 5 (ProtoWriter.Str s) bw
           | None => Ok bw
           end ;
  do bw <- match paymentUrl this with
           | Some s => ProtoWriter.writeFieldString 6 (ProtoWriter.Str s) bw
           | None => Ok bw
           end ;
  do bw <- match merchantData this with
           | Some b => ProtoWriter.writeFieldString 7 (ProtoWriter.Buf b) bw
           | None => Ok bw
           end ;
  Ok (ProtoWriter.render bw).

(** What [setData] is given: [null] or [undefined], a buffer, a string, or
    a value of another type, which [JSON.stringify] serializes. *)
Inductive DataArg (J : Type) : Type :=
| ANull
| ABuffer (b : Buffer)
| AString (s : string)
| AValue (j : J).

Arguments ANull {J}.
Arguments ABuffer {J} b.
Arguments AString {J} s.
Arguments AValue {J} j.

Module Options.

Record t (J : Type) := mk {
  network : option string;
  outputs : option (list Output);
  time : option Z;
  expires : option Z;
  memo : option string;
  paymentUrl : option string;
  merchantData : DataArg J
}.

Arguments mk {J}.
Arguments network {J}.
Arguments outputs {J}.
Arguments time {J}.
Arguments expires {J}.
Arguments memo {J}.
Arguments paymentUrl {J}.
Arguments merchantData {J}.

End Options.

Definition setNetwork (this : t) (x : option string) : t :=
  mk x (outputs this) (time this) (expires this) (memo this)
    (paymentUrl this) (merchantData this).

Definition setOutputs (this : t) (x : list Output) : t :=
  mk (network this) x (time this) (expires this) (memo this)
    (paymentUrl this) (merchantData this).

Definition setTime (this : t) (x : Z) : t :=
  mk (network this) (outputs this) x (expires this) (memo this)
    (paymentUrl this) (merchantData this).

Definition setExpires (this : t) (x : Z) : t :=
  mk (network this) (outputs this) (time this) x (memo this)
    (paymentUrl this) (merchantData this).

Definition setMemo (this : t) (x : option string) : t :=
  mk (network this) (outputs this) (time this) (expires this) x
    (paymentUrl this) (merchantData this).

Definition setPaymentUrl (this : t) (x : option string) : t :=
  mk (network this) (outputs this) (time this) (expires this) (memo this)
    x (merchantData this).

Definition setMerchantData (this : t) (x : option Buffer) : t :=
  mk (network this) (outputs this) (time this) (expires this) (memo this)
    (paymentUrl this) x.

Section SetData.

(** The values that are neither [null], a buffer nor a string, with
    [JSON.stringify], which answers a text or throws ([None]: a cycle, or
    a value without a serialization, on which [Buffer.from] throws), and
    their truthiness; [Buffer.from(s, enc)] with an encoding given, which
    throws on an encoding it does not know. *)
Variable J : Type.
Variable JSON_stringify : J -> option string.
Variable truthy : J -> bool.
Variable fromString : string -> string -> option Buffer.

(** What [setData(data, enc)] assigns to [merchantData]. *)
Definition setDataOf (data : DataArg J) (enc : option string)
  : result (option Buffer) :=
  match data with
  | ANull => Ok None
  | ABuffer b => Ok (Some b)
  | AValue j =>
      assert match enc with
             | None | Some EmptyString => true
             | Some enc => String.eqb enc "json"
             end "Assertion failed."
        match JSON_stringify j with
        | Some s => Ok (Some (list_byte_of_string s))
        | None => Throw (TypeError "JSON.stringify")
        end
  | AString s =>
      match enc with
      | None => Ok (Some (list_byte_of_string s))
      | Some enc =>
          match fromString s enc with
          | Some b => Ok (Some b)
          | None => Throw (TypeError "Unknown encoding")
          end
      end
  end.

Definition setData (data : DataArg J) (enc : option string) : M t unit :=
  merchantData <- liftResult (setDataOf data enc) ;;
  this <- get ;;
  put (setMerchantData this merchantData).

(** [if (options.merchantData)] *)
Definition given (data : DataArg J) : bool :=
  match data with
  | ANull => false
  | ABuffer _ => true
  | AString EmptyString => false
  | AString _ => true
  | AValue j => truthy j
  end.

(** [this.outputs.push(output)] after the assertions. *)
Definition pushOutput (output : Output) : M t unit :=
  _ <- liftResult (checkOutput output) ;;
  this <- get ;;
  put (setOutputs this (outputs this ++ [output])).

Definition fromOptions (options : Options.t J) : M t unit :=
  _ <- match Options.network options with
       | Some x => this <- get ;; put (setNetwork this (Some x))
       | None => ret tt
       end ;;
  _ <- match Options.outputs options with
       | Some xs => forEachM xs pushOutput
       | None => ret tt
       end ;;
  _ <- match Options.time options with
       | Some x =>
           _ <- assertM (isSafeInteger x) "Assertion failed." ;;
           this <- get ;; put (setTime this x)
       | None => ret tt
       end ;;
  _ <- match Options.expires options with
       | Some x =>
           _ <- assertM (isSafeInteger x) "Assertion failed." ;;
           this <- get ;; put (setExpires this x)
       | None => ret tt
       end ;;
  _ <- match Options.memo options with
       | Some x => this <- get ;; put (setMemo this (Some x))
       | None => ret tt
       end ;;
  _ <- match Options.paymentUrl options with
       | Some x => this <- get ;; put (setPaymentUrl this (Some x))
       | None => ret tt
       end ;;
  if given (Options.merchantData options)
  then setData (Options.merchantData options) None
  else ret tt.

End SetData.


End PaymentDetails.

(** ** payment.js *)

Module Payment.

Record t := mk {
  merchantData : option Buffer;
  transactions : list Buffer;
  refundTo : list Output;
  memo : option string
}.

Definition create : t := mk None [] [] None.

(** [getData] is the method of [PaymentDetails], called on the payment. *)
Definition getData (J : Type) (JSON_parse : string -> option J)
  (toString : Buffer -> string -> option string) (this : t)
  (enc : option string) : result (PaymentDetails.Data J) :=
  PaymentDetails.getDataOf J JSON_parse toString (merchantData this) enc.

Definition fromRaw (fuel : nat) (this : t) (data : option Buffer)
  : result t :=
  do br <- newProtoReader data ;
  runReader (
    merchantData <- readFieldBytes br fuel 1 true ;;
    transactions <- whileNextTag br fuel fuel 2
                      (fun transactions =>
                         (* a required field is never [null], see
                            [readFieldBytes_required] *)
                         tx <- readFieldBytes br fuel 2 false ;;
                         match tx with
                         | Some tx => ret (transactions ++ [tx])
                         | None => ret transactions
                         end)
                      (transactions this) ;;
    refundTo <- whileNextTag br fuel fuel 3
                  (fun refundTo =>
                     d <- readFieldBytes br fuel 3 false ;;
                     output <- liftResult (readOutput fuel d) ;;
                     ret (refundTo ++ [output]))
                  (refundTo this) ;;
    memo <- readFieldString br fuel 4 true ;;
    ret (mk merchantData transactions refundTo memo)).

Definition decode (fuel : nat) (data : Buffer) : result t :=
  fromRaw fuel create (Some data).

Definition toRaw (this : t) : result Buffer :=
  let bw := ProtoWriter.new in
  do bw <- match merchantData this with
           | Some b => ProtoWriter.writeFieldBytes 1 b bw
           | None => Ok bw
           end ;
  do bw <- ProtoWriter.forEach (transactions this)
             (ProtoWriter.writeFieldBytes 2) bw ;
  do bw <- ProtoWriter.forEach (refundTo this) (writeOutput 3) bw ;
  do bw <- match memo this with
           | Some s => ProtoWriter.writeFieldString 4 (ProtoWriter.Str s) bw
           | None => Ok bw
           end ;
  Ok (ProtoWriter.render bw).

Module Options.

Record t (J : Type) := mk {
  merchantData : PaymentDetails.DataArg J;
  transactions : option (list Buffer);
  refundTo : option (list Output);
  memo : option string
}.

Arguments mk {J}.
Arguments merchantData {J}.
Arguments transactions {J}.
Arguments refundTo {J}.
Arguments memo {J}.

End Options.

Definition setMerchantData (this : t) (x : option Buffer) : t :=
  mk x (transactions this) (refundTo this) (memo this).

Definition setTransactions (this : t) (x : list Buffer) : t :=
  mk (merchantData this) x (refundTo this) (memo this).

Definition setRefundTo (this : t) (x : list Output) : t :=
  mk (merchantData this) (transactions this) x (memo this).

Definition setMemo (this : t) (x : option string) : t :=
  mk (merchantData this) (transactions this) (refundTo this) x.

Section SetData.

Variable J : Type.
Variable JSON_stringify : J -> option string.
Variable truthy : J -> bool.
Variable fromString : string -> string -> option Buffer.

(** [setData] is the method of [PaymentDetails], called on the payment. *)
Definition setData (data : PaymentDetails.DataArg J) (enc : option string)
  : M t unit :=
  merchantData <-
    liftResult (PaymentDetails.setDataOf J JSON_stringify fromString
                  data enc) ;;
  this <- get ;;
  put (setMerchantData this merchantData).

Definition pushOutput (output : Output) : M t unit :=
  _ <- liftResult (checkOutput output) ;;
  this <- get ;;
  put (setRefundTo this (refundTo this ++ [output])).

Definition fromOptions (options : Options.t J) : M t unit :=
  _ <- (if PaymentDetails.given J truthy (Options.merchantData options)
        then setData (Options.merchantData options) None
        else ret tt) ;;
  _ <- match Options.transactions options with
       | Some xs =>
           forEachM xs
             (fun tx =>
                this <- get ;;
                put (setTransactions this (transactions this ++ [tx])))
       | None => ret tt
       end ;;
  _ <- match Options.refundTo options with
       | Some xs => forEachM xs pushOutput
       | None => ret tt
       end ;;
  match Options.memo options with
  | Some x => this <- get ;; put (setMemo this (Some x))
  | None => ret tt
  end.

End SetData.


End Payment.

(** ** paymentack.js *)

Module PaymentACK.

Record t := mk {
  payment : Payment.t;
  memo : option string
}.

Definition create : t := mk Payment.create None.

Definition fromRaw (fuel : nat) (this : t) (data : option Buffer)
  : result t :=
  do br <- newProtoReader data ;
  runReader (
    d <- readFieldBytes br fuel 1 false ;;
    payment <- liftResult (Payment.fromRaw fuel (payment this) d) ;;
    memo <- readFieldString br fuel 2 true ;;
    ret (mk payment memo)).

Definition decode (fuel : nat) (data : Buffer) : result t :=
  fromRaw fuel create (Some data).

Definition toRaw (this : t) : result Buffer :=
  let bw := ProtoWriter.new in
  do p <- Payment.toRaw (payment this) ;
  do bw <- ProtoWriter.writeFieldBytes 1 p bw ;
  do bw <- match memo this with
           | Some s => ProtoWriter.writeFieldString 2 (ProtoWriter.Str s) bw
           | None => Ok bw
           end ;
  Ok (ProtoWriter.render bw).

Module Options.

Record t (J : Type) := mk {
  payment : option (Payment.Options.t J);
  memo : option string
}.

Arguments mk {J}.
Arguments payment {J}.
Arguments memo {J}.

End Options.

Definition setPayment (this : t) (x : Payment.t) : t := mk x (memo this).

Definition setMemo (this : t) (x : option string) : t :=
  mk (payment this) x.

Section FromOptions.

Variable J : Type.
Variable JSON_stringify : J -> option string.
Variable truthy : J -> bool.
Variable fromString : string -> string -> option Buffer.

Definition fromOptions (options : Options.t J) : M t unit :=
  _ <- match Options.payment options with
       | Some x =>
           within payment setPayment
             (Payment.fromOptions J JSON_stringify truthy fromString x)
       | None => ret tt
       end ;;
  match Options.memo options with
  | Some x => this <- get ;; put (setMemo this (Some x))
  | None => ret tt
  end.

End FromOptions.


End PaymentACK.

(** ** paymentrequest.js *)

(** [s.split(sep)] for a separator of one character. *)
Fixpoint split (sep : ascii) (s : string) : list string :=
  match s with
  | EmptyString => [EmptyString]
  | String c s' =>
      if Ascii.eqb c sep then EmptyString :: split sep s'
      else
        match split sep s' with
        | p :: ps => String c p :: ps
        | [] => [String c EmptyString]
        end
  end.

(** [!s] for a string or [null] *)
Definition falsy (s : option string) : bool :=
  match s with
  | None | Some EmptyString => true
  | Some _ => false
  end.

(** [s === lit] for a string or [null] *)
Definition strictEq (s : option string) (lit : string) : bool :=
  match s with
  | Some s => String.eqb s lit
  | None => false
  end.

Module PaymentRequest.

Record t := mk {
  version : Z;
  pkiType : option string;
  pkiData : option Buffer;
  paymentDetails : PaymentDetails.t;
  signature : option Buffer
}.

Definition create (now : Z) : t :=
  mk (-1) None None (PaymentDetails.create now) None.

Definition setPkiType (this : t) (x : option string) : t :=
  mk (version this) x (pkiData this) (paymentDetails this) (signature this).

Definition setPkiData (this : t) (x : option Buffer) : t :=
  mk (version this) (pkiType this) x (paymentDetails this) (signature this).

Definition setSignature (this : t) (x : option Buffer) : t :=
  mk (version this) (pkiType this) (pkiData this) (paymentDetails this) x.

Definition fromRaw (fuel : nat) (this : t) (data : option Buffer)
  : result t :=
  do br <- newProtoReader data ;
  runReader (
    version <- readFieldU32 br fuel 1 true ;;
    pkiType <- readFieldString br fuel 2 true ;;
    pkiData <- readFieldBytes br fuel 3 true ;;
    d <- readFieldBytes br fuel 4 false ;;
    paymentDetails <-
      liftResult (PaymentDetails.fromRaw fuel (paymentDetails this) d) ;;
    signature <- readFieldBytes br fuel 5 true ;;
    ret (mk version pkiType pkiData paymentDetails signature)).

Definition decode (fuel : nat) (now : Z) (data : Buffer) : result t :=
  fromRaw fuel (create now) (Some data).

Definition toRaw (this : t) : result Buffer :=
  let bw := ProtoWriter.new in
  do bw <- (if negb (version this =? -1)
            then ProtoWriter.writeFieldU32 1 (version this) bw
            else Ok bw) ;
  do bw <- match pkiType this with
           | Some s => ProtoWriter.writeFieldString 2 (ProtoWriter.Str s) bw
           | None => Ok bw
           end ;
  do bw <- match pkiData this with
           | Some b => ProtoWriter.writeFieldBytes 3 b bw
           | None => Ok bw
           end ;
  do d <- PaymentDetails.toRaw (paymentDetails this) ;
  do bw <- ProtoWriter.writeFieldBytes 4 d bw ;
  do bw <- match signature this with
           | Some b => ProtoWriter.writeFieldBytes 5 b bw
           | None => Ok bw
           end ;
  Ok (ProtoWriter.render bw).

Record Algorithm := mkAlgorithm {
  key : string;
  hash : string
}.

Definition getAlgorithm (this : t) : result Algorithm :=
  if falsy (pkiType this) then Throw (Error "No PKI type available.")
  else
    match pkiType this with
    | None => Throw (Error "No PKI type available.")
    | Some pkiType =>
        let parts := split "+" pkiType in
        if negb (length parts =? 2)%nat
        then Throw (Error "Could not parse PKI algorithm.")
        else
          let part0 := nth 0 parts EmptyString in
          let part1 := nth 1 parts EmptyString in
          if negb (String.eqb part0 "x509")
          then Throw (Error ("Unknown PKI type: " ++ part0 ++ "."))
          else if negb (String.eqb part1 "sha1")
                  && negb (String.eqb part1 "sha256")
          then Throw (Error ("Unknown hash algorithm: " ++ part1 ++ "."))
          else Ok (mkAlgorithm part0 part1)
    end.

(** The methods below act on the request they are called on. *)

Definition signatureData : M t Buffer :=
  this <- get ;;
  let signature := signature this in
  _ <- put (setSignature this (Some [])) ;;
  this <- get ;;
  data <- liftResult (toRaw this) ;;
  this <- get ;;
  _ <- put (setSignature this signature) ;;
  ret data.

Definition setChain (chain : list Buffer) : M t unit :=
  let bw := ProtoWriter.new in
  bw <- liftResult
          (ProtoWriter.forEach chain (ProtoWriter.writeFieldBytes 1) bw) ;;
  this <- get ;;
  put (setPkiData this (Some (ProtoWriter.render bw))).

Definition getChain (fuel : nat) : M t (list Buffer) :=
  this <- get ;;
  let chain := [] in
  match pkiData this with
  | None => ret chain
  | Some pkiData =>
      liftResult (runReader (
        whileNextTag pkiData fuel fuel 1
          (fun chain =>
             (* a required field is never [null], see
                [readFieldBytes_required] *)
             cert <- readFieldBytes pkiData fuel 1 false ;;
             match cert with
             | Some cert => ret (chain ++ [cert])
             | None => ret chain
             end)
          chain))
  end.

Module Options.

Record t (J : Type) := mk {
  version : option Z;
  pkiType : option string;
  pkiData : option Buffer;
  paymentDetails : option (PaymentDetails.Options.t J);
  signature : option Buffer;
  chain : option (list Buffer)
}.

Arguments mk {J}.
Arguments version {J}.
Arguments pkiType {J}.
Arguments pkiData {J}.
Arguments paymentDetails {J}.
Arguments signature {J}.
Arguments chain {J}.

End Options.

Definition setVersion (this : t) (x : Z) : t :=
  mk x (pkiType this) (pkiData this) (paymentDetails this) (signature this).

Definition setPaymentDetails (this : t) (x : PaymentDetails.t) : t :=
  mk (version this) (pkiType this) (pkiData this) x (signature this).

Section FromOptions.

Variable J : Type.
Variable JSON_stringify : J -> option string.
Variable truthy : J -> bool.
Variable fromString : string -> string -> option Buffer.

(** [(x | 0) === x] is the test of a 32-bit integer. *)
Definition fromOptions (options : Options.t J) : M t unit :=
  _ <- match Options.version options with
       | Some x =>
           _ <- assertM (JS.ToInt32 x =? x) "Assertion failed." ;;
           this <- get ;; put (setVersion this x)
       | None => ret tt
       end ;;
  _ <- match Options.pkiType options with
       | Some x => this <- get ;; put (setPkiType this (Some x))
       | None => ret tt
       end ;;
  _ <- match Options.pkiData options with
       | Some x => this <- get ;; put (setPkiData this (Some x))
       | None => ret tt
       end ;;
  _ <- match Options.paymentDetails options with
       | Some x =>
           within paymentDetails setPaymentDetails
             (PaymentDetails.fromOptions J JSON_stringify truthy fromString
                x)
       | None => ret tt
       end ;;
  _ <- match Options.signature options with
       | Some x => this <- get ;; put (setSignature this (Some x))
       | None => ret tt
       end ;;
  match Options.chain options with
  | Some x => setChain x
  | None => ret tt
  end.

End FromOptions.


Section X509.

(** The certificate collaborator, x509.js, which is not among the
    sources: each function answers a value or throws ([None]). *)
Variable signSubject :
  string -> Buffer -> Buffer -> list Buffer -> option Buffer.
Variable verifySubject :
  string -> Buffer -> option Buffer -> list Buffer -> option bool.
Variable x509_verifyChain : list Buffer -> option bool.

Definition external {A} (r : option A) : M t A :=
  match r with
  | Some a => ret a
  | None => throw (Error "x509")
  end.

Definition sign (fuel : nat) (key : Buffer) (certs : option (list Buffer))
  : M t unit :=
  _ <- match certs with
       | Some certs => setChain certs
       | None => ret tt
       end ;;
  this <- get ;;
  _ <- (if falsy (pkiType this)
        then put (setPkiType this (Some "x509+sha256"%string))
        else ret tt) ;;
  this <- get ;;
  alg <- liftResult (getAlgorithm this) ;;
  msg <- signatureData ;;
  chain <- getChain fuel ;;
  sig <- external (signSubject (hash alg) msg key chain) ;;
  this <- get ;;
  put (setSignature this (Some sig)).

Definition verify (fuel : nat) : M t bool :=
  this <- get ;;
  if falsy (pkiType this) || strictEq (pkiType this) "none"
  then ret false
  else
    match signature this with
    | None => ret false
    | Some _ =>
        alg <- tryCatch
                 (alg <- liftResult (getAlgorithm this) ;; ret (Some alg))
                 (ret None) ;;
        match alg with
        | None => ret false
        | Some alg =>
            msg <- signatureData ;;
            this <- get ;;
            let sig := signature this in
            chain <- getChain fuel ;;
            tryCatch
              (external (verifySubject (hash alg) msg sig chain))
              (ret false)
        end
    end.

Definition verifyChain (fuel : nat) : M t bool :=
  this <- get ;;
  if falsy (pkiType this) || strictEq (pkiType this) "none"
  then ret false
  else
    tryCatch
      (chain <- getChain fuel ;; external (x509_verifyChain chain))
      (ret false).

End X509.

Section CA.

(** Certificates as [x509.parse] answers them, with the two functions
    the constructor of [CA] calls; each answers a value or throws
    ([None]). *)
Variable Certificate : Type.
Variable Name : Type.
Variable parse : Buffer -> option Certificate.
Variable getCAName : Certificate -> option Name.
Variable isTrusted : Certificate -> option bool.

Record CA := mkCA {
  name : Name;
  trusted : bool;
  cert : Certificate
}.

(** [new CA(root)] *)
Definition newCA (root : Certificate) : M t CA :=
  name <- external (getCAName root) ;;
  trusted <- external (isTrusted root) ;;
  ret (mkCA name trusted root).

(** [chain[chain.length - 1]] is the last certificate of a chain that is
    not empty. *)
Definition getCA (fuel : nat) : M t CA :=
  this <- get ;;
  if falsy (pkiType this) || strictEq (pkiType this) "none"
  then throw (Error "No CA found (pkiType).")
  else
    chain <- getChain fuel ;;
    if (length chain =? 0)%nat
    then throw (Error "No CA found (chain).")
    else
      root <- external (parse (nth (length chain - 1) chain [])) ;;
      newCA root.

End CA.


End PaymentRequest.

(** ** pk.js

    The hash functions, RSA and the curves are modules of the package
    bcrypto, a dependency: they are parameters. *)

Module pk.

Inductive Hash : Type := SHA224 | SHA256 | SHA384 | SHA512.

Inductive Curve : Type := p224 | p256 | p384 | p521.

(** A key: [alg], [curve] ([undefined] on a key without one) and
    [data]. *)
Record Key := mkKey {
  alg : string;
  curve : option string;
  data : Buffer
}.

Definition getHash (alg : string) : option Hash :=
  if String.eqb alg "sha224" then Some SHA224
  else if String.eqb alg "sha256" then Some SHA256
  else if String.eqb alg "sha384" then Some SHA384
  else if String.eqb alg "sha512" then Some SHA512
  else None.

Definition getCurve (curve : option string) : result (option Curve) :=
  match curve with
  | None => Throw (AssertionError "Assertion failed.")
  | Some curve =>
      Ok (if String.eqb curve "p224" then Some p224
          else if String.eqb curve "p256" then Some p256
          else if String.eqb curve "p384" then Some p384
          else if String.eqb curve "p521" then Some p521
          else None)
  end.

(** A call into bcrypto: a value, or an exception ([None]). *)
Definition call {A} (r : option A) : result A :=
  match r with
  | Some a => Ok a
  | None => Throw (Error "bcrypto")
  end.

Section Primitives.

Variable digest : Hash -> Buffer -> Buffer.
Variable rsa_verify : Hash -> Buffer -> Buffer -> Buffer -> option bool.
Variable rsa_sign : Hash -> Buffer -> Buffer -> option Buffer.
Variable verifyDER : Curve -> Buffer -> Buffer -> Buffer -> option bool.
Variable signDER : Curve -> Buffer -> Buffer -> option Buffer.

Definition verify (alg : string) (msg sig : Buffer) (key : Key)
  : result bool :=
  match getHash alg with
  | None => Ok false
  | Some hash =>
      if String.eqb (pk.alg key) "rsa"
      then call (rsa_verify hash (digest hash msg) sig (data key))
      else if String.eqb (pk.alg key) "ecdsa"
      then
        do ec <- getCurve (curve key) ;
        match ec with
        | None => Ok false
        | Some ec => call (verifyDER ec (digest hash msg) sig (data key))
        end
      else Throw (Error ("Unsupported algorithm: " ++ pk.alg key ++ "."))
  end.

Definition sign (alg : string) (msg : Buffer) (key : Key) : result Buffer :=
  match getHash alg with
  | None => Throw (Error ("Unsupported hash algorithm: " ++ alg ++ "."))
  | Some hash =>
      if String.eqb (pk.alg key) "rsa"
      then call (rsa_sign hash (digest hash msg) (data key))
      else if String.eqb (pk.alg key) "ecdsa"
      then
        do ec <- getCurve (curve key) ;
        match ec with
        | None =>
            Throw (Error ("Unsupported curve: "
                          ++ match curve key with
                             | Some c => c
                             | None => EmptyString
                             end ++ "."))
        | Some ec => call (signDER ec (digest hash msg) (data key))
        end
      else Throw (Error ("Unsupported algorithm: " ++ pk.alg key ++ "."))
  end.

End Primitives.

End pk.

(** ** Varint encodings *)

Definition continues (b : Byte.byte) : bool := negb (Z.land (byteZ b) 0x80 =? 0).

(** A well-formed varint encoding: groups with the continuation bit, then
    one without. *)
Fixpoint isVarint (bs : Buffer) : bool :=
  match bs with
  | [] => false
  | [b] => negb (continues b)
  | b :: bs' => continues b && isVarint bs'
  end.

(** The number it encodes, least significant group first. *)
Fixpoint varintValue (bs : Buffer) : Z :=
  match bs with
  | [] => 0
  | b :: bs' => Z.land (byteZ b) 0x7f + 128 * varintValue bs'
  end.

(** * The vocabulary of the statements *)

(** The three arithmetic forms of the [switch] in [_readVarint] add the
    same term; it is named to be compared with [group * 2^(7 * size)]. *)
Definition groupTerm (size : nat) (ch : Z) : Z :=
  match size with
  | 0%nat | 1%nat | 2%nat | 3%nat =>
      JS.shl (JS.band ch 0x7f) (7 * Z.of_nat size)
  | 4%nat => JS.band ch 0x7f * JS.shl 1 (7 * Z.of_nat size)
  | _ => JS.band ch 0x7f * JS.pow2 (7 * Z.of_nat size)
  end.

(** ** The bytes of a field

    What the writer appends for one field, as a function of the field: the
    lemmas [writeFieldBytes_inv] and [writeFieldVarint_inv] relate them to
    the writer. *)

Definition header (tag ty : Z) : Buffer :=
  ProtoWriter.encodeVarint (tag * 8 + ty).

Definition encBytes (tag : Z) (d : Buffer) : Buffer :=
  header tag wireType.DELIMITED ++ ProtoWriter.encodeVarint (len d) ++ d.

Definition encVarint (tag v : Z) : Buffer :=
  header tag wireType.VARINT ++ ProtoWriter.encodeVarint v.

(** A field that is written only when it is present. *)
Definition optBytes (tag : Z) (o : option Buffer) : Buffer :=
  match o with
  | Some d => encBytes tag d
  | None => []
  end.

Definition optUtf8 (o : option string) : option Buffer :=
  option_map list_byte_of_string o.

Definition optString (tag : Z) (o : option string) : Buffer :=
  optBytes tag (option_map list_byte_of_string o).

(** A number that is written only when it is not the sentinel -1. *)
Definition optVarint (tag v : Z) : Buffer :=
  if v =? -1 then [] else encVarint tag v.

(** ** The bytes of a message *)

Definition encOutputBody (o : Output) : Buffer :=
  encVarint 1 (value o) ++ optBytes 2 (script o).

Definition encOutput (tag : Z) (o : Output) : Buffer :=
  encBytes tag (encOutputBody o).

Definition encDetails (d : PaymentDetails.t) : Buffer :=
  optString 1 (PaymentDetails.network d)
  ++ concat (map (encOutput 2) (PaymentDetails.outputs d))
  ++ encVarint 3 (PaymentDetails.time d)
  ++ optVarint 4 (PaymentDetails.expires d)
  ++ optString 5 (PaymentDetails.memo d)
  ++ optString 6 (PaymentDetails.paymentUrl d)
  ++ optBytes 7 (PaymentDetails.merchantData d).

Definition encPayment (p : Payment.t) : Buffer :=
  optBytes 1 (Payment.merchantData p)
  ++ concat (map (encBytes 2) (Payment.transactions p))
  ++ concat (map (encOutput 3) (Payment.refundTo p))
  ++ optString 4 (Payment.memo p).

Definition encACK (a : PaymentACK.t) : Buffer :=
  encBytes 1 (encPayment (PaymentACK.payment a))
  ++ optString 2 (PaymentACK.memo a).

Definition encRequest (r : PaymentRequest.t) : Buffer :=
  optVarint 1 (PaymentRequest.version r)
  ++ optString 2 (PaymentRequest.pkiType r)
  ++ optBytes 3 (PaymentRequest.pkiData r)
  ++ encBytes 4 (encDetails (PaymentRequest.paymentDetails r))
  ++ optBytes 5 (PaymentRequest.signature r).

(** ** Well-formed strings

    The byte sequences that are UTF-8, by the table of well-formed
    sequences of the Unicode standard: the code units of the JS strings
    without a lone surrogate. *)
Fixpoint isUtf8 (bs : Buffer) : bool :=
  match bs with
  | [] => true
  | b0 :: r0 =>
      if byteZ b0 <=? 0x7F then isUtf8 r0
      else
        match r0 with
        | [] => false
        | b1 :: r1 =>
            if Utf8.inRange 0xC2 0xDF b0
            then Utf8.inRange 0x80 0xBF b1 && isUtf8 r1
            else
              match r1 with
              | [] => false
              | b2 :: r2 =>
                  if Utf8.inRange 0xE0 0xEF b0
                  then
                    Utf8.inRange (if byteZ b0 =? 0xE0 then 0xA0 else 0x80)
                      (if byteZ b0 =? 0xED then 0x9F else 0xBF) b1
                    && Utf8.inRange 0x80 0xBF b2 && isUtf8 r2
                  else
                    match r2 with
                    | [] => false
                    | b3 :: r3 =>
                        if Utf8.inRange 0xF0 0xF4 b0
                        then
                          Utf8.inRange
                            (if byteZ b0 =? 0xF0 then 0x90 else 0x80)
                            (if byteZ b0 =? 0xF4 then 0x8F else 0xBF) b1
                          && Utf8.inRange 0x80 0xBF b2
                          && Utf8.inRange 0x80 0xBF b3 && isUtf8 r3
                        else false
                    end
              end
        end
  end.

Definition wellFormed (s : string) : Prop :=
  isUtf8 (list_byte_of_string s) = true.

Definition wellFormedOpt (o : option string) : Prop :=
  match o with
  | Some s => wellFormed s
  | None => True
  end.

(** A string as it comes back from its code units: itself when it is well
    formed, see [reread_wellFormed]. *)
Definition reread (s : string) : string :=
  toStringUtf8 (list_byte_of_string s).

Definition wellFormedDetails (d : PaymentDetails.t) : Prop :=
  wellFormedOpt (PaymentDetails.network d)
  /\ wellFormedOpt (PaymentDetails.memo d)
  /\ wellFormedOpt (PaymentDetails.paymentUrl d).

Definition rereadDetails (d : PaymentDetails.t) : PaymentDetails.t :=
  PaymentDetails.mk (option_map reread (PaymentDetails.network d))
    (PaymentDetails.outputs d) (PaymentDetails.time d)
    (PaymentDetails.expires d) (option_map reread (PaymentDetails.memo d))
    (option_map reread (PaymentDetails.paymentUrl d))
    (PaymentDetails.merchantData d).

Definition wellFormedPayment (p : Payment.t) : Prop :=
  wellFormedOpt (Payment.memo p).

Definition rereadPayment (p : Payment.t) : Payment.t :=
  Payment.mk (Payment.merchantData p) (Payment.transactions p)
    (Payment.refundTo p) (option_map reread (Payment.memo p)).

Definition wellFormedACK (a : PaymentACK.t) : Prop :=
  wellFormedPayment (PaymentACK.payment a)
  /\ wellFormedOpt (PaymentACK.memo a).

Definition rereadACK (a : PaymentACK.t) : PaymentACK.t :=
  PaymentACK.mk (rereadPayment (PaymentACK.payment a))
    (option_map reread (PaymentACK.memo a)).

Definition wellFormedRequest (r : PaymentRequest.t) : Prop :=
  wellFormedOpt (PaymentRequest.pkiType r)
  /\ wellFormedDetails (PaymentRequest.paymentDetails r).

Definition rereadRequest (r : PaymentRequest.t) : PaymentRequest.t :=
  PaymentRequest.mk (PaymentRequest.version r)
    (option_map reread (PaymentRequest.pkiType r))
    (PaymentRequest.pkiData r)
    (rereadDetails (PaymentRequest.paymentDetails r))
    (PaymentRequest.signature r).

(** ** What the reader reads back

    The tags of the messages are between 1 and 7; a header with a tag up to
    15 is one byte. The reader reads a number below [cap] = 2^42 and, as
    [readBytes] asks for a 32-bit size, a buffer shorter than 2^32 bytes. *)

Definition validTag (tag : Z) : Prop := 1 <= tag <= 15.

Definition cap : Z := 2 ^ 42.

Definition goodNumber (v : Z) : Prop := 0 <= v < 2 ^ 42.

Definition goodOptNumber (v : Z) : Prop := v = -1 \/ 0 <= v < 2 ^ 42.

Definition goodBuffer (b : Buffer) : Prop := len b < 2 ^ 32.

Definition validOpt (o : option Buffer) : Prop :=
  match o with
  | Some d => len d < 2 ^ 32
  | None => True
  end.

(** [startsWith rest t]: [rest] is empty and [t] is 0, or [rest] starts
    with a field of tag [t] that the reader reads. *)
Inductive startsWith : Buffer -> Z -> Prop :=
| startsNil : startsWith [] 0
| startsBytes (tag : Z) (d rest : Buffer) :
    validTag tag -> len d < 2 ^ 32 ->
    startsWith (encBytes tag d ++ rest) tag
| startsVarint (tag v : Z) (rest : Buffer) :
    validTag tag -> 0 <= v < 2 ^ 42 ->
    startsWith (encVarint tag v ++ rest) tag.

(** [startsFrom lo rest]: [rest] is empty or starts with a field of a tag
    from [lo] on. *)
Definition startsFrom (lo : Z) (rest : Buffer) : Prop :=
  exists t, startsWith rest t /\ (t = 0 \/ lo <= t).

Definition goodOutput (o : Output) : Prop :=
  goodNumber (value o) /\ validOpt (script o)
  /\ len (encOutputBody o) < 2 ^ 32.

Definition goodDetails (d : PaymentDetails.t) : Prop :=
  validOpt (optUtf8 (PaymentDetails.network d))
  /\ Forall goodOutput (PaymentDetails.outputs d)
  /\ goodNumber (PaymentDetails.time d)
  /\ goodOptNumber (PaymentDetails.expires d)
  /\ validOpt (optUtf8 (PaymentDetails.memo d))
  /\ validOpt (optUtf8 (PaymentDetails.paymentUrl d))
  /\ validOpt (PaymentDetails.merchantData d).

Definition goodPayment (p : Payment.t) : Prop :=
  validOpt (Payment.merchantData p)
  /\ Forall goodBuffer (Payment.transactions p)
  /\ Forall goodOutput (Payment.refundTo p)
  /\ validOpt (optUtf8 (Payment.memo p)).

(** The numbers of a message are below the cap of the reader. *)
Definition outputsBelowCap (outputs : list Output) : Prop :=
  Forall (fun o => value o < cap) outputs.

Definition detailsBelowCap (d : PaymentDetails.t) : Prop :=
  PaymentDetails.time d < cap
  /\ PaymentDetails.expires d < cap
  /\ outputsBelowCap (PaymentDetails.outputs d).

(** ** Values of the examples *)

(** The seven groups of 2^42. *)
Definition sevenGroups : Buffer :=
  [Byte.x80; Byte.x80; Byte.x80; Byte.x80; Byte.x80; Byte.x80; Byte.x01].

(** Payment details with an output of 2^42, and what [toRaw] writes for
    them. *)
Definition largeOutputDetails : PaymentDetails.t :=
  PaymentDetails.mk None [mkOutput (2 ^ 42) (Some [])] 1000 (-1)
    None None None.

Definition largeOutputRaw : Buffer :=
  [Byte.x12; Byte.x0a; Byte.x08; Byte.x80; Byte.x80; Byte.x80; Byte.x80;
   Byte.x80; Byte.x80; Byte.x01; Byte.x12; Byte.x00; Byte.x18; Byte.xe8;
   Byte.x07].

(** A request with a supported [pkiType], a signature, and a [pkiData]
    that is the header of tag 1 with the end-group wire type. *)
Definition endGroupRequest : PaymentRequest.t :=
  PaymentRequest.mk (-1) (Some "x509+sha256"%string) (Some [Byte.x0c])
    (PaymentDetails.mk None [] 1000 (-1) None None None) (Some [Byte.x00]).

(** The same with a [pkiData] that is the header of tag 1 with the
    start-group wire type. *)
Definition startGroupRequest : PaymentRequest.t :=
  PaymentRequest.mk (-1) (Some "x509+sha256"%string) (Some [Byte.x0b])
    (PaymentDetails.mk None [] 1000 (-1) None None None) (Some [Byte.x00]).

(** A signed request, and its serialization without the signature. *)
Definition signedRequest : PaymentRequest.t :=
  PaymentRequest.mk 1 (Some "x509+sha256"%string) None
    (PaymentDetails.mk (Some "testnet"%string) [mkOutput 10000 (Some [])]
       1000 2000 None None None)
    (Some [Byte.x01; Byte.x02]).

Definition unsignedRaw : Buffer :=
  Eval vm_compute in
    match PaymentRequest.toRaw
            (PaymentRequest.setSignature signedRequest None) with
    | Ok raw => raw
    | _ => []
    end.

(** ** What the reader answers on any bytes *)

(** The wire types of the fields that [readField] answers. *)
Definition plainType (ty : Z) : Prop :=
  ty = wireType.VARINT \/ ty = wireType.FIXED64
  \/ ty = wireType.DELIMITED \/ ty = wireType.FIXED32.

(** The cursor after a call: not before the cursor of the call and, from a
    cursor inside the buffer, not past its end. *)
Definition cursorMoved (data : Buffer) (off off' : nat) : Prop :=
  (off <= off')%nat
  /\ ((off <= length data)%nat -> (off' <= length data)%nat).

(** The content of a field by its wire type. *)
Definition fieldContent (f : Field) : Prop :=
  plainType (ftype f)
  /\ fgroup f = None
  /\ (ftype f = wireType.VARINT -> 0 <= fvalue f < 2 ^ 42)
  /\ (ftype f = wireType.FIXED64 -> 0 <= fvalue f < 2 ^ 53)
  /\ (ftype f = wireType.FIXED32 -> 0 <= fvalue f < 2 ^ 32)
  /\ (ftype f = wireType.DELIMITED ->
      fvalue f = 0 /\ exists d, fdata f = Some d /\ len d < 2 ^ 32)
  /\ (ftype f <> wireType.DELIMITED -> fdata f = None).

(** What [readField(tag, opt)] called at [off] answers, with the cursor
    [off'] it leaves. *)
Definition fieldAnswer (data : Buffer) (tag : option Z) (opt : bool)
  (off : nat) (r : result (option Field)) (off' : nat) : Prop :=
  cursorMoved data off off'
  /\ match r with
     | Ok (Some f) =>
         off' = (off + fsize f)%nat
         /\ fieldContent f
         /\ (forall t, tag = Some t -> ftag f = t)
     | Ok None => off' = off /\ opt = true /\ tag <> None
     | _ => True
     end.

(** An output as decoding answers it: the value is a number that was
    read, or -1. *)
Definition decodedOutput (o : Output) : Prop := -1 <= value o < 2 ^ 53.

(** ** Options *)

(** An output that the loops of [fromOptions] accept. *)
Definition acceptedOutput (o : Output) : Prop :=
  0 <= value o <= 2 ^ 53 - 1 /\ script o <> None.

(** The list of an option that may be absent. *)
Definition givenList {A} (o : option (list A)) : list A :=
  match o with
  | Some xs => xs
  | None => []
  end.

(** A certificate module for the examples: the signature of a message is
    the key followed by the message, and a signature verifies when the
    message is its end. *)
Definition exampleSignSubject (h : string) (msg key : Buffer)
  (chain : list Buffer) : option Buffer :=
  Some (key ++ msg).

Definition exampleVerifySubject (h : string) (msg : Buffer)
  (sig : option Buffer) (chain : list Buffer) : option bool :=
  match sig with
  | Some sig =>
      Some (if list_eq_dec Byte.byte_eq_dec
                 (skipn (length sig - length msg) sig) msg
            then true else false)
  | None => None
  end.

(** A request that is not signed and names no [pkiType]. *)
Definition unsignedRequest : PaymentRequest.t :=
  PaymentRequest.setSignature
    (PaymentRequest.setPkiType signedRequest None) None.

(** * Properties *)

Import Byte.
Import PaymentRequest.

Arguments toStringUtf8 : simpl never.

(** ** Bytes and the 32-bit operators *)

Lemma byteZ_range (b : Byte.byte) : 0 <= byteZ b < 256.
Proof.
  unfold byteZ. pose proof (Byte.to_N_bounded b). lia.
Qed.

Lemma ToInt32_small (x : Z) : 0 <= x < 2 ^ 31 -> JS.ToInt32 x = x.
Proof.
  intros H. unfold JS.ToInt32.
  rewrite Z.mod_small by lia.
  destruct (x <? 2 ^ 31) eqn:E; [reflexivity | apply Z.ltb_ge in E; lia].
Qed.

Lemma ToUint32_small (x : Z) : 0 <= x < 2 ^ 32 -> JS.ToUint32 x = x.
Proof. intros H. unfold JS.ToUint32. apply Z.mod_small; lia. Qed.

Lemma land_127 (x : Z) : Z.land x 0x7f = x mod 128.
Proof. change 0x7f with (Z.ones 7). rewrite Z.land_ones by lia. reflexivity. Qed.

Lemma band_127 (b : Byte.byte) : JS.band (byteZ b) 0x7f = byteZ b mod 128.
Proof.
  pose proof (byteZ_range b). unfold JS.band.
  rewrite !ToInt32_small by lia. apply land_127.
Qed.

Lemma band_128 (b : Byte.byte) : JS.band (byteZ b) 0x80 = Z.land (byteZ b) 0x80.
Proof.
  pose proof (byteZ_range b). unfold JS.band.
  rewrite !ToInt32_small by lia. reflexivity.
Qed.

Lemma shl_small (x k : Z) :
  0 <= x < 128 -> 0 <= k <= 3 -> JS.shl x (7 * k) = x * 2 ^ (7 * k).
Proof.
  intros Hx Hk. unfold JS.shl.
  rewrite (ToInt32_small x) by lia.
  rewrite (ToUint32_small (7 * k)) by lia.
  rewrite (Z.mod_small (7 * k)) by lia.
  rewrite Z.shiftl_mul_pow2 by lia.
  apply ToInt32_small.
  assert (2 ^ (7 * k) <= 2 ^ 21) by (apply Z.pow_le_mono_r; lia).
  assert (0 < 2 ^ (7 * k)) by (apply Z.pow_pos_nonneg; lia).
  nia.
Qed.

Lemma groupTerm_eq (size : nat) (b : Byte.byte) :
  groupTerm size (byteZ b) = byteZ b mod 128 * 2 ^ (7 * Z.of_nat size).
Proof.
  pose proof (byteZ_range b) as Hb.
  assert (0 <= byteZ b mod 128 < 128) as Hm by (apply Z.mod_pos_bound; lia).
  unfold groupTerm.
  destruct size as [|[|[|[|[|n]]]]]; rewrite band_127;
    try (apply shl_small; lia); try reflexivity.
Qed.

Lemma readVarintLoop_step (b : Byte.byte) (rest : Buffer) (num : Z) (size : nat) :
  readVarintLoop (b :: rest) num size =
  assert (Z.of_nat (S size) <? 7) "Number exceeds 2^53-1."
    (if Z.land (byteZ b) 0x80 =? 0
     then Ok (mkVarint (S size) (num + byteZ b mod 128 * 2 ^ (7 * Z.of_nat size)))
     else readVarintLoop rest (num + byteZ b mod 128 * 2 ^ (7 * Z.of_nat size)) (S size)).
Proof.
  rewrite <- groupTerm_eq, <- band_128.
  destruct size as [|[|[|[|[|n]]]]]; reflexivity.
Qed.

Lemma isVarint_cons (b : Byte.byte) (bs : Buffer) :
  isVarint (b :: bs) =
  match bs with
  | [] => negb (continues b)
  | _ => continues b && isVarint bs
  end.
Proof. destruct bs; reflexivity. Qed.

Lemma continues_land (b : Byte.byte) :
  (Z.land (byteZ b) 0x80 =? 0) = negb (continues b).
Proof. unfold continues. now rewrite negb_involutive. Qed.

(** A well-formed encoding that ends within six groups is read whole. *)
Lemma readVarintLoop_wellformed (bs rest : Buffer) :
  forall (num : Z) (size : nat),
    isVarint bs = true ->
    (size + length bs <= 6)%nat ->
    readVarintLoop (bs ++ rest) num size =
    Ok (mkVarint (size + length bs)
          (num + 2 ^ (7 * Z.of_nat size) * varintValue bs)).
Proof.
  induction bs as [|b bs IH]; intros num size Hwf Hlen.
  - discriminate.
  - cbn [app length] in *. rewrite readVarintLoop_step.
    unfold assert.
    replace (Z.of_nat (S size) <? 7) with true
      by (symmetry; apply Z.ltb_lt; lia).
    rewrite continues_land. rewrite isVarint_cons in Hwf.
    cbn [varintValue]. rewrite land_127.
    destruct bs as [|b' bs'].
    + rewrite Hwf. cbn [length varintValue]. f_equal. f_equal; [lia|].
      lia.
    + apply andb_prop in Hwf as [Hc Hwf]. rewrite Hc. cbn [negb].
      rewrite IH by (trivial; cbn [length] in *; lia).
      f_equal. f_equal; [cbn [length]; lia|].
      replace (7 * Z.of_nat (S size)) with (7 * Z.of_nat size + 7) by lia.
      rewrite Z.pow_add_r by lia. change (2 ^ 7) with 128. ring.
Qed.

(** A buffer that ends on a continuation bit within six groups: the loop
    breaks with [num = 0]. *)
Lemma readVarintLoop_truncated (bs : Buffer) :
  forall (num : Z) (size : nat),
    forallb continues bs = true ->
    (size + length bs <= 6)%nat ->
    readVarintLoop bs num size = Ok (mkVarint (size + length bs) 0).
Proof.
  induction bs as [|b bs IH]; intros num size Hc Hlen.
  - cbn. now rewrite Nat.add_0_r.
  - cbn [forallb length] in *. apply andb_prop in Hc as [Hb Hc].
    rewrite readVarintLoop_step. unfold assert.
    replace (Z.of_nat (S size) <? 7) with true
      by (symmetry; apply Z.ltb_lt; lia).
    rewrite continues_land, Hb. cbn [negb].
    rewrite IH by (trivial; lia). f_equal. f_equal. lia.
Qed.

(** Seven groups are never read: the assertion fails on the seventh. *)
Lemma readVarintLoop_capped (bs : Buffer) :
  forall (rest : Buffer) (b : Byte.byte) (num : Z) (size : nat),
    forallb continues bs = true ->
    (size + length bs = 6)%nat ->
    readVarintLoop (bs ++ b :: rest) num size =
    Throw (AssertionError "Number exceeds 2^53-1.").
Proof.
  induction bs as [|b0 bs IH]; intros rest b num size Hc Hlen.
  - cbn [app length] in *. rewrite readVarintLoop_step. unfold assert.
    replace (Z.of_nat (S size) <? 7) with false
      by (symmetry; apply Z.ltb_ge; lia).
    reflexivity.
  - cbn [forallb length app] in *. apply andb_prop in Hc as [Hb Hc].
    rewrite readVarintLoop_step. unfold assert.
    replace (Z.of_nat (S size) <? 7) with true
      by (symmetry; apply Z.ltb_lt; lia).
    rewrite continues_land, Hb. cbn [negb].
    apply IH; [trivial | lia].
Qed.

Lemma skipn_app_length {A} (pre rest : list A) :
  skipn (length pre) (pre ++ rest) = rest.
Proof. induction pre; cbn; auto. Qed.

Lemma isVarint_prefix (bs : Buffer) (n : nat) :
  isVarint bs = true -> (n < length bs)%nat ->
  forallb continues (firstn n bs) = true.
Proof.
  revert n. induction bs as [|b bs IH]; intros n Hwf Hn; [discriminate|].
  destruct n as [|n]; [reflexivity|].
  rewrite isVarint_cons in Hwf. cbn [length] in Hn.
  destruct bs as [|b' bs']; [cbn in Hn; lia|].
  apply andb_prop in Hwf as [Hc Hwf].
  cbn [firstn forallb]. rewrite Hc. cbn [andb].
  apply IH; [trivial | lia].
Qed.

Lemma readVarint_run (data : Buffer) (off : nat) :
  readVarint data off =
  match _readVarint data off with
  | Ok v => (Ok (vvalue v), (off + vsize v)%nat)
  | Throw e => (Throw e, off)
  | OutOfFuel => (OutOfFuel, off)
  end.
Proof.
  unfold readVarint, bind, get, liftResult, put, ret.
  destruct (_readVarint data off); reflexivity.
Qed.

Lemma varintValue_bound (bs : Buffer) :
  0 <= varintValue bs < 2 ^ (7 * Z.of_nat (length bs)).
Proof.
  induction bs as [|b bs IH]; [cbn; lia|].
  cbn [varintValue length]. rewrite land_127.
  pose proof (Z.mod_pos_bound (byteZ b) 128 ltac:(lia)).
  replace (7 * Z.of_nat (S (length bs))) with (7 * Z.of_nat (length bs) + 7) by lia.
  rewrite Z.pow_add_r by lia. change (2 ^ 7) with 128. lia.
Qed.

(** What [readVarint] reads and what it refuses beyond the nine groups of
    the specification: it succeeds on every well-formed varint encoding of
    up to six base-128 groups, answering the encoded value, which is below
    2^42, and advancing the cursor by the number of groups; it fails with
    the assertion error of [_readVarint], the cursor unmoved, on every
    well-formed encoding of more than nine groups. *)
Theorem readVarint_six_groups_and_cap :
  (forall (pre bs post : Buffer),
      isVarint bs = true ->
      (length bs <= 6)%nat ->
      readVarint (pre ++ bs ++ post) (length pre) =
      (Ok (varintValue bs), (length pre + length bs)%nat)
      /\ 0 <= varintValue bs < 2 ^ 42)
  /\
  (forall (pre bs post : Buffer),
      isVarint bs = true ->
      (9 < length bs)%nat ->
      readVarint (pre ++ bs ++ post) (length pre) =
      (Throw (AssertionError "Number exceeds 2^53-1."), length pre)).
Proof.
  split; intros pre bs post Hwf Hlen.
  - split.
    + rewrite readVarint_run. unfold _readVarint.
      rewrite skipn_app_length, readVarintLoop_wellformed by (trivial; lia).
      cbn [vvalue vsize].
      replace (2 ^ (7 * Z.of_nat 0)) with 1 by reflexivity.
      rewrite Z.add_0_l, Z.mul_1_l. reflexivity.
    + pose proof (varintValue_bound bs) as Hb.
      assert (2 ^ (7 * Z.of_nat (length bs)) <= 2 ^ 42)
        by (apply Z.pow_le_mono_r; lia).
      lia.
  - rewrite readVarint_run. unfold _readVarint. rewrite skipn_app_length.
    rewrite <- (firstn_skipn 6 bs), <- app_assoc.
    destruct (skipn 6 bs) as [|b tl] eqn:Etl.
    + apply (f_equal (@length _)) in Etl. rewrite length_skipn in Etl.
      cbn in Etl. lia.
    + cbn [app]. rewrite readVarintLoop_capped; trivial.
      * apply isVarint_prefix; [trivial | lia].
      * rewrite length_firstn. lia.
Qed.

(** The seven groups of 2^42 are a well-formed encoding of no more than
    nine groups, and [readVarint] fails on them. *)
Lemma readVarint_seven_groups_rejected :
  isVarint sevenGroups = true
  /\ (length sevenGroups <= 9)%nat
  /\ varintValue sevenGroups = 2 ^ 42
  /\ readVarint sevenGroups 0%nat =
     (Throw (AssertionError "Number exceeds 2^53-1."), 0%nat).
Proof. repeat split. cbn. lia. Qed.

(** The cap is at six groups whatever follows: with six continuation
    groups read and a seventh byte in the buffer, the assertion fails. *)
Lemma readVarint_seventh_group_fails (pre six rest : Buffer) (b : Byte.byte) :
  forallb continues six = true ->
  length six = 6%nat ->
  readVarint (pre ++ six ++ b :: rest) (length pre) =
  (Throw (AssertionError "Number exceeds 2^53-1."), length pre).
Proof.
  intros Hc Hlen. rewrite readVarint_run. unfold _readVarint.
  rewrite skipn_app_length, readVarintLoop_capped; trivial.
Qed.

Lemma readVarint_six_groups_and_cap_witness :
  readVarint [x0a; xac; x02; xff] 1%nat = (Ok 300, 3%nat).
Proof.
  exact (proj1 (proj1 readVarint_six_groups_and_cap [x0a] [xac; x02] [xff]
                  eq_refl (le_S _ _ (le_S _ _ (le_S _ _ (le_S _ _ (le_n 2))))))).
Defined.

(** Claim C4: a defect of the code. The guard of [_readVarint] is
    [assert(size < 7, 'Number exceeds 2^53-1.')]: every well-formed
    encoding of seven, eight or nine groups is refused with that message,
    where the claim has [readVarint] succeed on up to nine groups. The
    seven groups of 2^42 are such an encoding, and 2^42 does not exceed
    2^53 - 1. *)
Theorem readVarint_refuses_seven_to_nine_groups :
  (forall (pre bs post : Buffer),
      isVarint bs = true ->
      (7 <= length bs <= 9)%nat ->
      readVarint (pre ++ bs ++ post) (length pre) =
      (Throw (AssertionError "Number exceeds 2^53-1."), length pre))
  /\ isVarint sevenGroups = true
  /\ length sevenGroups = 7%nat
  /\ varintValue sevenGroups = 2 ^ 42
  /\ 2 ^ 42 <= 2 ^ 53 - 1
  /\ readVarint sevenGroups 0%nat =
     (Throw (AssertionError "Number exceeds 2^53-1."), 0%nat).
Proof.
  split.
  - intros pre bs post Hwf Hlen.
    rewrite readVarint_run. unfold _readVarint. rewrite skipn_app_length.
    rewrite <- (firstn_skipn 6 bs), <- app_assoc.
    destruct (skipn 6 bs) as [|b tl] eqn:Etl.
    + apply (f_equal (@length _)) in Etl. rewrite length_skipn in Etl.
      cbn in Etl. lia.
    + cbn [app]. rewrite readVarintLoop_capped; trivial.
      * apply isVarint_prefix; [trivial | lia].
      * rewrite length_firstn. lia.
  - repeat split. cbn. lia.
Qed.

(** Claim C5, amended. On a buffer that ends in the middle of a varint
    (every byte from the cursor to the end has the continuation bit, the
    cursor at or past the end included) within six groups, [readVarint]
    raises nothing: it answers zero and moves the cursor over the bytes that
    were there. *)
Theorem readVarint_truncated_is_zero (data : Buffer) (off : nat) :
  forallb continues (skipn off data) = true ->
  (length data - off <= 6)%nat ->
  readVarint data off = (Ok 0, (off + (length data - off))%nat).
Proof.
  intros Hc Hlen. rewrite readVarint_run. unfold _readVarint.
  rewrite readVarintLoop_truncated by (trivial; rewrite length_skipn; lia).
  cbn [vvalue vsize]. rewrite length_skipn. reflexivity.
Qed.

Lemma readVarint_truncated_is_zero_witness :
  readVarint [x08; x80; xff] 1%nat = (Ok 0, 3%nat).
Proof.
  exact (readVarint_truncated_is_zero [x08; x80; xff] 1%nat eq_refl
           (le_S _ _ (le_S _ _ (le_S _ _ (le_S _ _ (le_n 2)))))).
Defined.

(** Claim C5 as stated fails: a buffer that ends on a continuation bit,
    and the empty buffer, are read as zero. *)
Lemma readVarint_truncated_no_failure :
  forallb continues [x80] = true /\
  readVarint [x80] 0%nat = (Ok 0, 1%nat) /\
  readVarint [] 0%nat = (Ok 0, 0%nat).
Proof. repeat split. Qed.

(** Claim C8, amended. When the header at the cursor decodes and its tag
    differs from the expected tag, [readField] with the optional flag set
    answers [null] and leaves the cursor where it was; with the flag unset it
    fails with the assertion error "Non-optional field not present." and the
    cursor stays behind the header it read. *)
Theorem readField_tag_mismatch (data : Buffer) (fuel : nat) (tag : Z)
  (opt : bool) (off : nat) (v : Varint) :
  _readVarint data off = Ok v ->
  ftag (newField (vvalue v)) <> tag ->
  readField data fuel (Some tag) opt off =
  if opt
  then (Ok None, off)
  else (Throw (AssertionError "Non-optional field not present."),
        (off + vsize v)%nat).
Proof.
  intros Hv Hne.
  destruct fuel; cbn [readField]; unfold bind at 1; cbn [get];
    unfold bind at 1; rewrite readVarint_run, Hv;
    apply Z.eqb_neq in Hne; rewrite Hne; cbn [negb];
    destruct opt; reflexivity.
Qed.

Lemma readField_tag_mismatch_witness :
  readField [x08; x01] 1 (Some 2) true 0%nat = (Ok None, 0%nat).
Proof.
  refine (readField_tag_mismatch [x08; x01] 1%nat 2 true 0%nat (mkVarint 1 8) eq_refl _).
  discriminate.
Defined.

(** Claim C8 as stated fails: on a required field whose tag differs, the
    cursor is not restored. *)
Lemma readField_required_mismatch_moves_cursor :
  _readVarint [x08; x01] 0%nat = Ok (mkVarint 1 8) /\
  ftag (newField 8) = 1 /\
  readField [x08; x01] 1 (Some 2) false 0%nat =
  (Throw (AssertionError "Non-optional field not present."), 1%nat).
Proof. repeat split. Qed.

(** ** Algorithm resolution *)

Lemma split_not_nil (sep : ascii) (s : string) : split sep s <> [].
Proof.
  destruct s as [|c s]; cbn; [discriminate|].
  destruct (Ascii.eqb c sep); [discriminate|].
  destruct (split sep s); discriminate.
Qed.

(** Joining the parts with the separator gives the string back. *)
Lemma concat_split (sep : ascii) (s : string) :
  String.concat (String sep EmptyString) (split sep s) = s.
Proof.
  induction s as [|c s IH]; [reflexivity|].
  cbn [split]. destruct (Ascii.eqb c sep) eqn:E.
  - apply Ascii.eqb_eq in E. subst c.
    pose proof (split_not_nil sep s) as Hne.
    destruct (split sep s) as [|p ps]; [contradiction|].
    change (String.concat (String sep "") ("" :: p :: ps)%string)
      with (String sep (String.concat (String sep "") (p :: ps))).
    now rewrite IH.
  - pose proof (split_not_nil sep s) as Hne.
    destruct (split sep s) as [|p ps]; [contradiction|].
    rewrite <- IH. destruct ps; reflexivity.
Qed.

Lemma split_two (s a b : string) :
  split "+" s = [a; b] -> s = (a ++ "+" ++ b)%string.
Proof.
  intros H. rewrite <- (concat_split "+" s), H. reflexivity.
Qed.

Lemma getAlgorithm_Ok_inv (this : PaymentRequest.t) (alg : Algorithm) :
  getAlgorithm this = Ok alg ->
  (pkiType this = Some "x509+sha1"%string /\ alg = mkAlgorithm "x509" "sha1")
  \/ (pkiType this = Some "x509+sha256"%string
      /\ alg = mkAlgorithm "x509" "sha256").
Proof.
  unfold getAlgorithm.
  destruct (pkiType this) as [s|]; [|discriminate].
  destruct (falsy (Some s)); [discriminate|].
  destruct (split "+" s) as [|a [|b [|c l]]] eqn:Hsp; try discriminate.
  cbn [length Nat.eqb negb nth].
  destruct (String.eqb a "x509") eqn:Ea; [|discriminate].
  apply String.eqb_eq in Ea. subst a. cbn [negb].
  apply split_two in Hsp. subst s.
  destruct (String.eqb b "sha1") eqn:E1.
  - apply String.eqb_eq in E1. subst b. intros [= <-]. left. split; reflexivity.
  - destruct (String.eqb b "sha256") eqn:E2; [|discriminate].
    apply String.eqb_eq in E2. subst b. intros [= <-]. right. split; reflexivity.
Qed.

(** Claim C7. [getAlgorithm] splits [pkiType] on '+'. It fails when
    [pkiType] is absent or empty, when the parts are not exactly two, when
    the first part is not "x509", and when the second is neither "sha1" nor
    "sha256"; it answers an algorithm exactly for "x509+sha1" and
    "x509+sha256", and then the pair of the two parts. *)
Theorem getAlgorithm_resolution (this : PaymentRequest.t) :
  (falsy (pkiType this) = true ->
   getAlgorithm this = Throw (Error "No PKI type available."))
  /\
  (forall s, pkiType this = Some s -> s <> EmptyString ->
     length (split "+" s) <> 2%nat ->
     getAlgorithm this = Throw (Error "Could not parse PKI algorithm."))
  /\
  (forall s a b, pkiType this = Some s -> split "+" s = [a; b] ->
     a <> "x509"%string ->
     getAlgorithm this = Throw (Error ("Unknown PKI type: " ++ a ++ ".")))
  /\
  (forall s b, pkiType this = Some s -> split "+" s = ["x509"%string; b] ->
     b <> "sha1"%string -> b <> "sha256"%string ->
     getAlgorithm this = Throw (Error ("Unknown hash algorithm: " ++ b ++ ".")))
  /\
  (forall alg, getAlgorithm this = Ok alg <->
     (pkiType this = Some "x509+sha1"%string /\ alg = mkAlgorithm "x509" "sha1")
     \/ (pkiType this = Some "x509+sha256"%string
         /\ alg = mkAlgorithm "x509" "sha256")).
Proof.
  unfold getAlgorithm.
  split; [|split; [|split; [|split]]].
  - intros ->. reflexivity.
  - intros s -> Hs Hlen. destruct s; [contradiction|]. cbn [falsy].
    apply Nat.eqb_neq in Hlen. now rewrite Hlen.
  - intros s a b -> Hsp Ha.
    assert (s <> EmptyString) by (intros ->; discriminate).
    destruct s; [contradiction|]. cbn [falsy]. rewrite Hsp. cbn [length Nat.eqb negb nth].
    apply String.eqb_neq in Ha. now rewrite Ha.
  - intros s b -> Hsp Hb1 Hb2.
    assert (s <> EmptyString) by (intros ->; discriminate).
    destruct s; [contradiction|]. cbn [falsy]. rewrite Hsp. cbn [length Nat.eqb negb nth].
    apply String.eqb_neq in Hb1, Hb2. rewrite Hb1, Hb2. reflexivity.
  - intros alg. split.
    + fold (getAlgorithm this). apply getAlgorithm_Ok_inv.
    + intros [[-> ->]|[-> ->]]; reflexivity.
Qed.

Lemma getAlgorithm_resolution_witness :
  getAlgorithm (mk 1 (Some "x509+md5"%string) None (PaymentDetails.create 0) None)
  = Throw (Error "Unknown hash algorithm: md5.").
Proof.
  refine (proj1 (proj2 (proj2 (proj2 (getAlgorithm_resolution
            (mk 1 (Some "x509+md5"%string) None (PaymentDetails.create 0) None)))))
            "x509+md5"%string "md5"%string eq_refl eq_refl _ _); discriminate.
Defined.

(** ** Expiry *)

(** Claim C9. [isExpired] answers [false] when [expires] is the sentinel
    -1; otherwise it answers [true] exactly when the clock, in seconds, is
    greater than [expires]. [now] is the clock in milliseconds. *)
Theorem isExpired_spec (now : Z) (this : PaymentDetails.t) :
  (PaymentDetails.expires this = -1 ->
   PaymentDetails.isExpired now this = false)
  /\
  (PaymentDetails.expires this <> -1 ->
   (PaymentDetails.isExpired now this = true <->
    now / 1000 > PaymentDetails.expires this)).
Proof.
  unfold PaymentDetails.isExpired. split.
  - intros ->. reflexivity.
  - intros H. apply Z.eqb_neq in H. rewrite H. rewrite Z.ltb_lt. lia.
Qed.

Lemma isExpired_spec_witness :
  PaymentDetails.isExpired 2001000
    (PaymentDetails.mk None [] 1000 2000 None None None) = true.
Proof.
  refine (proj2 (proj2 (isExpired_spec 2001000
            (PaymentDetails.mk None [] 1000 2000 None None None)) _) _).
  - discriminate.
  - reflexivity.
Defined.

(** ** Merchant data *)

Lemma getDataOf_json (J : Type) (parse : string -> option J)
  (toString : Buffer -> string -> option string) (md : option Buffer) :
  let r := PaymentDetails.getDataOf J parse toString md (Some "json"%string) in
  (exists v, r = Ok v)
  /\ (md = None -> r = Ok PaymentDetails.DNull)
  /\ (forall b, md = Some b -> parse (toStringUtf8 b) = None ->
        r = Ok PaymentDetails.DNull)
  /\ (forall j, r = Ok (PaymentDetails.DJson j) <->
        exists b, md = Some b /\ parse (toStringUtf8 b) = Some j).
Proof.
  cbv zeta. unfold PaymentDetails.getDataOf.
  destruct md as [b|]; cbn.
  - destruct (parse (toStringUtf8 b)) as [j|] eqn:E.
    + repeat split; eauto; try discriminate.
      * intros b' [= <-]. rewrite E. discriminate.
      * intros [= <-]. eauto.
      * intros (b' & [= <-] & H). congruence.
    + repeat split; eauto; try discriminate.
      intros (b' & [= <-] & H). congruence.
  - repeat split; eauto; try discriminate.
    intros (b' & H & _). discriminate.
Qed.

(** Claim C10. On a [PaymentDetails] and on a [Payment], [getData('json')]
    never raises: it answers [null] when [merchantData] is absent, [null]
    when [JSON.parse] throws on the stored bytes, and a parsed document only
    when [JSON.parse] answered it. *)
Theorem getData_json_total (J : Type) (parse : string -> option J)
  (toString : Buffer -> string -> option string) :
  (forall this : PaymentDetails.t,
     let r := PaymentDetails.getData J parse toString this (Some "json"%string) in
     (exists v, r = Ok v)
     /\ (PaymentDetails.merchantData this = None -> r = Ok PaymentDetails.DNull)
     /\ (forall b, PaymentDetails.merchantData this = Some b ->
           parse (toStringUtf8 b) = None -> r = Ok PaymentDetails.DNull)
     /\ (forall j, r = Ok (PaymentDetails.DJson j) <->
           exists b, PaymentDetails.merchantData this = Some b
                     /\ parse (toStringUtf8 b) = Some j))
  /\
  (forall this : Payment.t,
     let r := Payment.getData J parse toString this (Some "json"%string) in
     (exists v, r = Ok v)
     /\ (Payment.merchantData this = None -> r = Ok PaymentDetails.DNull)
     /\ (forall b, Payment.merchantData this = Some b ->
           parse (toStringUtf8 b) = None -> r = Ok PaymentDetails.DNull)
     /\ (forall j, r = Ok (PaymentDetails.DJson j) <->
           exists b, Payment.merchantData this = Some b
                     /\ parse (toStringUtf8 b) = Some j)).
Proof.
  split; intros this; apply getDataOf_json.
Qed.

Lemma getData_json_total_witness :
  PaymentDetails.getData unit (fun _ => None) (fun _ _ => None)
    (PaymentDetails.mk None [] 1000 (-1) None None (Some [x7b]))
    (Some "json"%string) = Ok PaymentDetails.DNull.
Proof.
  exact (proj1 (proj2 (proj2 (proj1
           (getData_json_total unit (fun _ => None) (fun _ _ => None))
           (PaymentDetails.mk None [] 1000 (-1) None None (Some [x7b])))))
           [x7b] eq_refl eq_refl).
Defined.

(** ** The signed bytes *)

Lemma setSignature_same (this : PaymentRequest.t) :
  setSignature this (signature this) = this.
Proof. destruct this; reflexivity. Qed.

Lemma signatureData_run (this : PaymentRequest.t) :
  signatureData this =
  match toRaw (setSignature this (Some [])) with
  | Ok data => (Ok data, this)
  | Throw e => (Throw e, setSignature this (Some []))
  | OutOfFuel => (OutOfFuel, setSignature this (Some []))
  end.
Proof.
  unfold signatureData, bind, get, put, liftResult, ret.
  destruct (toRaw (setSignature this (Some []))); try reflexivity.
  destruct this; reflexivity.
Qed.

Lemma writeFieldBytes_empty_5 (bw : Buffer) :
  ProtoWriter.writeFieldBytes 5 [] bw = Ok (bw ++ [x2a; x00]).
Proof.
  cbn. now rewrite app_nil_r, <- app_assoc.
Qed.

Lemma toRaw_empty_signature (this : PaymentRequest.t) (raw : Buffer) :
  toRaw (setSignature this None) = Ok raw ->
  toRaw (setSignature this (Some [])) = Ok (raw ++ [x2a; x00]).
Proof.
  unfold toRaw. cbn [version pkiType pkiData paymentDetails signature setSignature].
  repeat match goal with
         | |- context [bindR ?x _] =>
             lazymatch x with
             | ProtoWriter.writeFieldBytes 5 _ _ => fail
             | _ => destruct x; cbn [bindR]; try discriminate
             end
         end.
  rewrite writeFieldBytes_empty_5. cbn [bindR]. unfold ProtoWriter.render.
  now intros [= ->].
Qed.

(** Claim C1. [signatureData] answers what [toRaw] answers on the
    request with its signature set to the empty buffer: the serialization
    without signature followed by field 5 with length zero. The answer does
    not depend on the signature the request holds, and when [signatureData]
    returns the request is as it was before the call. *)
Theorem signatureData_canonical (this : PaymentRequest.t) :
  fst (signatureData this) = toRaw (setSignature this (Some []))
  /\ (forall raw, toRaw (setSignature this None) = Ok raw ->
        fst (signatureData this) = Ok (raw ++ [x2a; x00]))
  /\ (forall s, fst (signatureData (setSignature this s))
                = fst (signatureData this))
  /\ (forall data this', signatureData this = (Ok data, this') ->
        this' = this).
Proof.
  rewrite !signatureData_run.
  split; [|split; [|split]].
  - destruct (toRaw (setSignature this (Some []))); reflexivity.
  - intros raw H. apply toRaw_empty_signature in H. rewrite H. reflexivity.
  - intros s. rewrite signatureData_run.
    change (setSignature (setSignature this s) (Some []))
      with (setSignature this (Some [])).
    destruct (toRaw (setSignature this (Some []))); reflexivity.
  - intros data this' H.
    destruct (toRaw (setSignature this (Some []))); congruence.
Qed.

Lemma signatureData_canonical_witness :
  fst (signatureData signedRequest) = Ok (unsignedRaw ++ [x2a; x00]).
Proof.
  exact (proj1 (proj2 (signatureData_canonical signedRequest))
           unsignedRaw eq_refl).
Defined.

(** Claim C2 fails on the code. On a request with a supported [pkiType],
    a signature and a [pkiData] that holds an end-group header, [verify]
    raises the assertion error of the reader: [getChain] is called outside
    the two [try] blocks. Whatever the verifier, whatever the budget. *)
Theorem verify_raises_on_end_group
  (verifySubject : string -> Buffer -> option Buffer -> list Buffer -> option bool)
  (fuel : nat) :
  verify verifySubject (S fuel) endGroupRequest =
  (Throw (AssertionError "Unexpected end group."), endGroupRequest).
Proof. reflexivity. Qed.

(** The sibling [verifyChain] answers [false] on the same request. *)
Lemma verifyChain_false_on_end_group
  (x509_verifyChain : list Buffer -> option bool) (fuel : nat) :
  verifyChain x509_verifyChain (S fuel) endGroupRequest =
  (Ok false, endGroupRequest).
Proof. reflexivity. Qed.

Section Verify.

Variable verifySubject :
  string -> Buffer -> option Buffer -> list Buffer -> option bool.
Variable x509_verifyChain : list Buffer -> option bool.

(** The cases in which [verify] answers [false] before it reads the
    chain. *)
Lemma verify_false_early (fuel : nat) (this : PaymentRequest.t) :
  falsy (pkiType this) = true
  \/ pkiType this = Some "none"%string
  \/ signature this = None
  \/ (exists e, getAlgorithm this = Throw e) ->
  verify verifySubject fuel this = (Ok false, this).
Proof.
  unfold verify, bind at 1, get.
  intros [H|[H|[H|[e H]]]].
  - now rewrite H.
  - rewrite H. reflexivity.
  - destruct (falsy (pkiType this) || strictEq (pkiType this) "none");
      [reflexivity|]. now rewrite H.
  - destruct (falsy (pkiType this) || strictEq (pkiType this) "none");
      [reflexivity|].
    destruct (signature this); [|reflexivity].
    unfold bind, tryCatch, liftResult. rewrite H. reflexivity.
Qed.

(** [getChain] leaves the request as it is. *)
Lemma getChain_state (fuel : nat) (this : PaymentRequest.t) :
  snd (getChain fuel this) = this.
Proof.
  unfold getChain, bind, get. destruct (pkiData this); reflexivity.
Qed.

(** When the chain is read, a verifier that throws gives [false]. *)
Lemma verify_false_when_verifier_throws (fuel : nat)
  (this : PaymentRequest.t) (chain : list Buffer) (msg : Buffer) :
  fst (getChain fuel this) = Ok chain ->
  fst (signatureData this) = Ok msg ->
  verifySubject "sha1" msg (signature this) chain = None ->
  verifySubject "sha256" msg (signature this) chain = None ->
  fst (verify verifySubject fuel this) = Ok false.
Proof.
  intros Hc Hm H1 H256.
  assert (signatureData this = (Ok msg, this)) as Hsd.
  { rewrite signatureData_run in *.
    destruct (toRaw (setSignature this (Some []))); try discriminate.
    cbn [fst] in Hm. congruence. }
  assert (getChain fuel this = (Ok chain, this)) as Hgc.
  { pose proof (getChain_state fuel this).
    destruct (getChain fuel this); cbn [fst snd] in *. congruence. }
  unfold verify, bind at 1, get.
  destruct (falsy (pkiType this) || strictEq (pkiType this) "none");
    [reflexivity|].
  destruct (signature this) as [sig|] eqn:Hsig; [|reflexivity].
  unfold bind at 1, tryCatch at 1, bind at 1, liftResult at 1.
  destruct (getAlgorithm this) as [alg| |] eqn:Halg; cbn [ret];
    try reflexivity.
  - apply getAlgorithm_Ok_inv in Halg.
    unfold bind. rewrite Hsd, Hgc, Hsig. unfold tryCatch, external.
    destruct Halg as [[_ ->]|[_ ->]]; cbn [hash].
    + rewrite H1. reflexivity.
    + rewrite H256. reflexivity.
  - exfalso. revert Halg. unfold getAlgorithm.
    repeat match goal with
           | |- context [if ?c then _ else _] => destruct c
           | |- context [match ?c with _ => _ end] => destruct c
           end; discriminate.
Qed.

(** X28. [verifyChain] never raises: it answers a boolean, or its budget
    of iterations is used up. *)
Lemma verifyChain_never_raises (fuel : nat) (this : PaymentRequest.t)
  (e : error) :
  fst (verifyChain x509_verifyChain fuel this) <> Throw e.
Proof.
  unfold verifyChain, bind at 1, get.
  destruct (falsy (pkiType this) || strictEq (pkiType this) "none");
    [discriminate|].
  unfold tryCatch, bind.
  destruct (getChain fuel this) as [[c| |] st]; cbn; try discriminate.
  unfold external. destruct (x509_verifyChain c); discriminate.
Qed.

End Verify.

(** ** The writer's varints *)

Lemma byteZ_byteOf (z : Z) : byteZ (byteOf z) = z mod 256.
Proof.
  unfold byteZ, byteOf.
  pose proof (Z.mod_pos_bound z 256 ltac:(lia)) as Hz.
  destruct (Byte.of_N (Z.to_N (z mod 256))) as [b|] eqn:E.
  - apply Byte.to_of_N in E. rewrite E. lia.
  - apply Byte.of_N_None_iff in E. lia.
Qed.

Lemma continues_lt (b : Byte.byte) : continues b = negb (byteZ b <? 128).
Proof. destruct b; reflexivity. Qed.

Lemma isVarint_not_nil (bs : Buffer) : isVarint bs = true -> bs <> [].
Proof. destruct bs; [discriminate | discriminate]. Qed.

Lemma isVarint_cons_continues (b : Byte.byte) (bs : Buffer) :
  isVarint bs = true -> isVarint (b :: bs) = continues b.
Proof.
  intros H. rewrite isVarint_cons. destruct bs; [discriminate|].
  rewrite H. apply andb_true_r.
Qed.

Lemma varintGroups_spec (k : nat) :
  forall (n : nat) (num : Z),
    (0 < k <= n)%nat -> 0 <= num < 128 ^ Z.of_nat k ->
    isVarint (ProtoWriter.varintGroups n num) = true
    /\ varintValue (ProtoWriter.varintGroups n num) = num
    /\ (length (ProtoWriter.varintGroups n num) <= k)%nat.
Proof.
  induction k as [|k IH]; intros n num Hk Hnum; [lia|].
  destruct n as [|n]; [lia|]. cbn [ProtoWriter.varintGroups].
  destruct (num <? 128) eqn:E.
  - apply Z.ltb_lt in E.
    cbn [isVarint varintValue length].
    rewrite continues_lt, land_127, byteZ_byteOf.
    rewrite (Z.mod_small num 256) by lia.
    rewrite (Z.mod_small num 128) by lia.
    replace (num <? 128) with true by (symmetry; apply Z.ltb_lt; lia).
    repeat split; [lia | lia].
  - apply Z.ltb_ge in E.
    assert (k <> 0%nat) as Hk0.
    { intros ->. change (128 ^ Z.of_nat 1) with 128 in Hnum. lia. }
    assert (0 <= num / 128 < 128 ^ Z.of_nat k) as Hq.
    { split; [apply Z.div_pos; lia|].
      apply Z.div_lt_upper_bound; [lia|].
      replace (Z.of_nat (S k)) with (Z.of_nat k + 1) in Hnum by lia.
      rewrite Z.pow_add_r in Hnum by lia. change (128 ^ 1) with 128 in Hnum.
      lia. }
    destruct (IH n (num / 128) ltac:(lia) Hq) as (Hwf & Hval & Hlen).
    pose proof (Z.mod_pos_bound num 128 ltac:(lia)) as Hm.
    rewrite (isVarint_cons_continues _ _ Hwf).
    cbn [varintValue length]. rewrite Hval.
    rewrite continues_lt, land_127, byteZ_byteOf.
    rewrite (Z.mod_small (num mod 128 + 128) 256) by lia.
    replace (num mod 128 + 128 <? 128) with false
      by (symmetry; apply Z.ltb_ge; lia).
    replace ((num mod 128 + 128) mod 128) with (num mod 128)
      by (rewrite <- Z.add_mod_idemp_r, Z.mod_same, Z.add_0_r, Z.mod_mod by lia;
          reflexivity).
    repeat split; [|lia].
    pose proof (Z.div_mod num 128 ltac:(lia)). lia.
Qed.

(** An integer below 2^42 is written in at most six groups. *)
Lemma encodeVarint_spec (num : Z) :
  0 <= num < 2 ^ 42 ->
  isVarint (ProtoWriter.encodeVarint num) = true
  /\ varintValue (ProtoWriter.encodeVarint num) = num
  /\ (length (ProtoWriter.encodeVarint num) <= 6)%nat.
Proof.
  intros H. apply (varintGroups_spec 6 8 num); [lia|].
  change (128 ^ Z.of_nat 6) with (2 ^ 42). exact H.
Qed.

Lemma encodeVarint_length_pos (num : Z) :
  (0 < length (ProtoWriter.encodeVarint num))%nat.
Proof.
  unfold ProtoWriter.encodeVarint. cbn [ProtoWriter.varintGroups].
  destruct (num <? 128); cbn; lia.
Qed.

Lemma skipn_add {A} (n : nat) (l pre rest : list A) :
  skipn n l = pre ++ rest -> skipn (n + length pre) l = rest.
Proof.
  intros H. rewrite Nat.add_comm, <- skipn_skipn, H.
  apply skipn_app_length.
Qed.

(** Reading back what [writeVarint] wrote. *)
Lemma readVarint_encodeVarint (data : Buffer) (off : nat) (num : Z)
  (rest : Buffer) :
  0 <= num < 2 ^ 42 ->
  skipn off data = ProtoWriter.encodeVarint num ++ rest ->
  readVarint data off =
  (Ok num, (off + length (ProtoWriter.encodeVarint num))%nat).
Proof.
  intros Hnum Hsk. destruct (encodeVarint_spec num Hnum) as (Hwf & Hval & Hlen).
  rewrite readVarint_run. unfold _readVarint. rewrite Hsk.
  rewrite readVarintLoop_wellformed by (trivial; lia).
  cbn [vvalue vsize]. rewrite Hval.
  replace (2 ^ (7 * Z.of_nat 0)) with 1 by reflexivity.
  rewrite Z.add_0_l, Z.mul_1_l. reflexivity.
Qed.

(** ** Stepping through a method *)

Lemma bind_Ok {S A B} (m : M S A) (k : A -> M S B) (s s' : S) (a : A) :
  m s = (Ok a, s') -> bind m k s = k a s'.
Proof. intros H. unfold bind. now rewrite H. Qed.

Lemma bind_Throw {S A B} (m : M S A) (k : A -> M S B) (s s' : S) (e : error) :
  m s = (Throw e, s') -> bind m k s = (Throw e, s').
Proof. intros H. unfold bind. now rewrite H. Qed.

Lemma bindR_Ok {A B} (r : result A) (k : A -> result B) (a : A) :
  r = Ok a -> bindR r k = k a.
Proof. now intros ->. Qed.

(** ** Reading one field *)

Lemma readField_eq (data : Buffer) (fuel : nat) (tag : option Z) (opt : bool) :
  readField data fuel tag opt =
  (offset <- get ;;
   header <- readVarint data ;;
   let field := newField header in
   if match tag with
      | Some t => negb (ftag field =? t)
      | None => false
      end
   then
     _ <- assertM opt "Non-optional field not present." ;;
     _ <- put offset ;;
     ret None
   else
     field <-
       match ftype field with
       | 0 => v <- readVarint data ;; ret (setValue field v)
       | 1 => v <- readU64 data ;; ret (setValue field v)
       | 2 => d <- readVarBytes data ;; ret (setData field d)
       | 3 =>
           match fuel with
           | O => outOfFuel
           | S fuel' =>
               g <-
               (fix loop (n : nat) (group : list Field)
                  : Reader (list Field) :=
                  match n with
                  | O => outOfFuel
                  | S n' =>
                      inner <- readField data fuel' None false ;;
                      match inner with
                      | None =>
                          throw (TypeError "Cannot read properties of null")
                      | Some f =>
                          if ftype f =? wireType.END_GROUP
                          then ret group
                          else loop n' (group ++ [f])
                      end
                  end) fuel' [] ;;
               ret (setGroup field g)
           end
       | 4 => throw (AssertionError "Unexpected end group.")
       | 5 => v <- readU32 data ;; ret (setValue field v)
       | _ => throw (AssertionError "Bad wire type.")
       end ;;
     off' <- get ;;
     ret (Some (setSize field (off' - offset)))).
Proof. destruct fuel; reflexivity. Qed.

Lemma newField_header (tag ty : Z) :
  0 <= tag < 2 ^ 28 -> 0 <= ty < 8 ->
  newField (tag * 8 + ty) = mkField tag ty 0 0 None None.
Proof.
  intros Ht Hy. unfold newField. f_equal.
  - unfold JS.ushr. rewrite !ToUint32_small by lia.
    change (3 mod 32) with 3. rewrite Z.shiftr_div_pow2 by lia.
    change (2 ^ 3) with 8. rewrite Z.div_add_l by lia.
    rewrite Z.div_small by lia. lia.
  - unfold JS.band. rewrite !ToInt32_small by lia.
    change 7 with (Z.ones 3). rewrite Z.land_ones by lia.
    change (2 ^ 3) with 8. rewrite Z.add_comm, Z.mod_add by lia.
    apply Z.mod_small; lia.
Qed.

Lemma skipn_length_eq {A} (n : nat) (l p r : list A) :
  skipn n l = p ++ r -> (0 < length p)%nat ->
  (n + length p + length r = length l)%nat.
Proof.
  intros H Hp. apply (f_equal (@length A)) in H.
  rewrite length_skipn, length_app in H. lia.
Qed.

Lemma firstn_app_length {A} (p r : list A) : firstn (length p) (p ++ r) = p.
Proof. induction p; cbn; congruence. Qed.

Lemma ushr_0 (n : Z) : 0 <= n < 2 ^ 32 -> JS.ushr n 0 = n.
Proof.
  intros H. unfold JS.ushr. rewrite !ToUint32_small by lia. apply Z.shiftr_0_r.
Qed.

Lemma header_bound (tag ty : Z) :
  validTag tag -> 0 <= ty < 8 -> 0 <= tag * 8 + ty < 2 ^ 42.
Proof. unfold validTag. lia. Qed.

Lemma readBytes_ok (data : Buffer) (off : nat) (d rest : Buffer) :
  len d < 2 ^ 32 ->
  (off + length d <= length data)%nat ->
  skipn off data = d ++ rest ->
  readBytes data (len d) off = (Ok d, (off + length d)%nat).
Proof.
  intros Hd Hlen Hsk. unfold readBytes.
  rewrite ushr_0 by (unfold len in *; lia).
  rewrite Z.eqb_refl. cbn [negb].
  unfold len. rewrite Nat2Z.id.
  unfold check, bind, get, ret, throw, put.
  replace (length data <? off + length d)%nat
    with false by (symmetry; apply Nat.ltb_ge; lia).
  rewrite Hsk, firstn_app_length. reflexivity.
Qed.

(** A length-delimited field, as [encBytes] lays it out, is read whole. *)
Lemma readField_encBytes (data : Buffer) (fuel : nat) (expected : option Z)
  (opt : bool) (off : nat) (tag : Z) (d rest : Buffer) :
  validTag tag -> len d < 2 ^ 32 ->
  expected = None \/ expected = Some tag ->
  skipn off data = encBytes tag d ++ rest ->
  readField data fuel expected opt off =
  (Ok (Some (mkField tag wireType.DELIMITED (length (encBytes tag d)) 0
               (Some d) None)),
   (off + length (encBytes tag d))%nat).
Proof.
  intros Ht Hd Hexp Hsk. unfold encBytes in *.
  pose proof (encodeVarint_length_pos (tag * 8 + wireType.DELIMITED)) as Hh.
  assert (0 <= len d < 2 ^ 42) as Hd' by (unfold len in *; lia).
  assert (off + length (header tag wireType.DELIMITED
                         ++ ProtoWriter.encodeVarint (len d) ++ d)
          + length rest = length data)%nat as Hlen.
  { apply skipn_length_eq; [trivial|]. rewrite length_app.
    unfold header. lia. }
  rewrite !length_app in *. unfold header in *.
  set (h := ProtoWriter.encodeVarint (tag * 8 + wireType.DELIMITED)) in *.
  set (l := ProtoWriter.encodeVarint (len d)) in *.
  rewrite <- !app_assoc in Hsk.
  pose proof (skipn_add _ _ _ _ Hsk) as Hsk1.
  pose proof (skipn_add _ _ _ _ Hsk1) as Hsk2.
  rewrite readField_eq.
  unfold bind at 1, get.
  rewrite (bind_Ok _ _ _ _ _
             (readVarint_encodeVarint data off _ _
                (header_bound tag 2 Ht ltac:(lia)) Hsk)).
  fold h. rewrite newField_header by (unfold validTag, wireType.DELIMITED in *; lia).
  cbn [ftag ftype].
  replace (match expected with
           | Some t => negb (tag =? t)
           | None => false
           end) with false
    by (destruct Hexp as [-> | ->]; [reflexivity | now rewrite Z.eqb_refl]).
  assert (readVarBytes data (off + length h)%nat =
          (Ok d, (off + length h + length l + length d)%nat)) as Hvb.
  { unfold readVarBytes.
    rewrite (bind_Ok _ _ _ _ _
               (readVarint_encodeVarint data _ _ _ Hd' Hsk1)).
    fold l. apply (readBytes_ok _ _ _ rest); [trivial | lia | trivial]. }
  unfold wireType.DELIMITED at 1.
  rewrite (bind_Ok _ _ _ _ _ (bind_Ok _ _ _ _ _ Hvb)).
  unfold bind, get, ret. cbn [setSize setData ftag ftype fvalue fdata fgroup].
  replace (off + length h + length l + length d - off)%nat
    with (length h + (length l + length d))%nat by lia.
  replace (off + length h + length l + length d)%nat
    with (off + (length h + (length l + length d)))%nat by lia.
  reflexivity.
Qed.

Lemma _readVarint_encodeVarint (data : Buffer) (off : nat) (num : Z)
  (rest : Buffer) :
  0 <= num < 2 ^ 42 ->
  skipn off data = ProtoWriter.encodeVarint num ++ rest ->
  _readVarint data off =
  Ok (mkVarint (length (ProtoWriter.encodeVarint num)) num).
Proof.
  intros Hnum Hsk. destruct (encodeVarint_spec num Hnum) as (Hwf & Hval & Hlen).
  unfold _readVarint. rewrite Hsk.
  rewrite readVarintLoop_wellformed by (trivial; lia).
  rewrite Hval.
  replace (2 ^ (7 * Z.of_nat 0)) with 1 by reflexivity.
  rewrite Z.add_0_l, Z.mul_1_l. reflexivity.
Qed.

(** The header that the reader finds at the start of a field, or zero at
    the end of the buffer. *)
Lemma startsWith_header (data : Buffer) (off : nat) (rest : Buffer) (t : Z) :
  startsWith rest t -> skipn off data = rest ->
  exists v, _readVarint data off = Ok v /\ ftag (newField (vvalue v)) = t.
Proof.
  intros Hs Hsk. destruct Hs as [|tag d rest Ht Hd|tag v rest Ht Hv].
  - exists (mkVarint 0 0). unfold _readVarint. rewrite Hsk. split; reflexivity.
  - unfold encBytes, header in Hsk. rewrite <- app_assoc in Hsk.
    eexists. split.
    + eapply _readVarint_encodeVarint; [|exact Hsk].
      apply header_bound; [trivial | unfold wireType.DELIMITED; lia].
    + cbn [vvalue]. rewrite newField_header; [reflexivity | |];
        unfold validTag, wireType.DELIMITED in *; lia.
  - unfold encVarint, header in Hsk. rewrite <- app_assoc in Hsk.
    eexists. split.
    + eapply _readVarint_encodeVarint; [|exact Hsk].
      apply header_bound; [trivial | unfold wireType.VARINT; lia].
    + cbn [vvalue]. rewrite newField_header; [reflexivity | |];
        unfold validTag, wireType.VARINT in *; lia.
Qed.

Lemma readField_mismatch (data : Buffer) (fuel : nat) (tag : Z)
  (opt : bool) (off : nat) (v : Varint) :
  _readVarint data off = Ok v ->
  ftag (newField (vvalue v)) <> tag ->
  readField data fuel (Some tag) opt off =
  if opt
  then (Ok None, off)
  else (Throw (AssertionError "Non-optional field not present."),
        (off + vsize v)%nat).
Proof.
  intros Hv Hne. rewrite readField_eq.
  unfold bind at 1, get. unfold bind at 1. rewrite readVarint_run, Hv.
  apply Z.eqb_neq in Hne. rewrite Hne. cbn [negb].
  destruct opt; reflexivity.
Qed.

Lemma startsFrom_absent (data : Buffer) (fuel : nat) (tag : Z) (off : nat)
  (rest : Buffer) :
  0 < tag -> startsFrom (tag + 1) rest -> skipn off data = rest ->
  readField data fuel (Some tag) true off = (Ok None, off).
Proof.
  intros Ht (t & Hs & Hlo) Hsk.
  destruct (startsWith_header data off rest t Hs Hsk) as (v & Hv & Htag).
  rewrite (readField_mismatch data fuel tag true off v Hv); [reflexivity|].
  lia.
Qed.

Lemma readField_encVarint (data : Buffer) (fuel : nat) (expected : option Z)
  (opt : bool) (off : nat) (tag v : Z) (rest : Buffer) :
  validTag tag -> 0 <= v < 2 ^ 42 ->
  expected = None \/ expected = Some tag ->
  skipn off data = encVarint tag v ++ rest ->
  readField data fuel expected opt off =
  (Ok (Some (mkField tag wireType.VARINT (length (encVarint tag v)) v
               None None)),
   (off + length (encVarint tag v))%nat).
Proof.
  intros Ht Hv Hexp Hsk. unfold encVarint, header in *.
  set (h := ProtoWriter.encodeVarint (tag * 8 + wireType.VARINT)) in *.
  set (l := ProtoWriter.encodeVarint v) in *.
  rewrite <- app_assoc in Hsk.
  pose proof (skipn_add _ _ _ _ Hsk) as Hsk1.
  rewrite readField_eq.
  unfold bind at 1, get.
  rewrite (bind_Ok _ _ _ _ _
             (readVarint_encodeVarint data off _ _
                (header_bound tag 0 Ht ltac:(lia)) Hsk)).
  fold h. rewrite newField_header by (unfold validTag, wireType.VARINT in *; lia).
  cbn [ftag ftype].
  replace (match expected with
           | Some t => negb (tag =? t)
           | None => false
           end) with false
    by (destruct Hexp as [-> | ->]; [reflexivity | now rewrite Z.eqb_refl]).
  unfold wireType.VARINT at 1.
  rewrite (bind_Ok _ _ _ _ _
             (bind_Ok _ _ _ _ _ (readVarint_encodeVarint data _ _ _ Hv Hsk1))).
  fold l. unfold bind, get, ret.
  cbn [setSize setValue ftag ftype fvalue fdata fgroup].
  rewrite length_app.
  replace (off + length h + length l - off)%nat
    with (length h + length l)%nat by lia.
  replace (off + length h + length l)%nat
    with (off + (length h + length l))%nat by lia.
  reflexivity.
Qed.

(** ** The typed accessors *)

Lemma readFieldBytes_present (data : Buffer) (fuel : nat) (opt : bool)
  (off : nat) (tag : Z) (d rest : Buffer) :
  validTag tag -> len d < 2 ^ 32 ->
  skipn off data = encBytes tag d ++ rest ->
  readFieldBytes data fuel tag opt off =
  (Ok (Some d), (off + length (encBytes tag d))%nat).
Proof.
  intros Ht Hd Hsk. unfold readFieldBytes.
  rewrite (bind_Ok _ _ _ _ _
             (readField_encBytes data fuel (Some tag) opt off tag d rest
                Ht Hd (or_intror eq_refl) Hsk)).
  reflexivity.
Qed.

Lemma readFieldBytes_absent (data : Buffer) (fuel : nat) (off : nat)
  (tag : Z) (rest : Buffer) :
  0 < tag -> startsFrom (tag + 1) rest -> skipn off data = rest ->
  readFieldBytes data fuel tag true off = (Ok None, off).
Proof.
  intros Ht Hs Hsk. unfold readFieldBytes.
  rewrite (bind_Ok _ _ _ _ _ (startsFrom_absent data fuel tag off rest Ht Hs Hsk)).
  reflexivity.
Qed.

Lemma readFieldBytes_optional (data : Buffer) (fuel : nat) (off : nat)
  (tag : Z) (o : option Buffer) (rest : Buffer) :
  validTag tag -> validOpt o -> startsFrom (tag + 1) rest ->
  skipn off data = optBytes tag o ++ rest ->
  readFieldBytes data fuel tag true off =
  (Ok o, (off + length (optBytes tag o))%nat).
Proof.
  intros Ht Ho Hs Hsk. destruct o as [d|]; cbn [optBytes validOpt] in *.
  - now apply (readFieldBytes_present _ _ _ _ _ _ rest).
  - cbn [length]. rewrite Nat.add_0_r.
    apply (readFieldBytes_absent _ _ _ _ rest); trivial.
    unfold validTag in Ht; lia.
Qed.

(** ** The decoder on well-formed bytes *)

(** A well-formed sequence is decoded to itself. *)
Lemma Utf8_run_wellFormed (n : nat) :
  forall bs : Buffer,
    (length bs <= n)%nat -> isUtf8 bs = true -> Utf8.run Utf8.start bs = bs.
Proof.
  induction n as [|n IH]; intros bs Hlen H.
  - destruct bs; [reflexivity | cbn in Hlen; lia].
  - destruct bs as [|b0 r0]; [reflexivity|].
    cbn [isUtf8] in H. cbn [Utf8.run length] in *.
    unfold Utf8.step at 1. cbn [Utf8.needed Utf8.start]. unfold Utf8.lead.
    destruct (byteZ b0 <=? 127) eqn:E0.
    { cbn [app]. f_equal. apply IH; [lia | exact H]. }
    destruct r0 as [|b1 r1]; [discriminate|].
    cbn [Utf8.run length] in *.
    destruct (Utf8.inRange 194 223 b0) eqn:E2.
    { apply andb_prop in H as [H1 H].
      unfold Utf8.step at 1.
      cbn [Utf8.needed Utf8.lower Utf8.upper Utf8.seen].
      rewrite H1. cbn [app]. f_equal. f_equal.
      apply IH; [lia | exact H]. }
    destruct r1 as [|b2 r2]; [discriminate|].
    cbn [Utf8.run length] in *.
    destruct (Utf8.inRange 224 239 b0) eqn:E3.
    { apply andb_prop in H as [H H3]. apply andb_prop in H as [H1 H2].
      unfold Utf8.step at 1.
      cbn [Utf8.needed Utf8.lower Utf8.upper Utf8.seen].
      rewrite H1.
      unfold Utf8.step at 1.
      cbn [Utf8.needed Utf8.lower Utf8.upper Utf8.seen].
      rewrite H2. cbn [app]. f_equal. f_equal. f_equal.
      apply IH; [lia | exact H3]. }
    destruct r2 as [|b3 r3]; [discriminate|].
    cbn [Utf8.run length] in *.
    destruct (Utf8.inRange 240 244 b0) eqn:E4; [|discriminate].
    apply andb_prop in H as [H H4]. apply andb_prop in H as [H H3].
    apply andb_prop in H as [H1 H2].
    unfold Utf8.step at 1.
    cbn [Utf8.needed Utf8.lower Utf8.upper Utf8.seen].
    rewrite H1.
    unfold Utf8.step at 1.
    cbn [Utf8.needed Utf8.lower Utf8.upper Utf8.seen].
    rewrite H2.
    unfold Utf8.step at 1.
    cbn [Utf8.needed Utf8.lower Utf8.upper Utf8.seen].
    rewrite H3. cbn [app]. f_equal. f_equal. f_equal. f_equal.
    apply IH; [lia | exact H4].
Qed.

Lemma toStringUtf8_wellFormed (bs : Buffer) :
  isUtf8 bs = true -> toStringUtf8 bs = string_of_list_byte bs.
Proof.
  intros H. unfold toStringUtf8, Utf8.decode.
  now rewrite (Utf8_run_wellFormed (length bs) bs (le_n _) H).
Qed.

(** The decoder on bytes that are not UTF-8: a byte that starts no
    sequence, a sequence that is cut short, the form of a surrogate, an
    overlong form; and [readFieldString] on a field whose data is the byte
    [ff]. *)
Example toStringUtf8_replaces :
  Utf8.decode [xff] = Utf8.replacement
  /\ Utf8.decode [xe2; x82; x41] = Utf8.replacement ++ [x41]
  /\ Utf8.decode [xed; xa0; x80]
     = Utf8.replacement ++ Utf8.replacement ++ Utf8.replacement
  /\ Utf8.decode [xc0; x80] = Utf8.replacement ++ Utf8.replacement
  /\ readFieldString [x12; x01; xff] 0 2 true 0%nat
     = (Ok (Some (string_of_list_byte Utf8.replacement)), 3%nat).
Proof. repeat split. Qed.

(** A well-formed string comes back from its code units. *)
Lemma reread_wellFormed (s : string) : wellFormed s -> reread s = s.
Proof.
  intros H. unfold reread. rewrite toStringUtf8_wellFormed by exact H.
  apply string_of_list_byte_of_string.
Qed.

Lemma reread_wellFormedOpt (o : option string) :
  wellFormedOpt o -> option_map reread o = o.
Proof.
  destruct o as [s|]; [|reflexivity].
  intros H. cbn. now rewrite reread_wellFormed.
Qed.

Lemma rereadDetails_wellFormed (d : PaymentDetails.t) :
  wellFormedDetails d -> rereadDetails d = d.
Proof.
  intros (H1 & H2 & H3). unfold rereadDetails.
  rewrite !reread_wellFormedOpt by assumption. now destruct d.
Qed.

Lemma rereadPayment_wellFormed (p : Payment.t) :
  wellFormedPayment p -> rereadPayment p = p.
Proof.
  intros H. unfold rereadPayment.
  rewrite reread_wellFormedOpt by assumption. now destruct p.
Qed.

Lemma rereadACK_wellFormed (a : PaymentACK.t) :
  wellFormedACK a -> rereadACK a = a.
Proof.
  intros [H1 H2]. unfold rereadACK.
  rewrite rereadPayment_wellFormed, reread_wellFormedOpt by assumption.
  now destruct a.
Qed.

Lemma rereadRequest_wellFormed (r : PaymentRequest.t) :
  wellFormedRequest r -> rereadRequest r = r.
Proof.
  intros [H1 H2]. unfold rereadRequest.
  rewrite rereadDetails_wellFormed, reread_wellFormedOpt by assumption.
  now destruct r.
Qed.

(** An optional string field, as [optString] lays it out, is read as the
    decoder reads its bytes. *)
Lemma readFieldString_optional (data : Buffer) (fuel : nat) (off : nat)
  (tag : Z) (o : option string) (rest : Buffer) :
  validTag tag -> validOpt (option_map list_byte_of_string o) ->
  startsFrom (tag + 1) rest ->
  skipn off data = optString tag o ++ rest ->
  readFieldString data fuel tag true off =
  (Ok (option_map reread o), (off + length (optString tag o))%nat).
Proof.
  intros Ht Ho Hs Hsk. unfold readFieldString, optString in *.
  destruct o as [s|]; cbn [option_map optBytes validOpt] in *.
  - rewrite (bind_Ok _ _ _ _ _
               (readField_encBytes data fuel (Some tag) true off tag _ rest
                  Ht Ho (or_intror eq_refl) Hsk)).
    cbn [fdata]. reflexivity.
  - rewrite (bind_Ok _ _ _ _ _
               (startsFrom_absent data fuel tag off rest
                  ltac:(unfold validTag in Ht; lia) Hs Hsk)).
    cbn [length]. now rewrite Nat.add_0_r.
Qed.

Lemma readFieldU64_present (data : Buffer) (fuel : nat) (opt : bool)
  (off : nat) (tag v : Z) (rest : Buffer) :
  validTag tag -> 0 <= v < 2 ^ 42 ->
  skipn off data = encVarint tag v ++ rest ->
  readFieldU64 data fuel tag opt off =
  (Ok v, (off + length (encVarint tag v))%nat).
Proof.
  intros Ht Hv Hsk. unfold readFieldU64.
  rewrite (bind_Ok _ _ _ _ _
             (readField_encVarint data fuel (Some tag) opt off tag v rest
                Ht Hv (or_intror eq_refl) Hsk)).
  reflexivity.
Qed.

Lemma readFieldU32_present (data : Buffer) (fuel : nat) (opt : bool)
  (off : nat) (tag v : Z) (rest : Buffer) :
  validTag tag -> 0 <= v < 2 ^ 42 ->
  skipn off data = encVarint tag v ++ rest ->
  readFieldU32 data fuel tag opt off =
  (Ok v, (off + length (encVarint tag v))%nat).
Proof.
  intros Ht Hv Hsk. unfold readFieldU32.
  rewrite (bind_Ok _ _ _ _ _
             (readField_encVarint data fuel (Some tag) opt off tag v rest
                Ht Hv (or_intror eq_refl) Hsk)).
  reflexivity.
Qed.

(** A numeric field that holds the sentinel is not on the wire and is read
    back as the sentinel. *)
Lemma readFieldU64_optional (data : Buffer) (fuel : nat) (off : nat)
  (tag v : Z) (rest : Buffer) :
  validTag tag -> v = -1 \/ 0 <= v < 2 ^ 42 ->
  startsFrom (tag + 1) rest ->
  skipn off data = optVarint tag v ++ rest ->
  readFieldU64 data fuel tag true off =
  (Ok v, (off + length (optVarint tag v))%nat).
Proof.
  intros Ht Hv Hs Hsk. unfold optVarint in *.
  destruct (v =? -1) eqn:E.
  - apply Z.eqb_eq in E. subst v. unfold readFieldU64.
    rewrite (bind_Ok _ _ _ _ _
               (startsFrom_absent data fuel tag off rest
                  ltac:(unfold validTag in Ht; lia) Hs Hsk)).
    cbn [length]. now rewrite Nat.add_0_r.
  - apply Z.eqb_neq in E.
    apply (readFieldU64_present _ _ _ _ _ _ rest); trivial. lia.
Qed.

Lemma readFieldU32_optional (data : Buffer) (fuel : nat) (off : nat)
  (tag v : Z) (rest : Buffer) :
  validTag tag -> v = -1 \/ 0 <= v < 2 ^ 42 ->
  startsFrom (tag + 1) rest ->
  skipn off data = optVarint tag v ++ rest ->
  readFieldU32 data fuel tag true off =
  (Ok v, (off + length (optVarint tag v))%nat).
Proof.
  intros Ht Hv Hs Hsk. unfold optVarint in *.
  destruct (v =? -1) eqn:E.
  - apply Z.eqb_eq in E. subst v. unfold readFieldU32.
    rewrite (bind_Ok _ _ _ _ _
               (startsFrom_absent data fuel tag off rest
                  ltac:(unfold validTag in Ht; lia) Hs Hsk)).
    cbn [length]. now rewrite Nat.add_0_r.
  - apply Z.eqb_neq in E.
    apply (readFieldU32_present _ _ _ _ _ _ rest); trivial. lia.
Qed.

(** ** Peeking *)

Lemma encBytes_length_pos (tag : Z) (d : Buffer) :
  (0 < length (encBytes tag d))%nat.
Proof.
  unfold encBytes, header. rewrite length_app.
  pose proof (encodeVarint_length_pos (tag * 8 + wireType.DELIMITED)). lia.
Qed.

Lemma encVarint_length_pos (tag v : Z) :
  (0 < length (encVarint tag v))%nat.
Proof.
  unfold encVarint, header. rewrite length_app.
  pose proof (encodeVarint_length_pos (tag * 8 + wireType.VARINT)). lia.
Qed.

Lemma seek_back (data : Buffer) (off size : nat) :
  (off + size <= length data)%nat ->
  seek data (- Z.of_nat size) (off + size)%nat = (Ok tt, off).
Proof.
  intros H. unfold seek, bind, get, put, throw.
  replace (Z.of_nat (off + size) + - Z.of_nat size) with (Z.of_nat off) by lia.
  replace (Z.of_nat off <? 0) with false by (symmetry; apply Z.ltb_ge; lia).
  replace (len data <? Z.of_nat off) with false
    by (symmetry; apply Z.ltb_ge; unfold len; lia).
  now rewrite Nat2Z.id.
Qed.

Lemma nextTag_end (data : Buffer) (fuel : nat) (off : nat) :
  skipn off data = [] -> nextTag data fuel off = (Ok (-1), off).
Proof.
  intros Hsk. unfold nextTag, left, bind, get, ret.
  apply (f_equal (@length _)) in Hsk. rewrite length_skipn in Hsk.
  cbn [length] in Hsk. rewrite Hsk. reflexivity.
Qed.

Lemma nextTag_startsWith (data : Buffer) (fuel : nat) (off : nat)
  (rest : Buffer) (t : Z) :
  startsWith rest t -> skipn off data = rest ->
  exists t', nextTag data fuel off = (Ok t', off)
             /\ (t' = -1 /\ t = 0 \/ t' = t).
Proof.
  intros Hs Hsk. destruct Hs as [|tag d rest Ht Hd|tag v rest Ht Hv].
  - exists (-1). split; [now apply nextTag_end | now left].
  - exists tag. split; [|now right].
    pose proof (encBytes_length_pos tag d) as Hpos.
    pose proof (skipn_length_eq _ _ _ _ Hsk Hpos) as Hlen.
    unfold nextTag.
    rewrite (bind_Ok _ _ _ off (length data - off)%nat) by reflexivity.
    replace (length data - off =? 0)%nat with false
      by (symmetry; apply Nat.eqb_neq; lia).
    rewrite (bind_Ok _ _ _ _ _
               (readField_encBytes data fuel None false off tag d rest
                  Ht Hd (or_introl eq_refl) Hsk)).
    cbn [fsize ftag].
    rewrite (bind_Ok _ _ _ _ _
               (seek_back data off (length (encBytes tag d)) ltac:(lia))).
    reflexivity.
  - exists tag. split; [|now right].
    pose proof (encVarint_length_pos tag v) as Hpos.
    pose proof (skipn_length_eq _ _ _ _ Hsk Hpos) as Hlen.
    unfold nextTag.
    rewrite (bind_Ok _ _ _ off (length data - off)%nat) by reflexivity.
    replace (length data - off =? 0)%nat with false
      by (symmetry; apply Nat.eqb_neq; lia).
    rewrite (bind_Ok _ _ _ _ _
               (readField_encVarint data fuel None false off tag v rest
                  Ht Hv (or_introl eq_refl) Hsk)).
    cbn [fsize ftag].
    rewrite (bind_Ok _ _ _ _ _
               (seek_back data off (length (encVarint tag v)) ltac:(lia))).
    reflexivity.
Qed.

Lemma nextTag_item (data : Buffer) (fuel : nat) (off : nat) (tag : Z)
  (d rest : Buffer) :
  validTag tag -> len d < 2 ^ 32 ->
  skipn off data = encBytes tag d ++ rest ->
  nextTag data fuel off = (Ok tag, off).
Proof.
  intros Ht Hd Hsk.
  destruct (nextTag_startsWith data fuel off _ tag
              (startsBytes tag d rest Ht Hd) Hsk) as (t' & H & [[_ H0]|H1]).
  - unfold validTag in Ht. lia.
  - now subst t'.
Qed.

Lemma nextTag_past (data : Buffer) (fuel : nat) (off : nat) (tag : Z)
  (rest : Buffer) :
  0 < tag -> startsFrom (tag + 1) rest -> skipn off data = rest ->
  exists t', nextTag data fuel off = (Ok t', off) /\ (t' =? tag) = false.
Proof.
  intros Ht (t & Hs & Hlo) Hsk.
  destruct (nextTag_startsWith data fuel off rest t Hs Hsk)
    as (t' & H & Ht').
  exists t'. split; [trivial|]. apply Z.eqb_neq. lia.
Qed.

(** ** The loop over a repeated field *)

Section Repeated.

Context {A I : Type}.
Variable data : Buffer.
Variable fuel : nat.
Variable tag : Z.
Variable body : A -> Reader A.
Variable enc : I -> Buffer.
Variable step : A -> I -> A.
Variable good : I -> Prop.

Hypothesis tag_valid : validTag tag.

Hypothesis enc_item :
  forall i, good i -> exists d, enc i = encBytes tag d /\ len d < 2 ^ 32.

Hypothesis body_item :
  forall acc i off rest, good i ->
    skipn off data = enc i ++ rest ->
    body acc off = (Ok (step acc i), (off + length (enc i))%nat).

Lemma whileNextTag_items (items : list I) :
  forall (n : nat) (acc : A) (off : nat) (rest : Buffer),
    Forall good items ->
    (length items < n)%nat ->
    startsFrom (tag + 1) rest ->
    skipn off data = concat (map enc items) ++ rest ->
    whileNextTag data fuel n tag body acc off =
    (Ok (fold_left step items acc),
     (off + length (concat (map enc items)))%nat).
Proof.
  induction items as [|i items IH]; intros n acc off rest Hg Hn Hs Hsk.
  - cbn [map concat app length fold_left] in *.
    destruct n as [|n]; [lia|]. cbn [whileNextTag].
    destruct (nextTag_past data fuel off tag rest
                ltac:(unfold validTag in tag_valid; lia) Hs Hsk)
      as (t' & Hnt & Hne).
    rewrite (bind_Ok _ _ _ _ _ Hnt), Hne. now rewrite Nat.add_0_r.
  - cbn [map concat fold_left length] in *.
    inversion Hg as [|? ? Hi Hg']; subst.
    destruct n as [|n]; [lia|]. cbn [whileNextTag].
    rewrite <- app_assoc in Hsk.
    destruct (enc_item i Hi) as (d & He & Hd).
    assert (nextTag data fuel off = (Ok tag, off)) as Hnt.
    { apply (nextTag_item _ _ _ _ d (concat (map enc items) ++ rest));
        trivial. now rewrite <- He. }
    rewrite (bind_Ok _ _ _ _ _ Hnt), Z.eqb_refl.
    rewrite (bind_Ok _ _ _ _ _ (body_item acc i off _ Hi Hsk)).
    rewrite (IH n (step acc i) _ rest Hg' ltac:(lia) Hs
               (skipn_add _ _ _ _ Hsk)).
    rewrite length_app. f_equal. lia.
Qed.

End Repeated.

(** ** What the writer appends *)

Lemma writeVarint_ok (num : Z) (bw : Buffer) :
  0 <= num <= ProtoWriter.MAX_SAFE_INTEGER ->
  ProtoWriter.writeVarint num bw = Ok (bw ++ ProtoWriter.encodeVarint num).
Proof.
  intros H. unfold ProtoWriter.writeVarint, assert.
  replace (0 <=? num) with true by (symmetry; apply Z.leb_le; lia).
  replace (num <=? ProtoWriter.MAX_SAFE_INTEGER) with true
    by (symmetry; apply Z.leb_le; lia).
  reflexivity.
Qed.

Lemma writeVarint_inv (num : Z) (bw out : Buffer) :
  ProtoWriter.writeVarint num bw = Ok out ->
  0 <= num <= ProtoWriter.MAX_SAFE_INTEGER
  /\ out = bw ++ ProtoWriter.encodeVarint num.
Proof.
  unfold ProtoWriter.writeVarint, assert.
  destruct (0 <=? num) eqn:E1; [|discriminate].
  destruct (num <=? ProtoWriter.MAX_SAFE_INTEGER) eqn:E2; [|discriminate].
  cbn [andb]. intros [= <-]. apply Z.leb_le in E1, E2. auto.
Qed.

Lemma MAX_SAFE_INTEGER_eq : ProtoWriter.MAX_SAFE_INTEGER = 9007199254740991.
Proof. reflexivity. Qed.

Lemma writeFieldBytes_ok (tag : Z) (d bw : Buffer) :
  validTag tag -> len d < 2 ^ 32 ->
  ProtoWriter.writeFieldBytes tag d bw = Ok (bw ++ encBytes tag d).
Proof.
  intros Ht Hd. unfold ProtoWriter.writeFieldBytes, encBytes, header.
  pose proof MAX_SAFE_INTEGER_eq.
  rewrite writeVarint_ok
    by (unfold validTag, wireType.DELIMITED in *; lia).
  cbn [bindR].
  rewrite writeVarint_ok by (unfold len in *; lia).
  cbn [bindR]. now rewrite <- !app_assoc.
Qed.

Lemma writeFieldBytes_inv (tag : Z) (d bw out : Buffer) :
  ProtoWriter.writeFieldBytes tag d bw = Ok out ->
  out = bw ++ encBytes tag d.
Proof.
  unfold ProtoWriter.writeFieldBytes, encBytes, header.
  destruct (ProtoWriter.writeVarint (tag * 8 + wireType.DELIMITED) bw)
    as [b1| |] eqn:E1; try discriminate.
  cbn [bindR].
  destruct (ProtoWriter.writeVarint (len d) b1) as [b2| |] eqn:E2;
    try discriminate.
  cbn [bindR]. intros [= <-].
  apply writeVarint_inv in E1 as [_ ->], E2 as [_ ->].
  now rewrite <- !app_assoc.
Qed.

Lemma writeFieldVarint_inv (tag v : Z) (bw out : Buffer) :
  ProtoWriter.writeFieldVarint tag v bw = Ok out ->
  0 <= v <= ProtoWriter.MAX_SAFE_INTEGER /\ out = bw ++ encVarint tag v.
Proof.
  unfold ProtoWriter.writeFieldVarint, encVarint, header.
  destruct (ProtoWriter.writeVarint (tag * 8 + wireType.VARINT) bw)
    as [b1| |] eqn:E1; try discriminate.
  cbn [bindR]. intros E2.
  apply writeVarint_inv in E1 as [_ ->], E2 as [H ->].
  now rewrite <- !app_assoc.
Qed.

Lemma forEach_ok {A} (enc : A -> Buffer)
  (body : A -> Buffer -> result Buffer) (xs : list A) :
  forall bw,
    Forall (fun x => forall bw, body x bw = Ok (bw ++ enc x)) xs ->
    ProtoWriter.forEach xs body bw = Ok (bw ++ concat (map enc xs)).
Proof.
  induction xs as [|x xs IH]; intros bw H.
  - cbn. now rewrite app_nil_r.
  - inversion H as [|? ? Hx Hxs]; subst. cbn [ProtoWriter.forEach].
    rewrite Hx. cbn [bindR]. rewrite IH by trivial.
    cbn [map concat]. now rewrite <- app_assoc.
Qed.

Lemma forEach_inv {A} (enc : A -> Buffer)
  (body : A -> Buffer -> result Buffer) (xs : list A) :
  (forall x bw out, body x bw = Ok out -> out = bw ++ enc x) ->
  forall bw out,
    ProtoWriter.forEach xs body bw = Ok out ->
    out = bw ++ concat (map enc xs)
    /\ Forall (fun x => exists bw out, body x bw = Ok out) xs.
Proof.
  intros Hb. induction xs as [|x xs IH]; intros bw out H.
  - cbn in *. injection H as <-. now rewrite app_nil_r.
  - cbn [ProtoWriter.forEach] in H.
    destruct (body x bw) as [b1| |] eqn:E; try discriminate.
    cbn [bindR] in H. apply IH in H as [-> Hall].
    pose proof (Hb _ _ _ E) as ->.
    cbn [map concat]. rewrite <- app_assoc. split; [reflexivity|].
    constructor; eauto.
Qed.

Lemma fold_left_snoc {A} (items acc : list A) :
  fold_left (fun acc x => acc ++ [x]) items acc = acc ++ items.
Proof.
  revert acc. induction items as [|x items IH]; intros acc; cbn.
  - now rewrite app_nil_r.
  - rewrite IH, <- app_assoc. reflexivity.
Qed.

Lemma startsFrom_nil (lo : Z) : startsFrom lo [].
Proof. exists 0. split; [constructor | now left]. Qed.

(** ** The certificate chain *)

Lemma setChain_run (certs : list Buffer) (this : PaymentRequest.t) :
  Forall (fun c => len c < 2 ^ 32) certs ->
  setChain certs this =
  (Ok tt, setPkiData this (Some (concat (map (encBytes 1) certs)))).
Proof.
  intros H. unfold setChain.
  rewrite (bind_Ok _ _ _ this (concat (map (encBytes 1) certs))).
  - reflexivity.
  - unfold liftResult. f_equal.
    rewrite (forEach_ok (encBytes 1)); [reflexivity|].
    eapply Forall_impl; [|exact H].
    intros c Hc bw. apply writeFieldBytes_ok; [unfold validTag; lia | trivial].
Qed.

Lemma getChain_encoded (certs : list Buffer) (fuel : nat)
  (this : PaymentRequest.t) :
  Forall (fun c => len c < 2 ^ 32) certs ->
  (length certs < fuel)%nat ->
  pkiData this = Some (concat (map (encBytes 1) certs)) ->
  getChain fuel this = (Ok certs, this).
Proof.
  intros H Hfuel Hpki. unfold getChain, bind at 1, get. rewrite Hpki.
  unfold liftResult, runReader. f_equal.
  rewrite (whileNextTag_items _ fuel 1 _ (encBytes 1)
             (fun acc c => acc ++ [c]) (fun c => len c < 2 ^ 32)
             ltac:(unfold validTag; lia)
             ltac:(intros c Hc; exists c; auto)) with (items := certs) (rest := []).
  - cbn [fst]. now rewrite fold_left_snoc.
  - intros acc c off rest Hc Hsk.
    rewrite (bind_Ok _ _ _ _ _
               (readFieldBytes_present _ fuel false off 1 c rest
                  ltac:(unfold validTag; lia) Hc Hsk)).
    reflexivity.
  - trivial.
  - trivial.
  - apply startsFrom_nil.
  - now rewrite app_nil_r.
Qed.

(** Claim C6. After [setChain(certs)], [getChain()] answers [certs], in
    order, for every list of buffers (a buffer is shorter than 2^32 bytes);
    and [getChain()] answers the empty list when [pkiData] is absent. The
    loop of [getChain] needs one iteration more than there are
    certificates. *)
Theorem getChain_setChain (certs : list Buffer) (fuel : nat)
  (this : PaymentRequest.t) :
  (Forall (fun c => len c < 2 ^ 32) certs ->
   (length certs < fuel)%nat ->
   exists this',
     setChain certs this = (Ok tt, this')
     /\ getChain fuel this' = (Ok certs, this'))
  /\
  (pkiData this = None -> getChain fuel this = (Ok [], this)).
Proof.
  split.
  - intros H Hfuel. eexists. split; [now apply setChain_run|].
    now apply getChain_encoded.
  - intros Hpki. unfold getChain, bind, get. now rewrite Hpki.
Qed.

Lemma getChain_setChain_witness :
  exists this',
    setChain [[x30; x82]; []; [x30]] signedRequest = (Ok tt, this')
    /\ getChain 4 this' = (Ok [[x30; x82]; []; [x30]], this').
Proof.
  apply (proj1 (getChain_setChain [[x30; x82]; []; [x30]] 4 signedRequest)).
  - repeat (constructor; [reflexivity|]). constructor.
  - simpl. lia.
Defined.

(** ** Where a suffix of an encoding starts *)

Lemma startsFrom_encBytes (lo tag : Z) (d rest : Buffer) :
  validTag tag -> len d < 2 ^ 32 -> lo <= tag ->
  startsFrom lo (encBytes tag d ++ rest).
Proof.
  intros. exists tag. split; [apply startsBytes; assumption | right; assumption].
Qed.

Lemma startsFrom_encVarint (lo tag v : Z) (rest : Buffer) :
  validTag tag -> goodNumber v -> lo <= tag ->
  startsFrom lo (encVarint tag v ++ rest).
Proof.
  intros. exists tag. split; [apply startsVarint; assumption | right; assumption].
Qed.

Lemma startsFrom_optBytes (lo tag : Z) (o : option Buffer) (rest : Buffer) :
  validTag tag -> validOpt o -> lo <= tag -> startsFrom lo rest ->
  startsFrom lo (optBytes tag o ++ rest).
Proof.
  intros Ht Ho Hlo Hr. destruct o as [d|]; cbn [optBytes validOpt] in *.
  - now apply startsFrom_encBytes.
  - exact Hr.
Qed.

Lemma startsFrom_optString (lo tag : Z) (o : option string) (rest : Buffer) :
  validTag tag -> validOpt (optUtf8 o) -> lo <= tag -> startsFrom lo rest ->
  startsFrom lo (optString tag o ++ rest).
Proof. intros. now apply startsFrom_optBytes. Qed.

Lemma startsFrom_optVarint (lo tag v : Z) (rest : Buffer) :
  validTag tag -> goodOptNumber v -> lo <= tag -> startsFrom lo rest ->
  startsFrom lo (optVarint tag v ++ rest).
Proof.
  intros Ht Hv Hlo Hr. unfold optVarint. destruct (v =? -1) eqn:E.
  - exact Hr.
  - apply Z.eqb_neq in E. apply startsFrom_encVarint; trivial.
    destruct Hv; [contradiction | trivial].
Qed.

Lemma startsFrom_repeated {I} (lo tag : Z) (enc : I -> Buffer)
  (good : I -> Prop) (items : list I) (rest : Buffer) :
  validTag tag -> lo <= tag ->
  (forall i, good i -> exists d, enc i = encBytes tag d /\ len d < 2 ^ 32) ->
  Forall good items -> startsFrom lo rest ->
  startsFrom lo (concat (map enc items) ++ rest).
Proof.
  intros Ht Hlo Henc Hg Hr. destruct Hg as [|i items Hi Hg]; [exact Hr|].
  cbn [map concat]. rewrite <- app_assoc.
  destruct (Henc i Hi) as (d & -> & Hd). now apply startsFrom_encBytes.
Qed.

Ltac tag_side := unfold validTag; lia.

Ltac starts :=
  repeat first
    [ apply startsFrom_nil
    | match goal with
      | |- startsFrom _ (optBytes ?t ?o) =>
          rewrite <- (app_nil_r (optBytes t o))
      | |- startsFrom _ (optString ?t ?o) =>
          rewrite <- (app_nil_r (optString t o))
      end
    | apply startsFrom_optString; [tag_side | assumption | lia |]
    | apply startsFrom_optBytes; [tag_side | assumption | lia |]
    | apply startsFrom_optVarint; [tag_side | assumption | lia |]
    | apply startsFrom_encVarint; [tag_side | assumption | lia]
    | apply startsFrom_encBytes; [tag_side | assumption | lia] ].

(** ** Outputs *)

Lemma encOutput_item (tag : Z) (o : Output) :
  goodOutput o ->
  exists d, encOutput tag o = encBytes tag d /\ len d < 2 ^ 32.
Proof.
  intros (_ & _ & H). exists (encOutputBody o). split; [reflexivity | exact H].
Qed.

Lemma readOutput_encoded (fuel : nat) (o : Output) :
  goodOutput o -> readOutput fuel (Some (encOutputBody o)) = Ok o.
Proof.
  intros (Hv & Hs & _). unfold readOutput. cbn [newProtoReader bindR].
  unfold runReader, encOutputBody.
  rewrite (bind_Ok _ _ _ _ _
             (readFieldU64_present _ fuel true 0 1 (value o)
                (optBytes 2 (script o)) ltac:(tag_side) Hv eq_refl)).
  assert (skipn (0 + length (encVarint 1 (value o)))
            (encVarint 1 (value o) ++ optBytes 2 (script o))
          = optBytes 2 (script o) ++ []) as S2
    by (rewrite app_nil_r; apply skipn_app_length).
  rewrite (bind_Ok _ _ _ _ _
             (readFieldBytes_optional _ fuel _ 2 (script o) []
                ltac:(tag_side) Hs (startsFrom_nil _) S2)).
  destruct o; reflexivity.
Qed.

Lemma outputs_loop (data : Buffer) (fuel : nat) (tag : Z)
  (items : list Output) (acc : list Output) (off : nat) (rest : Buffer) :
  validTag tag ->
  Forall goodOutput items ->
  (length items < fuel)%nat ->
  startsFrom (tag + 1) rest ->
  skipn off data = concat (map (encOutput tag) items) ++ rest ->
  whileNextTag data fuel fuel tag
    (fun outputs =>
       d <- readFieldBytes data fuel tag false ;;
       output <- liftResult (readOutput fuel d) ;;
       ret (outputs ++ [output])) acc off =
  (Ok (acc ++ items),
   (off + length (concat (map (encOutput tag) items)))%nat).
Proof.
  intros Ht Hg Hfuel Hs Hsk.
  rewrite (whileNextTag_items data fuel tag _ (encOutput tag)
             (fun acc o => acc ++ [o]) goodOutput Ht (encOutput_item tag))
    with (items := items) (rest := rest); trivial.
  - now rewrite fold_left_snoc.
  - intros acc' o off' rest' Ho Hsk'.
    rewrite (bind_Ok _ _ _ _ _
               (readFieldBytes_present _ fuel false off' tag _ rest' Ht
                  (proj2 (proj2 Ho)) Hsk')).
    unfold liftResult, bind, ret. now rewrite readOutput_encoded.
Qed.

(** ** PaymentDetails *)

Lemma PaymentDetails_decode_encoded (fuel : nat) (now : Z)
  (d : PaymentDetails.t) :
  goodDetails d ->
  (length (PaymentDetails.outputs d) < fuel)%nat ->
  PaymentDetails.fromRaw fuel (PaymentDetails.create now)
    (Some (encDetails d)) = Ok (rereadDetails d).
Proof.
  intros (Hn & Ho & Ht & He & Hm & Hu & Hd) Hfuel.
  unfold PaymentDetails.fromRaw. cbn [newProtoReader bindR].
  unfold runReader, encDetails.
  destruct d as [network outputs time expires memo url md].
  cbn [PaymentDetails.network PaymentDetails.outputs PaymentDetails.time
       PaymentDetails.expires PaymentDetails.memo PaymentDetails.paymentUrl
       PaymentDetails.merchantData PaymentDetails.create] in *.
  assert (startsFrom 8 ([] : Buffer)) as T8 by apply startsFrom_nil.
  assert (startsFrom 6 (optString 6 url ++ optBytes 7 md)) as T6' by starts.
  assert (startsFrom 5 (optString 5 memo ++ optString 6 url ++ optBytes 7 md))
    as T5 by starts.
  assert (startsFrom 4 (optVarint 4 expires ++ optString 5 memo
                        ++ optString 6 url ++ optBytes 7 md)) as T4 by starts.
  assert (startsFrom 3 (encVarint 3 time ++ optVarint 4 expires
                        ++ optString 5 memo ++ optString 6 url
                        ++ optBytes 7 md)) as T3 by starts.
  assert (startsFrom 2 (concat (map (encOutput 2) outputs)
                        ++ encVarint 3 time ++ optVarint 4 expires
                        ++ optString 5 memo ++ optString 6 url
                        ++ optBytes 7 md)) as T2.
  { apply (startsFrom_repeated _ 2 _ goodOutput);
      [tag_side | lia | apply encOutput_item | trivial | starts]. }
  assert (startsFrom 7 (optBytes 7 md)) as T7 by starts.
  set (F1 := optString 1 network) in *.
  set (F2 := concat (map (encOutput 2) outputs)) in *.
  set (F3 := encVarint 3 time) in *.
  set (F4 := optVarint 4 expires) in *.
  set (F5 := optString 5 memo) in *.
  set (F6 := optString 6 url) in *.
  set (F7 := optBytes 7 md) in *.
  set (data := F1 ++ F2 ++ F3 ++ F4 ++ F5 ++ F6 ++ F7).
  assert (skipn 0 data = F1 ++ F2 ++ F3 ++ F4 ++ F5 ++ F6 ++ F7) as S1
    by reflexivity.
  pose proof (skipn_add _ _ _ _ S1) as S2.
  pose proof (skipn_add _ _ _ _ S2) as S3.
  pose proof (skipn_add _ _ _ _ S3) as S4.
  pose proof (skipn_add _ _ _ _ S4) as S5.
  pose proof (skipn_add _ _ _ _ S5) as S6.
  pose proof (skipn_add _ _ _ _ S6) as S7.
  rewrite <- (app_nil_r F7) in S7.
  clearbody data.
  rewrite (bind_Ok _ _ _ _ _
             (readFieldString_optional data fuel _ 1 network _
                ltac:(tag_side) Hn T2 S1)).
  rewrite (bind_Ok _ _ _ _ _
             (outputs_loop data fuel 2 outputs [] _ _
                ltac:(tag_side) Ho Hfuel T3 S2)).
  rewrite (bind_Ok _ _ _ _ _
             (readFieldU64_present data fuel false _ 3 time _
                ltac:(tag_side) Ht S3)).
  rewrite (bind_Ok _ _ _ _ _
             (readFieldU64_optional data fuel _ 4 expires _
                ltac:(tag_side) He T5 S4)).
  rewrite (bind_Ok _ _ _ _ _
             (readFieldString_optional data fuel _ 5 memo _
                ltac:(tag_side) Hm T6' S5)).
  rewrite (bind_Ok _ _ _ _ _
             (readFieldString_optional data fuel _ 6 url _
                ltac:(tag_side) Hu T7 S6)).
  rewrite (bind_Ok _ _ _ _ _
             (readFieldBytes_optional data fuel _ 7 md _
                ltac:(tag_side) Hd T8 S7)).
  reflexivity.
Qed.

(** ** What [toRaw] writes *)

Lemma optString_inv (tag : Z) (o : option string) (bw out : Buffer) :
  match o with
  | Some s => ProtoWriter.writeFieldString tag (ProtoWriter.Str s) bw
  | None => Ok bw
  end = Ok out ->
  out = bw ++ optString tag o.
Proof.
  destruct o as [s|]; cbn [optString option_map optBytes].
  - apply writeFieldBytes_inv.
  - intros [= <-]. now rewrite app_nil_r.
Qed.

Lemma optBytes_inv (tag : Z) (o : option Buffer) (bw out : Buffer) :
  match o with
  | Some b => ProtoWriter.writeFieldBytes tag b bw
  | None => Ok bw
  end = Ok out ->
  out = bw ++ optBytes tag o.
Proof.
  destruct o as [s|]; cbn [optBytes].
  - apply writeFieldBytes_inv.
  - intros [= <-]. now rewrite app_nil_r.
Qed.

Lemma optVarint_inv (tag v : Z) (bw out : Buffer) :
  (if negb (v =? -1) then ProtoWriter.writeFieldVarint tag v bw else Ok bw)
  = Ok out ->
  out = bw ++ optVarint tag v /\ (v = -1 \/ 0 <= v).
Proof.
  unfold optVarint. destruct (v =? -1) eqn:E; cbn [negb].
  - intros [= <-]. apply Z.eqb_eq in E. rewrite app_nil_r. auto.
  - intros H. apply writeFieldVarint_inv in H as [Hv ->]. split; [trivial|lia].
Qed.

Lemma writeOutput_inv (tag : Z) (o : Output) (bw out : Buffer) :
  writeOutput tag o bw = Ok out ->
  out = bw ++ encOutput tag o /\ 0 <= value o /\ script o <> None.
Proof.
  unfold writeOutput, encOutput, encOutputBody, ProtoWriter.writeFieldU64,
    ProtoWriter.new, ProtoWriter.render.
  destruct (ProtoWriter.writeFieldVarint 1 (value o) []) as [b1| |] eqn:E1;
    try discriminate.
  cbn [bindR]. apply writeFieldVarint_inv in E1 as [Hv ->].
  destruct (script o) as [s|]; [|discriminate].
  destruct (ProtoWriter.writeFieldBytes 2 s _) as [b2| |] eqn:E2;
    try discriminate.
  cbn [bindR]. apply writeFieldBytes_inv in E2 as ->.
  intros H. apply writeFieldBytes_inv in H as ->.
  cbn [app optBytes]. repeat split; [lia | discriminate].
Qed.

Lemma forEach_writeOutput_inv (tag : Z) (outputs : list Output) :
  forall (bw out : Buffer),
    ProtoWriter.forEach outputs (writeOutput tag) bw = Ok out ->
    out = bw ++ concat (map (encOutput tag) outputs)
    /\ Forall (fun o => 0 <= value o /\ script o <> None) outputs.
Proof.
  induction outputs as [|o outputs IH]; intros bw out H.
  - cbn in *. injection H as <-. now rewrite app_nil_r.
  - cbn [ProtoWriter.forEach] in H.
    destruct (writeOutput tag o bw) as [b1| |] eqn:E; try discriminate.
    cbn [bindR] in H. apply IH in H as [-> Hall].
    apply writeOutput_inv in E as (-> & Hv & Hs).
    cbn [map concat]. rewrite <- app_assoc. auto.
Qed.

Lemma PaymentDetails_toRaw_inv (d : PaymentDetails.t) (raw : Buffer) :
  PaymentDetails.toRaw d = Ok raw ->
  raw = encDetails d
  /\ 0 <= PaymentDetails.time d
  /\ (PaymentDetails.expires d = -1 \/ 0 <= PaymentDetails.expires d)
  /\ Forall (fun o => 0 <= value o /\ script o <> None)
       (PaymentDetails.outputs d).
Proof.
  unfold PaymentDetails.toRaw, encDetails, ProtoWriter.new,
    ProtoWriter.render, ProtoWriter.writeFieldU64.
  destruct d as [network outputs time expires memo url md].
  cbn [PaymentDetails.network PaymentDetails.outputs PaymentDetails.time
       PaymentDetails.expires PaymentDetails.memo PaymentDetails.paymentUrl
       PaymentDetails.merchantData].
  intros H.
  repeat match type of H with
         | bindR ?x _ = Ok _ =>
             let E := fresh "E" in
             destruct x eqn:E; try discriminate; cbn [bindR] in H
         end.
  injection H as <-.
  apply optString_inv in E.
  apply forEach_writeOutput_inv in E0 as [E0 Hout].
  apply writeFieldVarint_inv in E1 as [Ht E1].
  apply optVarint_inv in E2 as [E2 He].
  apply optString_inv in E3.
  apply optString_inv in E4.
  unfold ProtoWriter.writeFieldString, ProtoWriter.utf8 in E5.
  apply optBytes_inv in E5.
  subst. cbn [app]. rewrite <- !app_assoc.
  repeat split; trivial; lia.
Qed.

(** ** Sizes: a part is no longer than the whole *)

Lemma len_app (a b : Buffer) : len (a ++ b) = len a + len b.
Proof. unfold len. rewrite length_app. lia. Qed.

Lemma len_nonneg (a : Buffer) : 0 <= len a.
Proof. unfold len. lia. Qed.

Lemma len_encBytes (tag : Z) (d : Buffer) : len d <= len (encBytes tag d).
Proof.
  unfold encBytes. rewrite !len_app.
  pose proof (len_nonneg (header tag wireType.DELIMITED)).
  pose proof (len_nonneg (ProtoWriter.encodeVarint (len d))). lia.
Qed.

Lemma validOpt_optBytes (tag : Z) (o : option Buffer) :
  len (optBytes tag o) < 2 ^ 32 -> validOpt o.
Proof.
  destruct o as [d|]; cbn [optBytes validOpt]; [|trivial].
  pose proof (len_encBytes tag d). lia.
Qed.

Lemma len_concat_In {I} (enc : I -> Buffer) (x : I) (xs : list I) :
  In x xs -> len (enc x) <= len (concat (map enc xs)).
Proof.
  induction xs as [|y xs IH]; intros H; [contradiction|].
  cbn [map concat]. rewrite len_app.
  pose proof (len_nonneg (enc y)).
  pose proof (len_nonneg (concat (map enc xs))).
  destruct H as [-> | H]; [lia | specialize (IH H); lia].
Qed.

Lemma goodOutputs_of_encoding (tag : Z) (outputs : list Output) :
  len (concat (map (encOutput tag) outputs)) < 2 ^ 32 ->
  Forall (fun o => 0 <= value o /\ script o <> None) outputs ->
  outputsBelowCap outputs ->
  Forall goodOutput outputs.
Proof.
  intros Hlen Hw Hcap. apply Forall_forall. intros o Hin.
  unfold outputsBelowCap in Hcap.
  rewrite Forall_forall in Hw, Hcap.
  destruct (Hw o Hin) as [Hv Hs]. specialize (Hcap o Hin).
  pose proof (len_concat_In (encOutput tag) o outputs Hin) as Hle.
  pose proof (len_encBytes tag (encOutputBody o)) as Hb.
  change (encOutput tag o) with (encBytes tag (encOutputBody o)) in Hle.
  assert (len (encOutputBody o) < 2 ^ 32) as Hbody by lia.
  repeat split; [trivial | exact Hcap | | exact Hbody].
  apply (validOpt_optBytes 2). unfold encOutputBody in Hbody.
  rewrite len_app in Hbody.
  pose proof (len_nonneg (encVarint 1 (value o))). lia.
Qed.

Lemma goodDetails_of_encoding (d : PaymentDetails.t) :
  len (encDetails d) < 2 ^ 32 ->
  0 <= PaymentDetails.time d ->
  PaymentDetails.expires d = -1 \/ 0 <= PaymentDetails.expires d ->
  Forall (fun o => 0 <= value o /\ script o <> None)
    (PaymentDetails.outputs d) ->
  detailsBelowCap d ->
  goodDetails d.
Proof.
  intros Hlen Ht He Ho (Ct & Ce & Co).
  unfold encDetails in Hlen. rewrite !len_app in Hlen.
  pose proof (len_nonneg (optString 1 (PaymentDetails.network d))).
  pose proof (len_nonneg (concat (map (encOutput 2) (PaymentDetails.outputs d)))).
  pose proof (len_nonneg (encVarint 3 (PaymentDetails.time d))).
  pose proof (len_nonneg (optVarint 4 (PaymentDetails.expires d))).
  pose proof (len_nonneg (optString 5 (PaymentDetails.memo d))).
  pose proof (len_nonneg (optString 6 (PaymentDetails.paymentUrl d))).
  pose proof (len_nonneg (optBytes 7 (PaymentDetails.merchantData d))).
  unfold goodDetails, goodNumber, goodOptNumber, cap in *.
  repeat split; try lia.
  - apply (validOpt_optBytes 1). unfold optString, optUtf8 in *. lia.
  - apply (goodOutputs_of_encoding 2); [lia | trivial | trivial].
  - apply (validOpt_optBytes 5). unfold optString, optUtf8 in *. lia.
  - apply (validOpt_optBytes 6). unfold optString, optUtf8 in *. lia.
  - apply (validOpt_optBytes 7). lia.
Qed.

(** X9. Round trip of [PaymentDetails]: payment details with well-formed
    strings that [toRaw] serializes in fewer than 2^32 bytes, with numbers
    below the cap of the reader, are what decoding the bytes answers. *)
Theorem PaymentDetails_roundtrip (fuel : nat) (now : Z)
  (d : PaymentDetails.t) (raw : Buffer) :
  PaymentDetails.toRaw d = Ok raw ->
  len raw < 2 ^ 32 ->
  detailsBelowCap d ->
  wellFormedDetails d ->
  (length (PaymentDetails.outputs d) < fuel)%nat ->
  PaymentDetails.decode fuel now raw = Ok d.
Proof.
  intros Hraw Hlen Hcap Hwf Hfuel.
  transitivity (Ok (rereadDetails d));
    [|now rewrite rereadDetails_wellFormed].
  apply PaymentDetails_toRaw_inv in Hraw as (-> & Ht & He & Ho).
  unfold PaymentDetails.decode.
  apply PaymentDetails_decode_encoded; [|trivial].
  now apply goodDetails_of_encoding.
Qed.

(** ** Payment *)

Lemma encBytes_item (tag : Z) (b : Buffer) :
  goodBuffer b -> exists d, encBytes tag b = encBytes tag d /\ len d < 2 ^ 32.
Proof. intros H. exists b. split; [reflexivity | exact H]. Qed.

Lemma buffers_loop (data : Buffer) (fuel : nat) (tag : Z)
  (items : list Buffer) (acc : list Buffer) (off : nat) (rest : Buffer) :
  validTag tag ->
  Forall goodBuffer items ->
  (length items < fuel)%nat ->
  startsFrom (tag + 1) rest ->
  skipn off data = concat (map (encBytes tag) items) ++ rest ->
  whileNextTag data fuel fuel tag
    (fun acc =>
       x <- readFieldBytes data fuel tag false ;;
       match x with
       | Some x => ret (acc ++ [x])
       | None => ret acc
       end) acc off =
  (Ok (acc ++ items),
   (off + length (concat (map (encBytes tag) items)))%nat).
Proof.
  intros Ht Hg Hfuel Hs Hsk.
  rewrite (whileNextTag_items data fuel tag _ (encBytes tag)
             (fun acc c => acc ++ [c]) goodBuffer Ht (encBytes_item tag))
    with (items := items) (rest := rest); trivial.
  - now rewrite fold_left_snoc.
  - intros acc' c off' rest' Hc Hsk'.
    rewrite (bind_Ok _ _ _ _ _
               (readFieldBytes_present _ fuel false off' tag c rest' Ht
                  Hc Hsk')).
    reflexivity.
Qed.

Lemma Payment_decode_encoded (fuel : nat) (p : Payment.t) :
  goodPayment p ->
  (length (Payment.transactions p) < fuel)%nat ->
  (length (Payment.refundTo p) < fuel)%nat ->
  Payment.fromRaw fuel Payment.create (Some (encPayment p))
  = Ok (rereadPayment p).
Proof.
  intros (Hd & Htx & Hr & Hm) Hf1 Hf2.
  unfold Payment.fromRaw. cbn [newProtoReader bindR].
  unfold runReader, encPayment.
  destruct p as [md txs refund memo].
  cbn [Payment.merchantData Payment.transactions Payment.refundTo
       Payment.memo Payment.create] in *.
  assert (startsFrom 5 ([] : Buffer)) as T5 by apply startsFrom_nil.
  assert (startsFrom 4 (optString 4 memo)) as T4 by starts.
  assert (startsFrom 3 (concat (map (encOutput 3) refund)
                        ++ optString 4 memo)) as T3.
  { apply (startsFrom_repeated _ 3 _ goodOutput);
      [tag_side | lia | apply encOutput_item | trivial | starts]. }
  assert (startsFrom 2 (concat (map (encBytes 2) txs)
                        ++ concat (map (encOutput 3) refund)
                        ++ optString 4 memo)) as T2.
  { apply (startsFrom_repeated _ 2 _ goodBuffer);
      [tag_side | lia | apply encBytes_item | trivial |].
    apply (startsFrom_repeated _ 3 _ goodOutput);
      [tag_side | lia | apply encOutput_item | trivial | starts]. }
  set (F1 := optBytes 1 md) in *.
  set (F2 := concat (map (encBytes 2) txs)) in *.
  set (F3 := concat (map (encOutput 3) refund)) in *.
  set (F4 := optString 4 memo) in *.
  set (data := F1 ++ F2 ++ F3 ++ F4).
  assert (skipn 0 data = F1 ++ F2 ++ F3 ++ F4) as S1 by reflexivity.
  pose proof (skipn_add _ _ _ _ S1) as S2.
  pose proof (skipn_add _ _ _ _ S2) as S3.
  pose proof (skipn_add _ _ _ _ S3) as S4.
  rewrite <- (app_nil_r F4) in S4.
  clearbody data.
  rewrite (bind_Ok _ _ _ _ _
             (readFieldBytes_optional data fuel _ 1 md _
                ltac:(tag_side) Hd T2 S1)).
  rewrite (bind_Ok _ _ _ _ _
             (buffers_loop data fuel 2 txs [] _ _
                ltac:(tag_side) Htx Hf1 T3 S2)).
  cbn [app].
  rewrite (bind_Ok _ _ _ _ _
             (outputs_loop data fuel 3 refund [] _ _
                ltac:(tag_side) Hr Hf2 T4 S3)).
  rewrite (bind_Ok _ _ _ _ _
             (readFieldString_optional data fuel _ 4 memo _
                ltac:(tag_side) Hm T5 S4)).
  reflexivity.
Qed.

Lemma forEach_writeFieldBytes_inv (tag : Z) (xs : list Buffer) :
  forall (bw out : Buffer),
    ProtoWriter.forEach xs (ProtoWriter.writeFieldBytes tag) bw = Ok out ->
    out = bw ++ concat (map (encBytes tag) xs).
Proof.
  intros bw out H.
  apply (forEach_inv (encBytes tag)) in H; [apply H|].
  intros x b o. apply writeFieldBytes_inv.
Qed.

Lemma Payment_toRaw_inv (p : Payment.t) (raw : Buffer) :
  Payment.toRaw p = Ok raw ->
  raw = encPayment p
  /\ Forall (fun o => 0 <= value o /\ script o <> None) (Payment.refundTo p).
Proof.
  unfold Payment.toRaw, encPayment, ProtoWriter.new, ProtoWriter.render.
  destruct p as [md txs refund memo].
  cbn [Payment.merchantData Payment.transactions Payment.refundTo
       Payment.memo].
  intros H.
  repeat match type of H with
         | bindR ?x _ = Ok _ =>
             let E := fresh "E" in
             destruct x eqn:E; try discriminate; cbn [bindR] in H
         end.
  injection H as <-.
  apply optBytes_inv in E.
  apply forEach_writeFieldBytes_inv in E0.
  apply forEach_writeOutput_inv in E1 as [E1 Hout].
  apply optString_inv in E2.
  subst. cbn [app]. rewrite <- !app_assoc. auto.
Qed.

Lemma goodBuffers_of_encoding (tag : Z) (xs : list Buffer) :
  len (concat (map (encBytes tag) xs)) < 2 ^ 32 -> Forall goodBuffer xs.
Proof.
  intros Hlen. apply Forall_forall. intros x Hin.
  pose proof (len_concat_In (encBytes tag) x xs Hin).
  pose proof (len_encBytes tag x). unfold goodBuffer. lia.
Qed.

Lemma goodPayment_of_encoding (p : Payment.t) :
  len (encPayment p) < 2 ^ 32 ->
  Forall (fun o => 0 <= value o /\ script o <> None) (Payment.refundTo p) ->
  outputsBelowCap (Payment.refundTo p) ->
  goodPayment p.
Proof.
  intros Hlen Ho Hcap.
  unfold encPayment in Hlen. rewrite !len_app in Hlen.
  pose proof (len_nonneg (optBytes 1 (Payment.merchantData p))).
  pose proof (len_nonneg (concat (map (encBytes 2) (Payment.transactions p)))).
  pose proof (len_nonneg (concat (map (encOutput 3) (Payment.refundTo p)))).
  pose proof (len_nonneg (optString 4 (Payment.memo p))).
  unfold goodPayment. repeat split.
  - apply (validOpt_optBytes 1). lia.
  - apply (goodBuffers_of_encoding 2). lia.
  - apply (goodOutputs_of_encoding 3); [lia | trivial | trivial].
  - apply (validOpt_optBytes 4). unfold optString, optUtf8 in *. lia.
Qed.

(** X10. Round trip of [Payment]: a payment with a well-formed memo that
    [toRaw] serializes in fewer than 2^32 bytes, with refund values below
    the cap of the reader, is what decoding the bytes answers. *)
Theorem Payment_roundtrip (fuel : nat) (p : Payment.t) (raw : Buffer) :
  Payment.toRaw p = Ok raw ->
  len raw < 2 ^ 32 ->
  outputsBelowCap (Payment.refundTo p) ->
  wellFormedPayment p ->
  (length (Payment.transactions p) < fuel)%nat ->
  (length (Payment.refundTo p) < fuel)%nat ->
  Payment.decode fuel raw = Ok p.
Proof.
  intros Hraw Hlen Hcap Hwf Hf1 Hf2.
  transitivity (Ok (rereadPayment p));
    [|now rewrite rereadPayment_wellFormed].
  apply Payment_toRaw_inv in Hraw as (-> & Ho).
  unfold Payment.decode.
  apply Payment_decode_encoded; trivial.
  now apply goodPayment_of_encoding.
Qed.

(** ** PaymentACK *)

Lemma PaymentACK_decode_encoded (fuel : nat) (a : PaymentACK.t) :
  goodPayment (PaymentACK.payment a) ->
  len (encPayment (PaymentACK.payment a)) < 2 ^ 32 ->
  validOpt (optUtf8 (PaymentACK.memo a)) ->
  (length (Payment.transactions (PaymentACK.payment a)) < fuel)%nat ->
  (length (Payment.refundTo (PaymentACK.payment a)) < fuel)%nat ->
  PaymentACK.fromRaw fuel PaymentACK.create (Some (encACK a))
  = Ok (rereadACK a).
Proof.
  intros Hp Hlen Hm Hf1 Hf2.
  unfold PaymentACK.fromRaw. cbn [newProtoReader bindR].
  unfold runReader, encACK.
  destruct a as [p memo].
  cbn [PaymentACK.payment PaymentACK.memo PaymentACK.create] in *.
  assert (startsFrom 3 ([] : Buffer)) as T3 by apply startsFrom_nil.
  set (F1 := encBytes 1 (encPayment p)) in *.
  set (F2 := optString 2 memo) in *.
  set (data := F1 ++ F2).
  assert (skipn 0 data = F1 ++ F2) as S1 by reflexivity.
  pose proof (skipn_add _ _ _ _ S1) as S2.
  rewrite <- (app_nil_r F2) in S2.
  clearbody data.
  rewrite (bind_Ok _ _ _ _ _
             (readFieldBytes_present data fuel false _ 1 _ _
                ltac:(tag_side) Hlen S1)).
  unfold liftResult at 1. unfold bind at 1.
  rewrite Payment_decode_encoded by trivial.
  rewrite (bind_Ok _ _ _ _ _
             (readFieldString_optional data fuel _ 2 memo _
                ltac:(tag_side) Hm T3 S2)).
  reflexivity.
Qed.

Lemma PaymentACK_toRaw_inv (a : PaymentACK.t) (raw : Buffer) :
  PaymentACK.toRaw a = Ok raw ->
  raw = encACK a
  /\ Forall (fun o => 0 <= value o /\ script o <> None)
       (Payment.refundTo (PaymentACK.payment a)).
Proof.
  unfold PaymentACK.toRaw, encACK, ProtoWriter.new, ProtoWriter.render.
  destruct a as [p memo]. cbn [PaymentACK.payment PaymentACK.memo].
  intros H.
  repeat match type of H with
         | bindR ?x _ = Ok _ =>
             let E := fresh "E" in
             destruct x eqn:E; try discriminate; cbn [bindR] in H
         end.
  injection H as <-.
  apply Payment_toRaw_inv in E as [-> Ho].
  apply writeFieldBytes_inv in E0.
  apply optString_inv in E1.
  subst. cbn [app]. auto.
Qed.

(** X11. Round trip of [PaymentACK]: an acknowledgement with well-formed
    memos is what decoding the bytes that [toRaw] wrote answers, under the
    conditions of the round trip of its payment. *)
Theorem PaymentACK_roundtrip (fuel : nat) (a : PaymentACK.t) (raw : Buffer) :
  PaymentACK.toRaw a = Ok raw ->
  len raw < 2 ^ 32 ->
  outputsBelowCap (Payment.refundTo (PaymentACK.payment a)) ->
  wellFormedACK a ->
  (length (Payment.transactions (PaymentACK.payment a)) < fuel)%nat ->
  (length (Payment.refundTo (PaymentACK.payment a)) < fuel)%nat ->
  PaymentACK.decode fuel raw = Ok a.
Proof.
  intros Hraw Hlen Hcap Hwf Hf1 Hf2.
  transitivity (Ok (rereadACK a));
    [|now rewrite rereadACK_wellFormed].
  apply PaymentACK_toRaw_inv in Hraw as (-> & Ho).
  unfold PaymentACK.decode.
  unfold encACK in Hlen. rewrite len_app in Hlen.
  pose proof (len_encBytes 1 (encPayment (PaymentACK.payment a))).
  pose proof (len_nonneg (encBytes 1 (encPayment (PaymentACK.payment a)))).
  pose proof (len_nonneg (optString 2 (PaymentACK.memo a))).
  apply PaymentACK_decode_encoded; trivial.
  - apply goodPayment_of_encoding; [lia | trivial | trivial].
  - lia.
  - apply (validOpt_optBytes 2). unfold optString, optUtf8 in *. lia.
Qed.

(** ** PaymentRequest *)

Lemma PaymentRequest_decode_encoded (fuel : nat) (now : Z)
  (r : PaymentRequest.t) :
  goodOptNumber (PaymentRequest.version r) ->
  validOpt (optUtf8 (PaymentRequest.pkiType r)) ->
  validOpt (PaymentRequest.pkiData r) ->
  goodDetails (PaymentRequest.paymentDetails r) ->
  len (encDetails (PaymentRequest.paymentDetails r)) < 2 ^ 32 ->
  validOpt (PaymentRequest.signature r) ->
  (length (PaymentDetails.outputs (PaymentRequest.paymentDetails r)) < fuel)%nat ->
  PaymentRequest.fromRaw fuel (PaymentRequest.create now)
    (Some (encRequest r)) = Ok (rereadRequest r).
Proof.
  intros Hv Ht Hd Hpd Hlen Hs Hfuel.
  unfold PaymentRequest.fromRaw. cbn [newProtoReader bindR].
  unfold runReader, encRequest.
  destruct r as [version pkiType pkiData details signature].
  cbn [PaymentRequest.version PaymentRequest.pkiType PaymentRequest.pkiData
       PaymentRequest.paymentDetails PaymentRequest.signature
       PaymentRequest.create] in *.
  assert (startsFrom 6 ([] : Buffer)) as T6 by apply startsFrom_nil.
  assert (startsFrom 4 (encBytes 4 (encDetails details)
                        ++ optBytes 5 signature)) as T4 by starts.
  assert (startsFrom 3 (optBytes 3 pkiData ++ encBytes 4 (encDetails details)
                        ++ optBytes 5 signature)) as T3 by starts.
  assert (startsFrom 2 (optString 2 pkiType ++ optBytes 3 pkiData
                        ++ encBytes 4 (encDetails details)
                        ++ optBytes 5 signature)) as T2 by starts.
  set (F1 := optVarint 1 version) in *.
  set (F2 := optString 2 pkiType) in *.
  set (F3 := optBytes 3 pkiData) in *.
  set (F4 := encBytes 4 (encDetails details)) in *.
  set (F5 := optBytes 5 signature) in *.
  set (data := F1 ++ F2 ++ F3 ++ F4 ++ F5).
  assert (skipn 0 data = F1 ++ F2 ++ F3 ++ F4 ++ F5) as S1 by reflexivity.
  pose proof (skipn_add _ _ _ _ S1) as S2.
  pose proof (skipn_add _ _ _ _ S2) as S3.
  pose proof (skipn_add _ _ _ _ S3) as S4.
  pose proof (skipn_add _ _ _ _ S4) as S5.
  rewrite <- (app_nil_r F5) in S5.
  clearbody data.
  rewrite (bind_Ok _ _ _ _ _
             (readFieldU32_optional data fuel _ 1 version _
                ltac:(tag_side) Hv T2 S1)).
  rewrite (bind_Ok _ _ _ _ _
             (readFieldString_optional data fuel _ 2 pkiType _
                ltac:(tag_side) Ht T3 S2)).
  rewrite (bind_Ok _ _ _ _ _
             (readFieldBytes_optional data fuel _ 3 pkiData _
                ltac:(tag_side) Hd T4 S3)).
  rewrite (bind_Ok _ _ _ _ _
             (readFieldBytes_present data fuel false _ 4 _ _
                ltac:(tag_side) Hlen S4)).
  unfold liftResult at 1. unfold bind at 1.
  rewrite PaymentDetails_decode_encoded by trivial.
  rewrite (bind_Ok _ _ _ _ _
             (readFieldBytes_optional data fuel _ 5 signature _
                ltac:(tag_side) Hs T6 S5)).
  reflexivity.
Qed.

Lemma PaymentRequest_toRaw_inv (r : PaymentRequest.t) (raw : Buffer) :
  PaymentRequest.toRaw r = Ok raw ->
  raw = encRequest r
  /\ (PaymentRequest.version r = -1 \/ 0 <= PaymentRequest.version r)
  /\ exists d, PaymentDetails.toRaw (PaymentRequest.paymentDetails r) = Ok d.
Proof.
  unfold PaymentRequest.toRaw, encRequest, ProtoWriter.new,
    ProtoWriter.render, ProtoWriter.writeFieldU32.
  destruct r as [version pkiType pkiData details signature].
  cbn [PaymentRequest.version PaymentRequest.pkiType PaymentRequest.pkiData
       PaymentRequest.paymentDetails PaymentRequest.signature].
  intros H.
  repeat match type of H with
         | bindR ?x _ = Ok _ =>
             let E := fresh "E" in
             destruct x eqn:E; try discriminate; cbn [bindR] in H
         end.
  injection H as <-.
  apply optVarint_inv in E as [E Hv].
  apply optString_inv in E0.
  apply optBytes_inv in E1.
  pose proof E2 as E2'.
  apply PaymentDetails_toRaw_inv in E2 as [-> _].
  apply writeFieldBytes_inv in E3.
  apply optBytes_inv in E4.
  subst. cbn [app]. rewrite <- !app_assoc. eauto.
Qed.

(** X12. Round trip of [PaymentRequest]: a request with well-formed
    strings that [toRaw] serializes in fewer than 2^32 bytes, with a
    version and numbers of the payment details below the cap of the
    reader, is what decoding the bytes answers. *)
Theorem PaymentRequest_roundtrip (fuel : nat) (now : Z)
  (r : PaymentRequest.t) (raw : Buffer) :
  PaymentRequest.toRaw r = Ok raw ->
  len raw < 2 ^ 32 ->
  PaymentRequest.version r < cap ->
  detailsBelowCap (PaymentRequest.paymentDetails r) ->
  wellFormedRequest r ->
  (length (PaymentDetails.outputs (PaymentRequest.paymentDetails r)) < fuel)%nat ->
  PaymentRequest.decode fuel now raw = Ok r.
Proof.
  intros Hraw Hlen Hv Hcap Hwf Hfuel.
  transitivity (Ok (rereadRequest r));
    [|now rewrite rereadRequest_wellFormed].
  apply PaymentRequest_toRaw_inv in Hraw as (-> & Hv0 & d & Hd).
  apply PaymentDetails_toRaw_inv in Hd as (_ & Ht & He & Ho).
  unfold PaymentRequest.decode.
  unfold encRequest in Hlen. rewrite !len_app in Hlen.
  pose proof (len_nonneg (optVarint 1 (PaymentRequest.version r))).
  pose proof (len_nonneg (optString 2 (PaymentRequest.pkiType r))).
  pose proof (len_nonneg (optBytes 3 (PaymentRequest.pkiData r))).
  pose proof (len_nonneg
                (encBytes 4 (encDetails (PaymentRequest.paymentDetails r)))).
  pose proof (len_encBytes 4 (encDetails (PaymentRequest.paymentDetails r))).
  pose proof (len_nonneg (optBytes 5 (PaymentRequest.signature r))).
  apply PaymentRequest_decode_encoded; trivial.
  - unfold goodOptNumber, cap in *. lia.
  - apply (validOpt_optBytes 2). unfold optString, optUtf8 in *. lia.
  - apply (validOpt_optBytes 3). lia.
  - apply goodDetails_of_encoding; trivial. lia.
  - lia.
  - apply (validOpt_optBytes 5). lia.
Qed.

(** The hypotheses hold of the signed request of the examples. *)
Example signedRequest_roundtrip :
  exists raw,
    PaymentRequest.toRaw signedRequest = Ok raw
    /\ PaymentRequest.decode 2 0 raw = Ok signedRequest.
Proof.
  eexists. split; [vm_compute; reflexivity|].
  apply PaymentRequest_roundtrip.
  - reflexivity.
  - reflexivity.
  - reflexivity.
  - repeat split. repeat constructor.
  - repeat split.
  - simpl. lia.
Defined.

(** ** What the cap of the reader breaks *)

(** Claim C3 fails on the code. A [PaymentDetails] with an output of
    2^42 is encoded, with its value in seven groups, and the decoder fails
    on these bytes with the assertion of [_readVarint]. *)
Theorem PaymentDetails_roundtrip_fails_at_cap (fuel : nat) (now : Z) :
  PaymentDetails.toRaw largeOutputDetails = Ok largeOutputRaw
  /\ PaymentDetails.decode (S (S fuel)) now largeOutputRaw
     = Throw (AssertionError "Number exceeds 2^53-1.").
Proof. split; reflexivity. Qed.

(** ** Sentinels and absent fields are not written *)

Lemma absent_fields_not_written :
  (forall tag, optVarint tag (-1) = [])
  /\ (forall tag, optString tag None = [])
  /\ (forall tag, optBytes tag None = []).
Proof. repeat split. Qed.

(** A required field is never answered as [null]. *)
Lemma readField_required (data : Buffer) (fuel : nat) (tag : option Z)
  (off off' : nat) :
  readField data fuel tag false off <> (Ok None, off').
Proof.
  rewrite readField_eq. unfold bind at 1, get. unfold bind at 1.
  destruct (readVarint data off) as [[h| |] o]; try discriminate.
  destruct (match tag with
            | Some t => negb (ftag (newField h) =? t)
            | None => false
            end); [discriminate|].
  unfold bind at 1.
  match goal with
  | |- (let (r, s') := ?m in _) <> _ => destruct m as [[f| |] s]
  end; discriminate.
Qed.

Lemma readFieldBytes_required (data : Buffer) (fuel : nat) (tag : Z)
  (off off' : nat) :
  readFieldBytes data fuel tag false off <> (Ok None, off').
Proof.
  unfold readFieldBytes, bind.
  pose proof (readField_required data fuel (Some tag) off) as H.
  destruct (readField data fuel (Some tag) false off) as [[[f|]| |] s];
    try discriminate.
  - destruct (fdata f); discriminate.
  - exfalso. now apply (H s).
Qed.

(** ** A group that never ends *)

(** At the end of a buffer, [readField()] answers a field of size zero:
    the header and the value are the zero of a truncated varint. *)
Lemma readField_at_end (data : Buffer) (fuel : nat) (off : nat) :
  skipn off data = [] ->
  readField data fuel None false off =
  (Ok (Some (mkField 0 0 0 0 None None)), off).
Proof.
  intros Hsk. rewrite readField_eq.
  unfold bind at 1, get. unfold bind at 1.
  rewrite readVarint_run. unfold _readVarint. rewrite Hsk.
  cbn [readVarintLoop vvalue vsize]. rewrite Nat.add_0_r.
  change (newField 0) with (mkField 0 0 0 0 None None). cbn [ftype ftag].
  unfold bind at 1. unfold bind at 1.
  rewrite readVarint_run. unfold _readVarint. rewrite Hsk.
  cbn [readVarintLoop vvalue vsize]. rewrite Nat.add_0_r.
  unfold ret, bind, get. cbn [setValue setSize ftag ftype fsize fvalue fdata fgroup].
  now rewrite Nat.sub_diag.
Qed.

(** A start-group header as the last byte: the [for (;;)] loop of the group
    reads fields of size zero for ever. Whatever the budget, it is used up. *)
Lemma readField_start_group_at_end (data : Buffer) (fuel : nat)
  (expected : option Z) (opt : bool) (off : nat) (tag : Z) :
  validTag tag ->
  expected = None \/ expected = Some tag ->
  skipn off data = [byteOf (tag * 8 + wireType.START_GROUP)] ->
  readField data fuel expected opt off = (OutOfFuel, S off).
Proof.
  intros Ht Hexp Hsk.
  assert (ProtoWriter.encodeVarint (tag * 8 + 3) = [byteOf (tag * 8 + 3)])
    as Henc.
  { unfold ProtoWriter.encodeVarint. cbn [ProtoWriter.varintGroups].
    replace (tag * 8 + 3 <? 128) with true; [reflexivity|].
    symmetry. apply Z.ltb_lt. unfold validTag in Ht. lia. }
  assert (readVarint data off = (Ok (tag * 8 + 3), S off)) as Hh.
  { rewrite (readVarint_encodeVarint data off (tag * 8 + 3) []).
    - rewrite Henc. cbn [length]. f_equal. lia.
    - unfold validTag in Ht. lia.
    - rewrite Henc. exact Hsk. }
  assert (skipn (S off) data = []) as Hend.
  { replace (S off) with (off + length [byteOf (tag * 8 + 3)])%nat
      by (cbn; lia).
    apply skipn_add. now rewrite app_nil_r. }
  rewrite readField_eq.
  unfold bind at 1, get. rewrite (bind_Ok _ _ _ _ _ Hh).
  rewrite newField_header by (unfold validTag in Ht; lia).
  cbn [ftag ftype].
  replace (match expected with
           | Some t => negb (tag =? t)
           | None => false
           end) with false
    by (destruct Hexp as [-> | ->]; [reflexivity | now rewrite Z.eqb_refl]).
  destruct fuel as [|fuel]; [reflexivity|].
  unfold bind at 1. unfold bind at 1.
  match goal with
  | |- context [(fix loop (n : nat) (group : list Field) {struct n} := _) fuel []] =>
      assert (forall n group,
                (fix loop (n : nat) (group : list Field) {struct n}
                   : Reader (list Field) :=
                   match n with
                   | O => outOfFuel
                   | S n' =>
                       inner <- readField data fuel None false ;;
                       match inner with
                       | None =>
                           throw (TypeError "Cannot read properties of null")
                       | Some f =>
                           if ftype f =? wireType.END_GROUP
                           then ret group
                           else loop n' (group ++ [f])
                       end
                   end) n group (S off) = (OutOfFuel, S off)) as Hloop
  end.
  { induction n as [|n IH]; intros group; [reflexivity|].
    rewrite (bind_Ok _ _ _ _ _ (readField_at_end data fuel (S off) Hend)).
    cbn [ftype]. apply IH. }
  rewrite Hloop. reflexivity.
Qed.

Lemma bind_OutOfFuel {S A B} (m : M S A) (k : A -> M S B) (s s' : S) :
  m s = (OutOfFuel, s') -> bind m k s = (OutOfFuel, s').
Proof. intros H. unfold bind. now rewrite H. Qed.

(** On a [pkiData] that is a start-group header, neither [getChain] nor
    the two predicates return, whatever the budget. *)
Lemma getChain_start_group_never_returns (fuel : nat) :
  getChain fuel startGroupRequest = (OutOfFuel, startGroupRequest).
Proof.
  unfold getChain, bind at 1, get. cbn [pkiData startGroupRequest].
  unfold liftResult, runReader. f_equal.
  destruct fuel as [|fuel]; [reflexivity|]. cbn [whileNextTag].
  assert (nextTag [x0b] (S fuel) 0%nat = (OutOfFuel, 1%nat)) as Hnt.
  { unfold nextTag.
    rewrite (bind_Ok _ _ 0%nat 0%nat 1%nat) by reflexivity.
    cbn [Nat.eqb].
    apply bind_OutOfFuel.
    apply (readField_start_group_at_end [x0b] (S fuel) None false 0 1);
      [unfold validTag; lia | now left | reflexivity]. }
  now rewrite (bind_OutOfFuel _ _ _ _ Hnt).
Qed.

Lemma verifyChain_start_group_never_returns
  (x509_verifyChain : list Buffer -> option bool) (fuel : nat) :
  verifyChain x509_verifyChain fuel startGroupRequest =
  (OutOfFuel, startGroupRequest).
Proof.
  unfold verifyChain.
  rewrite (bind_Ok _ _ _ _ _ (eq_refl : get startGroupRequest = _)).
  change (falsy (pkiType startGroupRequest)
          || strictEq (pkiType startGroupRequest) "none") with false.
  cbv iota. unfold tryCatch.
  now rewrite (bind_OutOfFuel _ _ _ _
                 (getChain_start_group_never_returns fuel)).
Qed.

Lemma verify_start_group_never_returns
  (verifySubject : string -> Buffer -> option Buffer -> list Buffer -> option bool)
  (fuel : nat) :
  verify verifySubject fuel startGroupRequest =
  (OutOfFuel, startGroupRequest).
Proof.
  unfold verify.
  rewrite (bind_Ok _ _ _ _ _ (eq_refl : get startGroupRequest = _)).
  change (falsy (pkiType startGroupRequest)
          || strictEq (pkiType startGroupRequest) "none") with false.
  cbv iota.
  change (signature startGroupRequest) with (Some [x00]). cbv iota.
  rewrite (bind_Ok _ _ startGroupRequest startGroupRequest
             (Some (mkAlgorithm "x509" "sha256"))) by reflexivity.
  assert (exists msg,
            signatureData startGroupRequest = (Ok msg, startGroupRequest))
    as [msg Hsd] by (eexists; vm_compute; reflexivity).
  rewrite (bind_Ok _ _ _ _ _ Hsd).
  rewrite (bind_Ok _ _ _ _ _ (eq_refl : get startGroupRequest = _)).
  now rewrite (bind_OutOfFuel _ _ _ _
                 (getChain_start_group_never_returns fuel)).
Qed.

(** ** What the reader answers, whatever the bytes *)

Lemma readVarintLoop_bounds (rest : Buffer) :
  forall (num : Z) (size : nat) (v : Varint),
    (size <= 6)%nat ->
    0 <= num < 2 ^ (7 * Z.of_nat size) ->
    readVarintLoop rest num size = Ok v ->
    (size <= vsize v <= size + length rest)%nat
    /\ (vsize v <= 6)%nat
    /\ 0 <= vvalue v < 2 ^ (7 * Z.of_nat (vsize v))
    /\ (vsize v = size -> rest = []).
Proof.
  induction rest as [|b rest IH]; intros num size v Hsize Hnum H.
  - cbn in H. assert (v = mkVarint size 0) as -> by congruence.
    cbn [vsize vvalue length].
    repeat split; try lia.
  - rewrite readVarintLoop_step in H. unfold assert in H.
    destruct (Z.of_nat (S size) <? 7) eqn:E; [|discriminate].
    apply Z.ltb_lt in E.
    pose proof (byteZ_range b) as Hb.
    assert (0 <= byteZ b mod 128 < 128) as Hm
      by (apply Z.mod_pos_bound; lia).
    assert (0 <= num + byteZ b mod 128 * 2 ^ (7 * Z.of_nat size)
            < 2 ^ (7 * Z.of_nat (S size))) as Hnum'.
    { replace (7 * Z.of_nat (S size)) with (7 * Z.of_nat size + 7) by lia.
      rewrite Z.pow_add_r by lia. change (2 ^ 7) with 128.
      assert (0 < 2 ^ (7 * Z.of_nat size)) by (apply Z.pow_pos_nonneg; lia).
      nia. }
    destruct (Z.land (byteZ b) 128 =? 0).
    + assert (v = mkVarint (S size)
                    (num + byteZ b mod 128 * 2 ^ (7 * Z.of_nat size)))
        as -> by congruence.
      cbn [vsize vvalue length].
      repeat split; try lia; intros Heq; exfalso; lia.
    + apply IH in H; [|lia|exact Hnum'].
      destruct H as (H1 & H2 & H3 & H4). cbn [length].
      repeat split; try lia; intros Heq; exfalso; lia.
Qed.

Lemma _readVarint_inv (data : Buffer) (off : nat) (v : Varint) :
  _readVarint data off = Ok v ->
  (vsize v <= 6)%nat
  /\ (vsize v <= length data - off)%nat
  /\ 0 <= vvalue v < 2 ^ (7 * Z.of_nat (vsize v))
  /\ (vsize v = 0%nat -> (length data <= off)%nat).
Proof.
  unfold _readVarint. intros H.
  apply readVarintLoop_bounds in H; [|lia|cbn; lia].
  destruct H as (H1 & H2 & H3 & H4).
  rewrite length_skipn in H1.
  repeat split; try lia.
  intros Hz. specialize (H4 Hz).
  apply (f_equal (@length _)) in H4. rewrite length_skipn in H4.
  cbn in H4. lia.
Qed.

(** X1. Whatever the bytes, a varint that [_readVarint] answers has at
    most six groups, all of them inside the buffer, and a value from 0 up
    to, and not including, 2^(7 * groups), so below 2^42; it has no group
    only at the end of the buffer. *)
Theorem _readVarint_answer_bounds (data : Buffer) (off : nat) (v : Varint) :
  _readVarint data off = Ok v ->
  (vsize v <= 6)%nat
  /\ (off + vsize v <= Nat.max off (length data))%nat
  /\ 0 <= vvalue v < 2 ^ (7 * Z.of_nat (vsize v))
  /\ vvalue v < cap
  /\ (vsize v = 0%nat <-> (length data <= off)%nat).
Proof.
  intros H. pose proof (_readVarint_inv _ _ _ H) as (H1 & H2 & H3 & H4).
  assert (2 ^ (7 * Z.of_nat (vsize v)) <= 2 ^ 42) as Hp
    by (apply Z.pow_le_mono_r; lia).
  split; [exact H1|]. split; [lia|]. split; [exact H3|].
  split; [unfold cap; lia|]. split; [exact H4 | lia].
Qed.

Lemma _readVarint_answer_bounds_witness :
  _readVarint [x96; x01] 0 = Ok (mkVarint 2 150)
  /\ (2 <= 6)%nat /\ 150 < cap.
Proof.
  split; [reflexivity|].
  pose proof (_readVarint_answer_bounds [x96; x01] 0 (mkVarint 2 150)
                eq_refl) as (H1 & _ & _ & H4 & _).
  split; [exact H1 | exact H4].
Defined.
Lemma pair_inv {A B} (a c : A) (b d : B) : (a, b) = (c, d) -> a = c /\ b = d.
Proof. intros H. split; congruence. Qed.

Lemma Ok_inv {A} (a b : A) : Ok a = Ok b -> a = b.
Proof. congruence. Qed.

Lemma cursorMoved_refl (data : Buffer) (off : nat) : cursorMoved data off off.
Proof. split; auto. Qed.

Lemma cursorMoved_trans (data : Buffer) (a b c : nat) :
  cursorMoved data a b -> cursorMoved data b c -> cursorMoved data a c.
Proof. unfold cursorMoved. intros [H1 H2] [H3 H4]. split; [lia | auto]. Qed.

Lemma readVarint_cursor (data : Buffer) (off : nat) (r : result Z)
  (off' : nat) :
  readVarint data off = (r, off') ->
  cursorMoved data off off'
  /\ (forall v, r = Ok v -> 0 <= v < 2 ^ 42).
Proof.
  rewrite readVarint_run.
  destruct (_readVarint data off) as [v| |] eqn:E; intros H;
    apply pair_inv in H as [<- <-];
    try (split; [apply cursorMoved_refl | discriminate]).
  apply _readVarint_inv in E as (H1 & H2 & H3 & H4).
  split; [split; lia|].
  intros v' Hv. apply Ok_inv in Hv as <-.
  assert (2 ^ (7 * Z.of_nat (vsize v)) <= 2 ^ 42)
    by (apply Z.pow_le_mono_r; lia).
  lia.
Qed.

Lemma littleEndian_bound (bs : Buffer) :
  0 <= littleEndian bs < 256 ^ Z.of_nat (length bs).
Proof.
  induction bs as [|b bs IH].
  - cbn. lia.
  - cbn [littleEndian length]. pose proof (byteZ_range b).
    rewrite Nat2Z.inj_succ, Z.pow_succ_r by lia. lia.
Qed.

Lemma littleEndian_4 (bs : Buffer) :
  0 <= littleEndian (firstn 4 bs) < 2 ^ 32.
Proof.
  pose proof (littleEndian_bound (firstn 4 bs)) as H.
  pose proof (length_firstn 4 bs) as Hl.
  assert (256 ^ Z.of_nat (length (firstn 4 bs)) <= 256 ^ 4)
    by (apply Z.pow_le_mono_r; lia).
  change (256 ^ 4) with (2 ^ 32) in *. lia.
Qed.

Lemma readBytes_cursor (data : Buffer) (size : Z) (off : nat)
  (r : result Buffer) (off' : nat) :
  readBytes data size off = (r, off') ->
  cursorMoved data off off'
  /\ (forall d, r = Ok d -> len d < 2 ^ 32).
Proof.
  unfold readBytes.
  destruct (negb (JS.ushr size 0 =? size)) eqn:E.
  - intros H. apply pair_inv in H as [<- <-]. split; [apply cursorMoved_refl|].
    discriminate.
  - apply negb_false_iff, Z.eqb_eq in E.
    unfold check, bind, get, ret, throw, put.
    destruct (length data <? off + Z.to_nat size)%nat eqn:E2;
      intros H; apply pair_inv in H as [<- <-].
    + split; [apply cursorMoved_refl | discriminate].
    + apply Nat.ltb_ge in E2. split; [split; lia|].
      intros d Hd. apply Ok_inv in Hd as <-.
      unfold len. rewrite length_firstn.
      assert (0 <= size < 2 ^ 32).
      { rewrite <- E. unfold JS.ushr, JS.ToUint32.
        change (0 mod 2 ^ 32 mod 32) with 0. rewrite Z.shiftr_0_r.
        apply Z.mod_pos_bound. lia. }
      lia.
Qed.

Lemma readVarBytes_cursor (data : Buffer) (off : nat)
  (r : result Buffer) (off' : nat) :
  readVarBytes data off = (r, off') ->
  cursorMoved data off off'
  /\ (forall d, r = Ok d -> len d < 2 ^ 32).
Proof.
  unfold readVarBytes, bind.
  destruct (readVarint data off) as [[n| |] o] eqn:E;
    apply readVarint_cursor in E as [E _]; intros H.
  - apply readBytes_cursor in H as [H1 H2].
    split; [eapply cursorMoved_trans; eassumption | exact H2].
  - apply pair_inv in H as [<- <-]. split; [exact E | discriminate].
  - apply pair_inv in H as [<- <-]. split; [exact E | discriminate].
Qed.

Lemma readU32_cursor (data : Buffer) (off : nat) (r : result Z)
  (off' : nat) :
  readU32 data off = (r, off') ->
  cursorMoved data off off'
  /\ (forall v, r = Ok v -> 0 <= v < 2 ^ 32).
Proof.
  unfold readU32, check, bind, get, ret, throw, put.
  destruct (length data <? off + 4)%nat eqn:E2;
    intros H; apply pair_inv in H as [<- <-].
  - split; [apply cursorMoved_refl | discriminate].
  - apply Nat.ltb_ge in E2. split; [split; lia|].
    intros v Hv.
    apply Ok_inv in Hv as <-.
    apply littleEndian_4.
Qed.

(** [hi & 0xffe00000] is zero only for a [hi] below 2^21. *)
Lemma band_high_bits (hi : Z) :
  0 <= hi < 2 ^ 32 -> JS.band hi 0xffe00000 = 0 -> hi < 2 ^ 21.
Proof.
  intros Hhi H. unfold JS.band in H.
  change (JS.ToInt32 0xffe00000) with (Z.lnot (Z.ones 21)) in H.
  rewrite <- Z.ldiff_land, Z.ldiff_ones_r in H by lia.
  apply Z.shiftl_eq_0_iff in H; [|lia].
  rewrite Z.shiftr_div_pow2 in H by lia.
  unfold JS.ToInt32 in H. rewrite Z.mod_small in H by lia.
  destruct (hi <? 2 ^ 31) eqn:E.
  - apply Z.div_small_iff in H; lia.
  - apply Z.ltb_ge in E. apply Z.div_small_iff in H; lia.
Qed.

Lemma readU64_cursor (data : Buffer) (off : nat) (r : result Z)
  (off' : nat) :
  readU64 data off = (r, off') ->
  cursorMoved data off off'
  /\ (forall v, r = Ok v -> 0 <= v < 2 ^ 53).
Proof.
  unfold readU64, check, bind, get, ret, throw, put.
  destruct (length data <? off + 8)%nat eqn:E2.
  - intros H; apply pair_inv in H as [<- <-].
    split; [apply cursorMoved_refl | discriminate].
  - apply Nat.ltb_ge in E2.
    pose proof (littleEndian_4 (skipn off data)) as Hlo.
    pose proof (littleEndian_4 (skipn (off + 4) data)) as Hhi.
    destruct (negb (JS.band (littleEndian (firstn 4 (skipn (off + 4) data)))
                      0xffe00000 =? 0)) eqn:E;
      intros H; apply pair_inv in H as [<- <-].
    + split; [apply cursorMoved_refl | discriminate].
    + apply negb_false_iff, Z.eqb_eq in E.
      apply band_high_bits in E; [|exact Hhi].
      split; [split; lia|].
      intros v Hv.
      apply Ok_inv in Hv as <-.
      change 0x100000000 with (2 ^ 32).
      change (2 ^ 53) with (2 ^ 21 * 2 ^ 32). nia.
Qed.

Lemma band_7_cases (h : Z) :
  JS.band h 7 = 0 \/ JS.band h 7 = 1 \/ JS.band h 7 = 2 \/ JS.band h 7 = 3
  \/ JS.band h 7 = 4 \/ JS.band h 7 = 5 \/ JS.band h 7 = 6 \/ JS.band h 7 = 7.
Proof.
  unfold JS.band. change (JS.ToInt32 7) with (Z.ones 3).
  rewrite Z.land_ones by lia.
  pose proof (Z.mod_pos_bound (JS.ToInt32 h) (2 ^ 3) ltac:(lia)). 
  change (2 ^ 3) with 8 in *. lia.
Qed.
Lemma fieldContent_setSize (f : Field) (n : nat) :
  fieldContent f -> fieldContent (setSize f n).
Proof. destruct f as [a b c d e g]. exact (fun H => H). Qed.

Lemma fieldContent_setValue (h v : Z) :
  (JS.band h 7 = 0 /\ 0 <= v < 2 ^ 42)
  \/ (JS.band h 7 = 1 /\ 0 <= v < 2 ^ 53)
  \/ (JS.band h 7 = 5 /\ 0 <= v < 2 ^ 32) ->
  fieldContent (setValue (newField h) v).
Proof.
  unfold fieldContent, plainType, wireType.VARINT, wireType.FIXED64,
    wireType.DELIMITED, wireType.FIXED32.
  cbn [setValue newField ftype fvalue fdata fgroup ftag fsize].
  intros [[E H]|[[E H]|[E H]]]; rewrite E;
    (split; [lia|]); (split; [reflexivity|]);
    repeat split; intros; try lia; try discriminate.
Qed.

Lemma fieldContent_setData (h : Z) (d : Buffer) :
  JS.band h 7 = 2 -> len d < 2 ^ 32 ->
  fieldContent (setData (newField h) d).
Proof.
  unfold fieldContent, plainType, wireType.VARINT, wireType.FIXED64,
    wireType.DELIMITED, wireType.FIXED32.
  cbn [setData newField ftype fvalue fdata fgroup ftag fsize].
  intros E H; rewrite E.
  (split; [lia|]); (split; [reflexivity|]).
  repeat split; intros; try lia; try discriminate.
  exists d. split; [reflexivity | exact H].
Qed.

Lemma readField_fieldAnswer_step (data : Buffer) (fuel : nat) :
  (forall fuel', fuel = S fuel' ->
     forall tag opt off r off',
       readField data fuel' tag opt off = (r, off') ->
       fieldAnswer data tag opt off r off') ->
  forall tag opt off r off',
    readField data fuel tag opt off = (r, off') ->
    fieldAnswer data tag opt off r off'.
Proof.
  intros IH tag opt off r off' H.
  rewrite readField_eq in H.
  unfold bind at 1, get in H. unfold bind at 1 in H.
  destruct (readVarint data off) as [[h| |] o1] eqn:Eh;
    apply readVarint_cursor in Eh as [Hc1 Hh];
    try (apply pair_inv in H as [<- <-]; split; [exact Hc1 | exact I]).
  destruct (match tag with
            | Some t => negb (ftag (newField h) =? t)
            | None => false
            end) eqn:Etag.
  - destruct opt; unfold bind, assertM, ret, throw, put in H;
      apply pair_inv in H as [<- <-].
    + split; [apply cursorMoved_refl|].
      split; [reflexivity|]. split; [reflexivity|].
      destruct tag; discriminate.
    + split; [exact Hc1 | exact I].
  - assert (forall t, tag = Some t -> ftag (newField h) = t) as Htag.
    { intros t ->. apply negb_false_iff, Z.eqb_eq in Etag. exact Etag. }
    clear Etag.
    unfold bind at 1 in H.
    match type of H with
    | (let (r0, s') := ?m in _) = _ =>
        assert (forall rs o2, m = (rs, o2) ->
                  cursorMoved data o1 o2
                  /\ match rs with
                     | Ok fld =>
                         fieldContent fld /\ ftag fld = ftag (newField h)
                     | _ => True
                     end) as Hsw;
        [|destruct m as [[fld| |] o2] eqn:Esw;
          destruct (Hsw _ _ eq_refl) as [Hc2 Hfld]]
    end.
    + intros rs o2 Esw.
      change (ftype (newField h)) with (JS.band h 7) in Esw.
      destruct (band_7_cases h) as [E|[E|[E|[E|[E|[E|[E|E]]]]]]];
        rewrite E in Esw; cbv beta iota in Esw.
      * unfold bind at 1 in Esw.
        destruct (readVarint data o1) as [[v| |] o] eqn:Ev;
          apply readVarint_cursor in Ev as [Hc Hv];
          apply pair_inv in Esw as [<- <-]; (split; [exact Hc|]);
          try exact I.
        split; [|reflexivity].
        apply fieldContent_setValue. left. split; [exact E | now apply Hv].
      * unfold bind at 1 in Esw.
        destruct (readU64 data o1) as [[v| |] o] eqn:Ev;
          apply readU64_cursor in Ev as [Hc Hv];
          apply pair_inv in Esw as [<- <-]; (split; [exact Hc|]);
          try exact I.
        split; [|reflexivity].
        apply fieldContent_setValue. right. left.
        split; [exact E | now apply Hv].
      * unfold bind at 1 in Esw.
        destruct (readVarBytes data o1) as [[d| |] o] eqn:Ev;
          apply readVarBytes_cursor in Ev as [Hc Hv];
          apply pair_inv in Esw as [<- <-]; (split; [exact Hc|]);
          try exact I.
        split; [|reflexivity].
        apply fieldContent_setData; [exact E | now apply Hv].
      * destruct fuel as [|fuel'].
        { apply pair_inv in Esw as [<- <-].
          split; [apply cursorMoved_refl | exact I]. }
        specialize (IH fuel' eq_refl).
        assert (forall n group o rg o',
                  (fix loop (n : nat) (group : list Field) {struct n}
                     : Reader (list Field) :=
                     match n with
                     | O => outOfFuel
                     | S n' =>
                         inner <- readField data fuel' None false ;;
                         match inner with
                         | None =>
                             throw (TypeError "Cannot read properties of null")
                         | Some f =>
                             if ftype f =? wireType.END_GROUP
                             then ret group
                             else loop n' (group ++ [f])
                         end
                     end) n group o = (rg, o') ->
                  cursorMoved data o o' /\ forall g, rg <> Ok g) as Hloop.
        { induction n as [|n IHn]; intros group o rg o' Hl.
          - apply pair_inv in Hl as [<- <-].
            split; [apply cursorMoved_refl | discriminate].
          - cbv beta iota fix in Hl. unfold bind at 1 in Hl.
            destruct (readField data fuel' None false o)
              as [[[f|]| |] o3] eqn:Ef;
              apply IH in Ef as [Hc Hf].
            + destruct Hf as (_ & (Hp & _) & _).
              replace (ftype f =? wireType.END_GROUP) with false in Hl.
              * apply IHn in Hl as [Hc' Hno].
                split; [eapply cursorMoved_trans; eassumption | exact Hno].
              * symmetry. apply Z.eqb_neq.
                unfold plainType, wireType.VARINT, wireType.FIXED64,
                  wireType.DELIMITED, wireType.FIXED32,
                  wireType.END_GROUP in *. lia.
            + apply pair_inv in Hl as [<- <-].
              split; [exact Hc | discriminate].
            + apply pair_inv in Hl as [<- <-].
              split; [exact Hc | discriminate].
            + apply pair_inv in Hl as [<- <-].
              split; [exact Hc | discriminate]. }
        unfold bind at 1 in Esw.
        match type of Esw with
        | (let (r0, s') := ?m in _) = _ =>
            destruct m as [[g| |] o] eqn:El;
              apply Hloop in El as [Hc Hno]
        end.
        { exfalso. now apply (Hno g). }
        { apply pair_inv in Esw as [<- <-]. split; [exact Hc | exact I]. }
        { apply pair_inv in Esw as [<- <-]. split; [exact Hc | exact I]. }
      * apply pair_inv in Esw as [<- <-].
        split; [apply cursorMoved_refl | exact I].
      * unfold bind at 1 in Esw.
        destruct (readU32 data o1) as [[v| |] o] eqn:Ev;
          apply readU32_cursor in Ev as [Hc Hv];
          apply pair_inv in Esw as [<- <-]; (split; [exact Hc|]);
          try exact I.
        split; [|reflexivity].
        apply fieldContent_setValue. right. right.
        split; [exact E | now apply Hv].
      * apply pair_inv in Esw as [<- <-].
        split; [apply cursorMoved_refl | exact I].
      * apply pair_inv in Esw as [<- <-].
        split; [apply cursorMoved_refl | exact I].
    + unfold bind, get, ret in H. apply pair_inv in H as [<- <-].
      destruct Hfld as [Hfc Hft].
      pose proof (cursorMoved_trans _ _ _ _ Hc1 Hc2) as Hc.
      split; [exact Hc|].
      split; [|split].
      * destruct fld as [a b c d e g]. cbn [setSize fsize]. destruct Hc. lia.
      * now apply fieldContent_setSize.
      * intros t Ht. destruct fld as [a b c d e g]. cbn [setSize ftag] in *.
        rewrite Hft. now apply Htag.
    + apply pair_inv in H as [<- <-].
      split; [eapply cursorMoved_trans; eassumption | exact I].
    + apply pair_inv in H as [<- <-].
      split; [eapply cursorMoved_trans; eassumption | exact I].
Qed.

Lemma readField_fieldAnswer (data : Buffer) (fuel : nat) :
  forall tag opt off r off',
    readField data fuel tag opt off = (r, off') ->
    fieldAnswer data tag opt off r off'.
Proof.
  induction fuel as [|fuel IH]; apply readField_fieldAnswer_step.
  - discriminate.
  - intros fuel' E. injection E as <-. exact IH.
Qed.
(** X2. Whatever the bytes and the budget, a field that [readField]
    answers has the wire type 0, 1, 2 or 5 and no group, a number within
    the range of its wire type and data exactly for the wire type 2. A
    field of the start-group wire type is never answered: the end-group
    header that would end its loop raises in the inner call. *)
Theorem readField_answers_plain_fields (data : Buffer) (fuel : nat)
  (tag : option Z) (opt : bool) (off off' : nat) (f : Field) :
  readField data fuel tag opt off = (Ok (Some f), off') ->
  (ftype f = 0 \/ ftype f = 1 \/ ftype f = 2 \/ ftype f = 5)
  /\ fgroup f = None
  /\ 0 <= fvalue f < 2 ^ 53
  /\ (ftype f = 0 -> fvalue f < 2 ^ 42)
  /\ (ftype f = 5 -> fvalue f < 2 ^ 32)
  /\ (ftype f = 2 <-> exists d, fdata f = Some d)
  /\ (forall t, tag = Some t -> ftag f = t).
Proof.
  intros H. apply readField_fieldAnswer in H as (_ & _ & Hc & Ht).
  destruct Hc as (Hp & Hg & H0 & H1 & H5 & H2 & Hn).
  unfold plainType, wireType.VARINT, wireType.FIXED64, wireType.DELIMITED,
    wireType.FIXED32 in *.
  split; [exact Hp|]. split; [exact Hg|].
  split; [destruct Hp as [E|[E|[E|E]]]; lia|].
  split; [intros E; apply H0 in E; lia|].
  split; [intros E; apply H5 in E; lia|].
  split; [|exact Ht].
  split.
  - intros E. destruct (H2 E) as (_ & d & Hd & _). now exists d.
  - intros [d Hd]. destruct (Z.eq_dec (ftype f) 2) as [E|E]; [exact E|].
    rewrite (Hn E) in Hd. discriminate.
Qed.

Lemma readField_answers_plain_fields_witness :
  readField [x08; x96; x01] 0%nat (Some 1) false 0%nat
  = (Ok (Some (mkField 1 0 3 150 None None)), 3%nat)
  /\ fgroup (mkField 1 0 3 150 None None) = None.
Proof.
  split; [reflexivity|].
  exact (proj1 (proj2 (readField_answers_plain_fields
                         [x08; x96; x01] 0%nat (Some 1) false 0%nat 3%nat
                         (mkField 1 0 3 150 None None) eq_refl))).
Defined.

(** X3. Whatever the bytes, [readField] never moves the cursor backwards
    and never moves it from inside the buffer to beyond its end, also when
    it raises; when it answers a field the cursor has advanced by exactly
    the [size] of the field, and when it answers [null] the field was
    optional and the cursor is where it was. *)
Theorem readField_cursor (data : Buffer) (fuel : nat) (tag : option Z)
  (opt : bool) (off : nat) (r : result (option Field)) (off' : nat) :
  readField data fuel tag opt off = (r, off') ->
  (off <= off')%nat
  /\ ((off <= length data)%nat -> (off' <= length data)%nat)
  /\ (forall f, r = Ok (Some f) -> off' = (off + fsize f)%nat)
  /\ (r = Ok None -> off' = off /\ opt = true).
Proof.
  intros H. apply readField_fieldAnswer in H as ([H1 H2] & H3).
  split; [exact H1|]. split; [exact H2|]. split.
  - intros f ->. apply H3.
  - intros ->. destruct H3 as (H3 & H4 & _). now split.
Qed.

Lemma readField_cursor_witness :
  readField [x08; x96; x01; x12] 0%nat (Some 1) false 0%nat
  = (Ok (Some (mkField 1 0 3 150 None None)), 3%nat)
  /\ (0 <= 3)%nat.
Proof.
  split; [reflexivity|].
  exact (proj1 (readField_cursor [x08; x96; x01; x12] 0%nat (Some 1) false 0%nat
                  _ 3%nat eq_refl)).
Defined.

Lemma ushr_3_nonneg (h : Z) : 0 <= JS.ushr h 3.
Proof.
  unfold JS.ushr. apply Z.shiftr_nonneg. unfold JS.ToUint32.
  apply Z.mod_pos_bound. lia.
Qed.

(** The tag of a field that [readField] answers is that of the header at
    the cursor, [header >>> 3]. *)
Lemma readField_tag_header (data : Buffer) (fuel : nat) (tag : option Z)
  (opt : bool) (off off' : nat) (f : Field) :
  readField data fuel tag opt off = (Ok (Some f), off') ->
  exists v, _readVarint data off = Ok v /\ ftag f = JS.ushr (vvalue v) 3.
Proof.
  intros H. rewrite readField_eq in H.
  unfold bind at 1, get in H. unfold bind at 1 in H.
  rewrite readVarint_run in H.
  destruct (_readVarint data off) as [v| |] eqn:Ev; try discriminate.
  exists v. split; [reflexivity|].
  set (h := vvalue v) in *. set (o1 := (off + vsize v)%nat) in *.
  destruct (match tag with
            | Some t => negb (ftag (newField h) =? t)
            | None => false
            end).
  - destruct opt; discriminate.
  - unfold bind at 1 in H.
    match type of H with
    | (let (r0, s') := ?m in _) = _ =>
        assert (forall fld o2, m = (Ok fld, o2) -> ftag fld = JS.ushr h 3)
          as Hsw;
        [|destruct m as [[fld| |] o2] eqn:Esw; try discriminate;
          specialize (Hsw _ _ eq_refl)]
    end.
    + intros fld o2 Esw.
      assert (forall {A} (m : Reader A) (k : A -> Field),
                (forall a, ftag (k a) = ftag (newField h)) ->
                (x <- m ;; ret (k x)) o1 = (Ok fld, o2) ->
                ftag fld = JS.ushr h 3) as Hk.
      { intros A m k Hk. unfold bind, ret.
        destruct (m o1) as [[a| |] o]; try discriminate.
        intros E. apply pair_inv in E as [E _]. apply Ok_inv in E as <-.
        rewrite Hk. reflexivity. }
      change (ftype (newField h)) with (JS.band h 7) in Esw.
      destruct (band_7_cases h) as [E|[E|[E|[E|[E|[E|[E|E]]]]]]];
        rewrite E in Esw; cbv beta iota in Esw; try discriminate;
        try (apply Hk in Esw; [exact Esw | reflexivity]).
      destruct fuel; [discriminate|].
      apply Hk in Esw; [exact Esw | reflexivity].
    + unfold bind, get, ret in H. apply pair_inv in H as [H _].
      apply Ok_inv in H. injection H as <-.
      destruct fld as [a b c d e g]. exact Hsw.
Qed.

(** When [readField()] answers a field, [nextTag] answers its tag and puts
    the cursor back. *)
Lemma nextTag_of_field (data : Buffer) (fuel : nat) (off o : nat)
  (f : Field) :
  (off < length data)%nat ->
  readField data fuel None false off = (Ok (Some f), o) ->
  nextTag data fuel off = (Ok (ftag f), off).
Proof.
  intros Hlt Ef. unfold nextTag, left. unfold bind at 1. unfold bind at 1.
  unfold get, ret at 1.
  replace (length data - off =? 0)%nat with false
    by (symmetry; apply Nat.eqb_neq; lia).
  rewrite (bind_Ok _ _ _ _ _ Ef).
  apply readField_fieldAnswer in Ef as ([H1 H2] & H3 & _).
  unfold seek, bind, get, put, ret, throw.
  replace (Z.of_nat o + - Z.of_nat (fsize f)) with (Z.of_nat off) by lia.
  replace (Z.of_nat off <? 0) with false by (symmetry; apply Z.ltb_ge; lia).
  replace (len data <? Z.of_nat off) with false
    by (symmetry; apply Z.ltb_ge; unfold len; lia).
  now rewrite Nat2Z.id.
Qed.

(** X4. [nextTag] is a look ahead. At the end of the buffer it answers -1.
    Before the end, when [readField()] answers a field there, it answers
    the tag of that field, which is the header at the cursor shifted
    right by three bits and is not negative. Whenever it answers, it is
    one of these two answers and the cursor is where it was. *)
Theorem nextTag_peeks (data : Buffer) (fuel : nat) (off : nat) :
  ((length data <= off)%nat -> nextTag data fuel off = (Ok (-1), off))
  /\ ((off < length data)%nat ->
      forall f o,
        readField data fuel None false off = (Ok (Some f), o) ->
        nextTag data fuel off = (Ok (ftag f), off)
        /\ 0 <= ftag f
        /\ exists v,
             _readVarint data off = Ok v
             /\ ftag f = JS.ushr (vvalue v) 3)
  /\ (forall t off',
        nextTag data fuel off = (Ok t, off') ->
        off' = off
        /\ ((t = -1 /\ (length data <= off)%nat)
            \/ ((off < length data)%nat
                /\ exists f o,
                     readField data fuel None false off = (Ok (Some f), o)
                     /\ t = ftag f))).
Proof.
  split; [|split].
  - intros Hle. unfold nextTag, left. unfold bind at 1. unfold bind at 1.
    unfold get, ret at 1.
    replace (length data - off =? 0)%nat with true
      by (symmetry; apply Nat.eqb_eq; lia).
    reflexivity.
  - intros Hlt f o Ef. split; [now apply (nextTag_of_field _ _ _ o)|].
    destruct (readField_tag_header _ _ _ _ _ _ _ Ef) as (v & Hv & Ht).
    split; [rewrite Ht; apply ushr_3_nonneg|]. now exists v.
  - intros t off' H.
    destruct (Nat.le_gt_cases (length data) off) as [Hle|Hlt].
    + revert H. unfold nextTag, left. unfold bind at 1. unfold bind at 1.
      unfold get, ret at 1.
      replace (length data - off =? 0)%nat with true
        by (symmetry; apply Nat.eqb_eq; lia).
      intros H. apply pair_inv in H as [H <-]. apply Ok_inv in H as <-.
      split; [reflexivity|]. left. now split.
    + destruct (readField data fuel None false off) as [[[f|]| |] o] eqn:Ef.
      * rewrite (nextTag_of_field _ _ _ o f Hlt Ef) in H.
        apply pair_inv in H as [H <-]. apply Ok_inv in H as <-.
        split; [reflexivity|]. right. split; [exact Hlt|]. now exists f, o.
      * exfalso. now apply readField_required in Ef.
      * exfalso. revert H. unfold nextTag, left.
        unfold bind at 1. unfold bind at 1. unfold get, ret at 1.
        replace (length data - off =? 0)%nat with false
          by (symmetry; apply Nat.eqb_neq; lia).
        rewrite (bind_Throw _ _ _ _ _ Ef). discriminate.
      * exfalso. revert H. unfold nextTag, left.
        unfold bind at 1. unfold bind at 1. unfold get, ret at 1.
        replace (length data - off =? 0)%nat with false
          by (symmetry; apply Nat.eqb_neq; lia).
        rewrite (bind_OutOfFuel _ _ _ _ Ef). discriminate.
Qed.

(** The field 3 of wire type 2 at the start of the buffer: the header is
    [0x1a], the tag 3, the wire type 2. *)
Lemma nextTag_peeks_witness :
  nextTag [x1a; x01; x61] 0%nat 0%nat = (Ok 3, 0%nat)
  /\ readField [x1a; x01; x61] 0%nat None false 0%nat
     = (Ok (Some (mkField 3 2 3 0 (Some [x61]) None)), 3%nat).
Proof.
  split; [|reflexivity].
  refine (proj1 (proj1 (proj2 (nextTag_peeks [x1a; x01; x61] 0%nat 0%nat))
                   _ (mkField 3 2 3 0 (Some [x61]) None) 3%nat eq_refl)).
  cbn. lia.
Defined.

(** X5. The typed reads check the wire type of the field they find: on a
    field of the expected tag, [readFieldBytes] and [readFieldString]
    raise unless the wire type is 2, [readFieldU64] raises unless it is 0
    or 1, [readFieldU32] raises unless it is 0 or 5; the cursor is then
    left after the field. *)
Theorem typed_reads_check_the_wire_type (data : Buffer) (fuel : nat)
  (tag : Z) (opt : bool) (off off' : nat) (f : Field) :
  readField data fuel (Some tag) opt off = (Ok (Some f), off') ->
  (ftype f <> 2 ->
   readFieldBytes data fuel tag opt off
   = (Throw (AssertionError "Assertion failed."), off')
   /\ readFieldString data fuel tag opt off
      = (Throw (AssertionError "Assertion failed."), off'))
  /\ (ftype f <> 0 -> ftype f <> 1 ->
      readFieldU64 data fuel tag opt off
      = (Throw (AssertionError "Assertion failed."), off'))
  /\ (ftype f <> 0 -> ftype f <> 5 ->
      readFieldU32 data fuel tag opt off
      = (Throw (AssertionError "Assertion failed."), off')).
Proof.
  intros H. pose proof H as Hf.
  apply readField_fieldAnswer in Hf as (_ & _ & Hc & _).
  destruct Hc as (_ & _ & _ & _ & _ & _ & Hn).
  unfold readFieldBytes, readFieldString, readFieldU64, readFieldU32.
  rewrite !(bind_Ok _ _ _ _ _ H).
  unfold wireType.DELIMITED, wireType.VARINT, wireType.FIXED64,
    wireType.FIXED32 in *.
  split; [|split].
  - intros E. rewrite (Hn E). split; reflexivity.
  - intros E0 E1. apply Z.eqb_neq in E0, E1. rewrite E0, E1. reflexivity.
  - intros E0 E5. apply Z.eqb_neq in E0, E5. rewrite E0, E5. reflexivity.
Qed.

Lemma typed_reads_check_the_wire_type_witness :
  readField [x08; x96; x01] 0%nat (Some 1) true 0%nat
  = (Ok (Some (mkField 1 0 3 150 None None)), 3%nat)
  /\ readFieldBytes [x08; x96; x01] 0%nat 1 true 0%nat
     = (Throw (AssertionError "Assertion failed."), 3%nat).
Proof.
  split; [reflexivity|].
  refine (proj1 (proj1 (typed_reads_check_the_wire_type
                          [x08; x96; x01] 0%nat 1 true 0%nat 3%nat
                          (mkField 1 0 3 150 None None) eq_refl) _)).
  cbn. discriminate.
Defined.

Lemma readField_value_range (data : Buffer) (fuel : nat) (tag : option Z)
  (opt : bool) (off off' : nat) (f : Field) :
  readField data fuel tag opt off = (Ok (Some f), off') ->
  0 <= fvalue f < 2 ^ 53
  /\ (ftype f = 0 \/ ftype f = 5 -> fvalue f < 2 ^ 42).
Proof.
  intros H. apply readField_fieldAnswer in H as (_ & _ & Hc & _).
  destruct Hc as (Hp & _ & H0 & H1 & H5 & H2 & _).
  unfold plainType, wireType.VARINT, wireType.FIXED64, wireType.DELIMITED,
    wireType.FIXED32 in *.
  split.
  - destruct Hp as [E|[E|[E|E]]];
      [apply H0 in E | apply H1 in E | apply H2 in E as [E _] | apply H5 in E];
      lia.
  - intros [E|E]; [apply H0 in E | apply H5 in E]; lia.
Qed.

(** X6. The numbers that the typed reads answer: [readFieldU64] answers
    -1, for an optional field that is not there and with the cursor
    unmoved, or a number from 0 to 2^53 - 1; [readFieldU32] answers -1 in
    the same case, or a number from 0 up to 2^42 - 1: a varint is not
    held to 32 bits. *)
Theorem typed_reads_number_range (data : Buffer) (fuel : nat)
  (tag : Z) (opt : bool) (off off' : nat) (v : Z) :
  (readFieldU64 data fuel tag opt off = (Ok v, off') ->
   (v = -1 /\ opt = true /\ off' = off) \/ 0 <= v < 2 ^ 53)
  /\ (readFieldU32 data fuel tag opt off = (Ok v, off') ->
      (v = -1 /\ opt = true /\ off' = off) \/ 0 <= v < 2 ^ 42).
Proof.
  unfold readFieldU64, readFieldU32.
  split; intros H; unfold bind at 1 in H;
    destruct (readField data fuel (Some tag) opt off)
      as [[[f|]| |] o] eqn:Ef; try discriminate.
  - right. apply readField_value_range in Ef as [Hv _].
    unfold bind, assertM in H.
    destruct ((ftype f =? wireType.VARINT) || (ftype f =? wireType.FIXED64));
      [|discriminate].
    apply pair_inv in H as [H _]. apply Ok_inv in H as <-. exact Hv.
  - left. apply readField_fieldAnswer in Ef as (_ & -> & -> & _).
    apply pair_inv in H as [H <-]. apply Ok_inv in H as <-. now repeat split.
  - right. apply readField_value_range in Ef as [Hv Hs].
    unfold bind, assertM in H.
    destruct ((ftype f =? wireType.VARINT) || (ftype f =? wireType.FIXED32))
      eqn:E; [|discriminate].
    apply pair_inv in H as [H _]. apply Ok_inv in H as <-.
    split; [lia|]. apply Hs.
    apply orb_prop in E as [E|E]; apply Z.eqb_eq in E; [now left | now right].
  - left. apply readField_fieldAnswer in Ef as (_ & -> & -> & _).
    apply pair_inv in H as [H <-]. apply Ok_inv in H as <-. now repeat split.
Qed.

(** The six groups of 2^42 - 1 after the header of the field 1. *)
Lemma typed_reads_number_range_witness :
  readFieldU32 [x08; xff; xff; xff; xff; xff; x7f] 0%nat 1 true 0%nat
  = (Ok (2 ^ 42 - 1), 7%nat)
  /\ 2 ^ 32 < 2 ^ 42 - 1 < 2 ^ 42.
Proof.
  split; [reflexivity|].
  destruct (proj2 (typed_reads_number_range
                     [x08; xff; xff; xff; xff; xff; x7f] 0%nat 1 true 0%nat 7%nat
                     (2 ^ 42 - 1)) eq_refl) as [(H & _) | H].
  - discriminate H.
  - split; [reflexivity | exact (proj2 H)].
Defined.

(** X7. A required field is never answered as [null]: with [opt] false,
    [readFieldBytes] and [readFieldString] answer the data of a field or
    raise, and a -1 from [readFieldU64] or [readFieldU32] is not
    possible. *)
Theorem required_reads_never_answer_absent (data : Buffer) (fuel : nat)
  (tag : Z) (off off' : nat) :
  readFieldBytes data fuel tag false off <> (Ok None, off')
  /\ readFieldString data fuel tag false off <> (Ok None, off')
  /\ readFieldU64 data fuel tag false off <> (Ok (-1), off')
  /\ readFieldU32 data fuel tag false off <> (Ok (-1), off').
Proof.
  assert (forall (check : Field -> bool) off',
            (field <- readField data fuel (Some tag) false ;;
             match field with
             | None => ret (-1)
             | Some f =>
                 _ <- assertM (check f) "Assertion failed." ;;
                 ret (fvalue f)
             end) off <> (Ok (-1), off')) as Hnum.
  { intros check o H. unfold bind at 1 in H.
    pose proof (readField_required data fuel (Some tag) off) as Hr.
    destruct (readField data fuel (Some tag) false off)
      as [[[f|]| |] s] eqn:Ef; try discriminate.
    - apply readField_value_range in Ef as [Hv _].
      unfold bind, assertM in H. destruct (check f); [|discriminate].
      apply pair_inv in H as [H _]. apply Ok_inv in H. lia.
    - now apply (Hr s). }
  split; [|split; [|split]].
  - apply readFieldBytes_required.
  - intros H. unfold readFieldString, bind in H.
    pose proof (readField_required data fuel (Some tag) off) as Hr.
    destruct (readField data fuel (Some tag) false off) as [[[f|]| |] s];
      try discriminate.
    + destruct (fdata f); discriminate.
    + now apply (Hr s).
  - apply (Hnum (fun f => (ftype f =? wireType.VARINT)
                          || (ftype f =? wireType.FIXED64))).
  - apply (Hnum (fun f => (ftype f =? wireType.VARINT)
                          || (ftype f =? wireType.FIXED32))).
Qed.
(** X8. A group that is not ended is never read: on a start-group header
    followed by length-delimited fields up to the end of the buffer, the
    [for (;;)] loop of [readField] reads the fields, then fields of size
    zero at the end of the buffer for ever. Whatever the budget, it is
    used up. *)
Theorem unterminated_group_never_returns (data : Buffer) (fuel : nat)
  (expected : option Z) (opt : bool) (off : nat) (tag : Z)
  (items : list (Z * Buffer)) :
  validTag tag ->
  expected = None \/ expected = Some tag ->
  Forall (fun it => validTag (fst it) /\ len (snd it) < 2 ^ 32) items ->
  skipn off data =
  header tag wireType.START_GROUP
  ++ concat (map (fun it => encBytes (fst it) (snd it)) items) ->
  fst (readField data fuel expected opt off) = OutOfFuel.
Proof.
  intros Ht Hexp Hitems Hsk.
  assert (ProtoWriter.encodeVarint (tag * 8 + 3) = [byteOf (tag * 8 + 3)])
    as Henc.
  { unfold ProtoWriter.encodeVarint. cbn [ProtoWriter.varintGroups].
    replace (tag * 8 + 3 <? 128) with true; [reflexivity|].
    symmetry. apply Z.ltb_lt. unfold validTag in Ht. lia. }
  unfold header, wireType.START_GROUP in Hsk.
  assert (readVarint data off = (Ok (tag * 8 + 3), S off)) as Hh.
  { rewrite (readVarint_encodeVarint data off (tag * 8 + 3) _
               ltac:(unfold validTag in Ht; lia) Hsk).
    rewrite Henc. cbn [length]. f_equal. lia. }
  assert (skipn (S off) data
          = concat (map (fun it => encBytes (fst it) (snd it)) items))
    as Hrest.
  { replace (S off) with (off + length [byteOf (tag * 8 + 3)])%nat
      by (cbn; lia).
    apply skipn_add. rewrite <- Henc. exact Hsk. }
  rewrite readField_eq.
  unfold bind at 1, get. rewrite (bind_Ok _ _ _ _ _ Hh).
  rewrite newField_header by (unfold validTag in Ht; lia).
  cbn [ftag ftype].
  replace (match expected with
           | Some t => negb (tag =? t)
           | None => false
           end) with false
    by (destruct Hexp as [-> | ->]; [reflexivity | now rewrite Z.eqb_refl]).
  destruct fuel as [|fuel]; [reflexivity|].
  unfold bind at 1. unfold bind at 1.
  match goal with
  | |- context [(fix loop (n : nat) (group : list Field) {struct n} := _) fuel []] =>
      assert (forall items n group o,
                Forall (fun it => validTag (fst it) /\ len (snd it) < 2 ^ 32)
                  items ->
                skipn o data
                = concat (map (fun it => encBytes (fst it) (snd it)) items) ->
                fst ((fix loop (n : nat) (group : list Field) {struct n}
                   : Reader (list Field) :=
                   match n with
                   | O => outOfFuel
                   | S n' =>
                       inner <- readField data fuel None false ;;
                       match inner with
                       | None =>
                           throw (TypeError "Cannot read properties of null")
                       | Some f =>
                           if ftype f =? wireType.END_GROUP
                           then ret group
                           else loop n' (group ++ [f])
                       end
                   end) n group o) = OutOfFuel) as Hloop
  end.
  { clear. induction items as [|[t d] items IH];
      intros n group o Hitems Hsk.
    - cbn [map concat] in Hsk. revert group.
      induction n as [|n IHn]; intros group; [reflexivity|].
      rewrite (bind_Ok _ _ _ _ _ (readField_at_end data fuel o Hsk)).
      cbn [ftype]. apply IHn.
    - destruct n as [|n]; [reflexivity|].
      apply Forall_cons_iff in Hitems as [[Ht Hd] Hitems].
      cbn [map concat fst snd] in *.
      rewrite (bind_Ok _ _ _ _ _
                 (readField_encBytes data fuel None false o t d _ Ht Hd
                    (or_introl eq_refl) Hsk)).
      cbn [ftype]. change (wireType.DELIMITED =? wireType.END_GROUP)
        with false. cbv iota.
      apply IH; [exact Hitems|].
      apply skipn_add in Hsk. exact Hsk. }
  specialize (Hloop items fuel [] (S off) Hitems Hrest).
  match goal with
  | H : fst ?m = OutOfFuel |- context [?m'] =>
      change m' with m; destruct m as [[g| |] o]; try discriminate H
  end.
  reflexivity.
Qed.

Lemma unterminated_group_never_returns_witness :
  skipn 0%nat [x0b; x12; x01; x61]
  = header 1 wireType.START_GROUP
    ++ concat (map (fun it => encBytes (fst it) (snd it)) [(2, [x61])])
  /\ fst (readField [x0b; x12; x01; x61] 5%nat None false 0%nat) = OutOfFuel.
Proof.
  split; [reflexivity|].
  apply (unterminated_group_never_returns _ 5%nat None false 0%nat 1
           [(2, [x61])]).
  - unfold validTag. lia.
  - left. reflexivity.
  - repeat constructor; cbn; unfold validTag; lia.
  - reflexivity.
Defined.
(** ** Messages: what follows the last field, and a required field that is
    not there *)

Lemma startsFrom_weaken (lo lo' : Z) (rest : Buffer) :
  lo' <= lo -> startsFrom lo rest -> startsFrom lo' rest.
Proof.
  intros Hle (t & Hs & Ht). exists t. split; [exact Hs|].
  destruct Ht as [Ht|Ht]; [left; exact Ht | right; lia].
Qed.

Lemma PaymentRequest_decode_encoded_rest (fuel : nat) (now : Z)
  (r : PaymentRequest.t) (rest : Buffer) :
  goodOptNumber (PaymentRequest.version r) ->
  validOpt (optUtf8 (PaymentRequest.pkiType r)) ->
  validOpt (PaymentRequest.pkiData r) ->
  goodDetails (PaymentRequest.paymentDetails r) ->
  len (encDetails (PaymentRequest.paymentDetails r)) < 2 ^ 32 ->
  validOpt (PaymentRequest.signature r) ->
  (length (PaymentDetails.outputs (PaymentRequest.paymentDetails r)) < fuel)%nat ->
  startsFrom 6 rest ->
  PaymentRequest.fromRaw fuel (PaymentRequest.create now)
    (Some (encRequest r ++ rest)) = Ok (rereadRequest r).
Proof.
  intros Hv Ht Hd Hpd Hlen Hs Hfuel T6.
  unfold PaymentRequest.fromRaw. cbn [newProtoReader bindR].
  unfold runReader, encRequest.
  destruct r as [version pkiType pkiData details signature].
  cbn [PaymentRequest.version PaymentRequest.pkiType PaymentRequest.pkiData
       PaymentRequest.paymentDetails PaymentRequest.signature
       PaymentRequest.create] in *.
  assert (startsFrom 4 (encBytes 4 (encDetails details)
                        ++ optBytes 5 signature ++ rest)) as T4
    by (apply startsFrom_encBytes; [tag_side | assumption | lia]).
  assert (startsFrom 3 (optBytes 3 pkiData ++ encBytes 4 (encDetails details)
                        ++ optBytes 5 signature ++ rest)) as T3.
  { apply startsFrom_optBytes; [tag_side | assumption | lia |].
    apply startsFrom_encBytes; [tag_side | assumption | lia]. }
  assert (startsFrom 2 (optString 2 pkiType ++ optBytes 3 pkiData
                        ++ encBytes 4 (encDetails details)
                        ++ optBytes 5 signature ++ rest)) as T2.
  { apply startsFrom_optString; [tag_side | assumption | lia |].
    apply startsFrom_optBytes; [tag_side | assumption | lia |].
    apply startsFrom_encBytes; [tag_side | assumption | lia]. }
  set (F1 := optVarint 1 version) in *.
  set (F2 := optString 2 pkiType) in *.
  set (F3 := optBytes 3 pkiData) in *.
  set (F4 := encBytes 4 (encDetails details)) in *.
  set (F5 := optBytes 5 signature) in *.
  rewrite <- !app_assoc.
  set (data := F1 ++ F2 ++ F3 ++ F4 ++ F5 ++ rest).
  assert (skipn 0 data = F1 ++ F2 ++ F3 ++ F4 ++ F5 ++ rest) as S1
    by reflexivity.
  pose proof (skipn_add _ _ _ _ S1) as S2.
  pose proof (skipn_add _ _ _ _ S2) as S3.
  pose proof (skipn_add _ _ _ _ S3) as S4.
  pose proof (skipn_add _ _ _ _ S4) as S5.
  clearbody data.
  rewrite (bind_Ok _ _ _ _ _
             (readFieldU32_optional data fuel _ 1 version _
                ltac:(tag_side) Hv T2 S1)).
  rewrite (bind_Ok _ _ _ _ _
             (readFieldString_optional data fuel _ 2 pkiType _
                ltac:(tag_side) Ht T3 S2)).
  rewrite (bind_Ok _ _ _ _ _
             (readFieldBytes_optional data fuel _ 3 pkiData _
                ltac:(tag_side) Hd T4 S3)).
  rewrite (bind_Ok _ _ _ _ _
             (readFieldBytes_present data fuel false _ 4 _ _
                ltac:(tag_side) Hlen S4)).
  unfold liftResult at 1. unfold bind at 1.
  rewrite PaymentDetails_decode_encoded by trivial.
  rewrite (bind_Ok _ _ _ _ _
             (readFieldBytes_optional data fuel _ 5 signature _
                ltac:(tag_side) Hs T6 S5)).
  reflexivity.
Qed.

(** What [toRaw] has written is read back, with its strings as the
    decoder reads them, whatever follows it from a field of a tag from 6
    on. *)
Lemma PaymentRequest_decode_toRaw_rest (fuel : nat) (now : Z)
  (r : PaymentRequest.t) (raw rest : Buffer) :
  PaymentRequest.toRaw r = Ok raw ->
  len raw < 2 ^ 32 ->
  PaymentRequest.version r < cap ->
  detailsBelowCap (PaymentRequest.paymentDetails r) ->
  (length (PaymentDetails.outputs (PaymentRequest.paymentDetails r)) < fuel)%nat ->
  startsFrom 6 rest ->
  PaymentRequest.decode fuel now (raw ++ rest) = Ok (rereadRequest r).
Proof.
  intros Hraw Hlen Hv Hcap Hfuel Hrest.
  apply PaymentRequest_toRaw_inv in Hraw as (-> & Hv0 & d & Hd).
  apply PaymentDetails_toRaw_inv in Hd as (_ & Ht & He & Ho).
  unfold PaymentRequest.decode.
  unfold encRequest in Hlen. rewrite !len_app in Hlen.
  pose proof (len_nonneg (optVarint 1 (PaymentRequest.version r))).
  pose proof (len_nonneg (optString 2 (PaymentRequest.pkiType r))).
  pose proof (len_nonneg (optBytes 3 (PaymentRequest.pkiData r))).
  pose proof (len_nonneg
                (encBytes 4 (encDetails (PaymentRequest.paymentDetails r)))).
  pose proof (len_encBytes 4 (encDetails (PaymentRequest.paymentDetails r))).
  pose proof (len_nonneg (optBytes 5 (PaymentRequest.signature r))).
  apply PaymentRequest_decode_encoded_rest; trivial.
  - unfold goodOptNumber, cap in *. lia.
  - apply (validOpt_optBytes 2). unfold optString, optUtf8 in *. lia.
  - apply (validOpt_optBytes 3). lia.
  - apply goodDetails_of_encoding; trivial. lia.
  - lia.
  - apply (validOpt_optBytes 5). lia.
Qed.



Lemma readField_missing (data : Buffer) (fuel : nat) (tag : Z) (off : nat)
  (rest : Buffer) :
  0 < tag -> startsFrom (tag + 1) rest -> skipn off data = rest ->
  fst (readField data fuel (Some tag) false off)
  = Throw (AssertionError "Non-optional field not present.").
Proof.
  intros Ht (t & Hs & Hlo) Hsk.
  destruct (startsWith_header data off rest t Hs Hsk) as (v & Hv & Htag).
  rewrite (readField_mismatch data fuel tag false off v Hv); [reflexivity|].
  lia.
Qed.

Lemma bind_fst_Throw {S A B} (m : M S A) (k : A -> M S B) (s : S)
  (e : error) :
  fst (m s) = Throw e -> fst (bind m k s) = Throw e.
Proof.
  unfold bind. destruct (m s) as [[a| |] s']; cbn [fst]; try discriminate.
  intros H. congruence.
Qed.

Lemma readFieldBytes_missing (data : Buffer) (fuel : nat) (tag : Z)
  (off : nat) (rest : Buffer) :
  0 < tag -> startsFrom (tag + 1) rest -> skipn off data = rest ->
  fst (readFieldBytes data fuel tag false off)
  = Throw (AssertionError "Non-optional field not present.").
Proof.
  intros. apply bind_fst_Throw. eapply readField_missing; eassumption.
Qed.

Lemma readFieldU64_missing (data : Buffer) (fuel : nat) (tag : Z)
  (off : nat) (rest : Buffer) :
  0 < tag -> startsFrom (tag + 1) rest -> skipn off data = rest ->
  fst (readFieldU64 data fuel tag false off)
  = Throw (AssertionError "Non-optional field not present.").
Proof.
  intros. apply bind_fst_Throw. eapply readField_missing; eassumption.
Qed.

(** X14. Each message with a required field fails to decode when the field
    is not there: a request without its payment details, payment details
    without their time, an acknowledgement without its payment, each
    raise 'Non-optional field not present.', whatever the fields before and
    after. In particular none of the three decodes from the empty
    buffer. *)
Theorem decode_raises_without_the_required_field (fuel : nat) (now : Z) :
  (forall (version : Z) (pkiType : option string) (pkiData : option Buffer)
          (rest : Buffer),
     goodOptNumber version -> validOpt (optUtf8 pkiType) ->
     validOpt pkiData -> startsFrom 5 rest ->
     PaymentRequest.decode fuel now
       (optVarint 1 version ++ optString 2 pkiType ++ optBytes 3 pkiData
        ++ rest)
     = Throw (AssertionError "Non-optional field not present."))
  /\ (forall (network : option string) (outputs : list Output)
             (rest : Buffer),
        validOpt (optUtf8 network) -> Forall goodOutput outputs ->
        (length outputs < fuel)%nat -> startsFrom 4 rest ->
        PaymentDetails.decode fuel now
          (optString 1 network ++ concat (map (encOutput 2) outputs) ++ rest)
        = Throw (AssertionError "Non-optional field not present."))
  /\ (forall rest : Buffer,
        startsFrom 2 rest ->
        PaymentACK.decode fuel rest
        = Throw (AssertionError "Non-optional field not present.")).
Proof.
  split; [|split].
  - intros version pkiType pkiData rest Hv Ht Hd T5.
    unfold PaymentRequest.decode, PaymentRequest.fromRaw.
    cbn [newProtoReader bindR]. unfold runReader.
    assert (startsFrom 4 rest) as T4 by (apply (startsFrom_weaken 5); [lia | exact T5]).
    assert (startsFrom 3 (optBytes 3 pkiData ++ rest)) as T3.
    { apply startsFrom_optBytes; [tag_side | assumption | lia |].
      apply (startsFrom_weaken 5); [lia | exact T5]. }
    assert (startsFrom 2 (optString 2 pkiType ++ optBytes 3 pkiData ++ rest))
      as T2.
    { apply startsFrom_optString; [tag_side | assumption | lia |].
      apply startsFrom_optBytes; [tag_side | assumption | lia |].
      apply (startsFrom_weaken 5); [lia | exact T5]. }
    set (F1 := optVarint 1 version) in *.
    set (F2 := optString 2 pkiType) in *.
    set (F3 := optBytes 3 pkiData) in *.
    set (data := F1 ++ F2 ++ F3 ++ rest).
    assert (skipn 0 data = F1 ++ F2 ++ F3 ++ rest) as S1 by reflexivity.
    pose proof (skipn_add _ _ _ _ S1) as S2.
    pose proof (skipn_add _ _ _ _ S2) as S3.
    pose proof (skipn_add _ _ _ _ S3) as S4.
    clearbody data.
    rewrite (bind_Ok _ _ _ _ _
               (readFieldU32_optional data fuel _ 1 version _
                  ltac:(tag_side) Hv T2 S1)).
    rewrite (bind_Ok _ _ _ _ _
               (readFieldString_optional data fuel _ 2 pkiType _
                  ltac:(tag_side) Ht T3 S2)).
    rewrite (bind_Ok _ _ _ _ _
               (readFieldBytes_optional data fuel _ 3 pkiData _
                  ltac:(tag_side) Hd T4 S3)).
    apply bind_fst_Throw.
    apply (readFieldBytes_missing data fuel 4 _ rest); [lia | exact T5 | exact S4].
  - intros network outputs rest Hn Ho Hfuel T4.
    unfold PaymentDetails.decode, PaymentDetails.fromRaw.
    cbn [newProtoReader bindR]. unfold runReader.
    cbn [PaymentDetails.outputs PaymentDetails.create].
    assert (startsFrom 3 rest) as T3
      by (apply (startsFrom_weaken 4); [lia | exact T4]).
    assert (startsFrom 2 (concat (map (encOutput 2) outputs) ++ rest)) as T2.
    { apply (startsFrom_repeated _ 2 _ goodOutput);
        [tag_side | lia | apply encOutput_item | trivial |].
      apply (startsFrom_weaken 4); [lia | exact T4]. }
    set (F1 := optString 1 network) in *.
    set (F2 := concat (map (encOutput 2) outputs)) in *.
    set (data := F1 ++ F2 ++ rest).
    assert (skipn 0 data = F1 ++ F2 ++ rest) as S1 by reflexivity.
    pose proof (skipn_add _ _ _ _ S1) as S2.
    pose proof (skipn_add _ _ _ _ S2) as S3.
    clearbody data.
    rewrite (bind_Ok _ _ _ _ _
               (readFieldString_optional data fuel _ 1 network _
                  ltac:(tag_side) Hn T2 S1)).
    rewrite (bind_Ok _ _ _ _ _
               (outputs_loop data fuel 2 outputs [] _ _
                  ltac:(tag_side) Ho Hfuel T3 S2)).
    apply bind_fst_Throw.
    apply (readFieldU64_missing data fuel 3 _ rest); [lia | exact T4 | exact S3].
  - intros rest T2.
    unfold PaymentACK.decode, PaymentACK.fromRaw.
    cbn [newProtoReader bindR]. unfold runReader.
    apply bind_fst_Throw.
    apply (readFieldBytes_missing rest fuel 1 _ rest); [lia | exact T2 | reflexivity].
Qed.

Lemma decode_raises_without_the_required_field_witness :
  PaymentRequest.decode 1 0 []
  = Throw (AssertionError "Non-optional field not present.")
  /\ PaymentDetails.decode 1 0 []
     = Throw (AssertionError "Non-optional field not present.")
  /\ PaymentACK.decode 1 []
     = Throw (AssertionError "Non-optional field not present.").
Proof.
  destruct (decode_raises_without_the_required_field 1 0) as (H1 & H2 & H3).
  split; [|split].
  - apply (H1 (-1) None None []); [now left | exact I | exact I |].
    apply startsFrom_nil.
  - apply (H2 None [] []); [exact I | apply Forall_nil | cbn; lia |].
    apply startsFrom_nil.
  - apply H3. apply startsFrom_nil.
Defined.

Lemma wellFormedRequest_setSignature (r : PaymentRequest.t)
  (x : option Buffer) :
  wellFormedRequest r -> wellFormedRequest (setSignature r x).
Proof. destruct r. exact (fun H => H). Qed.

(** X15. The bytes that are signed determine a request with well-formed
    strings: two such requests with the same [signatureData] have the same
    version, [pkiType], [pkiData] and payment details, and can differ in
    their signature only. *)
Theorem signatureData_determines_the_request (r1 r2 : PaymentRequest.t)
  (msg : Buffer) :
  fst (signatureData r1) = Ok msg ->
  fst (signatureData r2) = Ok msg ->
  len msg < 2 ^ 32 ->
  PaymentRequest.version r1 < cap ->
  PaymentRequest.version r2 < cap ->
  detailsBelowCap (PaymentRequest.paymentDetails r1) ->
  detailsBelowCap (PaymentRequest.paymentDetails r2) ->
  wellFormedRequest r1 ->
  wellFormedRequest r2 ->
  setSignature r1 None = setSignature r2 None.
Proof.
  intros H1 H2 Hlen Hv1 Hv2 Hc1 Hc2 Hw1 Hw2.
  rewrite signatureData_run in H1, H2.
  destruct (toRaw (setSignature r1 (Some []))) as [m1| |] eqn:E1;
    try discriminate H1.
  destruct (toRaw (setSignature r2 (Some []))) as [m2| |] eqn:E2;
    try discriminate H2.
  cbn [fst] in H1, H2. apply Ok_inv in H1, H2. subst m1 m2.
  set (fuel := S (Nat.max
                    (length (PaymentDetails.outputs (paymentDetails r1)))
                    (length (PaymentDetails.outputs (paymentDetails r2))))).
  pose proof (PaymentRequest_decode_toRaw_rest fuel 0 _ msg [] E1 Hlen)
    as D1.
  pose proof (PaymentRequest_decode_toRaw_rest fuel 0 _ msg [] E2 Hlen)
    as D2.
  rewrite (rereadRequest_wellFormed _
             (wellFormedRequest_setSignature r1 (Some []) Hw1)) in D1.
  rewrite (rereadRequest_wellFormed _
             (wellFormedRequest_setSignature r2 (Some []) Hw2)) in D2.
  destruct r1 as [v1 t1 d1 p1 s1], r2 as [v2 t2 d2 p2 s2].
  cbn [setSignature PaymentRequest.version PaymentRequest.pkiType
       PaymentRequest.pkiData PaymentRequest.paymentDetails
       PaymentRequest.signature] in *.
  specialize (D1 Hv1 Hc1 ltac:(subst fuel; lia) (startsFrom_nil 6)).
  specialize (D2 Hv2 Hc2 ltac:(subst fuel; lia) (startsFrom_nil 6)).
  rewrite D1 in D2. apply Ok_inv in D2.
  injection D2 as -> -> -> ->. reflexivity.
Qed.

Lemma signatureData_determines_the_request_witness :
  setSignature signedRequest None
  = setSignature (setSignature signedRequest (Some [x09])) None.
Proof.
  apply (signatureData_determines_the_request signedRequest
           (setSignature signedRequest (Some [x09]))
           (unsignedRaw ++ [x2a; x00])).
  - vm_compute. reflexivity.
  - vm_compute. reflexivity.
  - reflexivity.
  - reflexivity.
  - reflexivity.
  - repeat split. repeat constructor.
  - repeat split. repeat constructor.
  - repeat split.
  - repeat split.
Defined.
(** ** Signing, verifying and the certificate authority *)

Lemma getAlgorithm_pkiType (this this' : PaymentRequest.t) :
  pkiType this' = pkiType this -> getAlgorithm this' = getAlgorithm this.
Proof. unfold getAlgorithm. now intros ->. Qed.

Lemma getChain_pkiData (fuel : nat) (this this' : PaymentRequest.t) :
  pkiData this' = pkiData this ->
  fst (getChain fuel this') = fst (getChain fuel this).
Proof.
  unfold getChain, bind, get. intros ->. destruct (pkiData this); reflexivity.
Qed.

Lemma getChain_run (fuel : nat) (this : PaymentRequest.t) :
  getChain fuel this = (fst (getChain fuel this), this).
Proof.
  pose proof (getChain_state fuel this).
  destruct (getChain fuel this); cbn [fst snd] in *. congruence.
Qed.

Lemma getAlgorithm_usable (this : PaymentRequest.t) (alg : Algorithm) :
  getAlgorithm this = Ok alg ->
  falsy (pkiType this) || strictEq (pkiType this) "none" = false.
Proof.
  intros H. apply getAlgorithm_Ok_inv in H as [[-> _]|[-> _]]; reflexivity.
Qed.

Lemma setChain_fields (certs : list Buffer) (this this' : PaymentRequest.t)
  (r : result unit) :
  setChain certs this = (r, this') ->
  pkiType this' = pkiType this
  /\ signature this' = signature this
  /\ paymentDetails this' = paymentDetails this
  /\ version this' = version this.
Proof.
  unfold setChain, bind, liftResult, get, put.
  destruct (ProtoWriter.forEach certs (ProtoWriter.writeFieldBytes 1)
              ProtoWriter.new);
    intros H; apply pair_inv in H as [_ <-]; destruct this; repeat split.
Qed.

(** What a call of [sign] that returns has done. *)
Lemma sign_Ok_inv
  (signSubject : string -> Buffer -> Buffer -> list Buffer -> option Buffer)
  (fuel : nat) (key : Buffer) (certs : option (list Buffer))
  (this this' : PaymentRequest.t) :
  sign signSubject fuel key certs this = (Ok tt, this') ->
  exists this2 alg msg chain sig,
    this' = setSignature this2 (Some sig)
    /\ getAlgorithm this2 = Ok alg
    /\ signatureData this2 = (Ok msg, this2)
    /\ getChain fuel this2 = (Ok chain, this2)
    /\ signSubject (hash alg) msg key chain = Some sig
    /\ paymentDetails this2 = paymentDetails this
    /\ version this2 = version this
    /\ (if falsy (pkiType this)
        then pkiType this2 = Some "x509+sha256"%string
        else pkiType this2 = pkiType this).
Proof.
  unfold sign. intros H. unfold bind at 1 in H.
  assert (exists this1,
            (match certs with
             | Some certs => setChain certs
             | None => ret tt
             end) this = (Ok tt, this1)
            /\ pkiType this1 = pkiType this
            /\ paymentDetails this1 = paymentDetails this
            /\ version this1 = version this) as (this1 & E1 & Ht1 & Hd1 & Hv1).
  { destruct certs as [certs|].
    - destruct (setChain certs this) as [[[]| |] this1] eqn:E;
        try discriminate H.
      exists this1. apply setChain_fields in E as (? & ? & ? & ?).
      now repeat split.
    - exists this. now repeat split. }
  rewrite E1 in H. unfold bind at 1, get in H. unfold bind at 1 in H.
  set (this2 := if falsy (pkiType this1)
                then setPkiType this1 (Some "x509+sha256"%string)
                else this1).
  assert ((if falsy (pkiType this1)
           then put (setPkiType this1 (Some "x509+sha256"%string))
           else ret tt) this1 = (Ok tt, this2)) as E2
    by (subst this2; destruct (falsy (pkiType this1)); reflexivity).
  rewrite E2 in H. unfold bind at 1, get in H.
  unfold bind at 1, liftResult at 1 in H.
  destruct (getAlgorithm this2) as [alg| |] eqn:Ealg; try discriminate H.
  unfold bind at 1 in H.
  rewrite signatureData_run in H.
  destruct (toRaw (setSignature this2 (Some []))) as [msg| |] eqn:Emsg;
    try discriminate H.
  unfold bind at 1 in H. rewrite getChain_run in H.
  destruct (fst (getChain fuel this2)) as [chain| |] eqn:Echain;
    try discriminate H.
  unfold bind at 1, external at 1 in H.
  destruct (signSubject (hash alg) msg key chain) as [sig|] eqn:Esig;
    try discriminate H.
  unfold ret at 1, bind, get, put in H. apply pair_inv in H as [_ <-].
  exists this2, alg, msg, chain, sig.
  split; [reflexivity|]. split; [exact Ealg|].
  split; [rewrite signatureData_run, Emsg; reflexivity|].
  split; [rewrite getChain_run, Echain; reflexivity|].
  split; [exact Esig|].
  subst this2. rewrite <- Ht1.
  destruct (falsy (pkiType this1)); destruct this1; repeat split; trivial.
Qed.

(** X16. Signing, then verifying: with a certificate module whose
    [verifySubject] accepts what its [signSubject] produced, over the same
    hash name, message and chain, a request on which [sign] has returned
    verifies. [sign] has left the payment details and the version as they
    were, and has set a [pkiType] that was not given to 'x509+sha256'. *)
Theorem sign_then_verify
  (signSubject : string -> Buffer -> Buffer -> list Buffer -> option Buffer)
  (verifySubject :
     string -> Buffer -> option Buffer -> list Buffer -> option bool)
  (fuel : nat) (key : Buffer) (certs : option (list Buffer))
  (this this' : PaymentRequest.t) :
  (forall h msg key chain sig,
     signSubject h msg key chain = Some sig ->
     verifySubject h msg (Some sig) chain = Some true) ->
  sign signSubject fuel key certs this = (Ok tt, this') ->
  verify verifySubject fuel this' = (Ok true, this')
  /\ paymentDetails this' = paymentDetails this
  /\ version this' = version this
  /\ (falsy (pkiType this) = true ->
      pkiType this' = Some "x509+sha256"%string)
  /\ (falsy (pkiType this) = false -> pkiType this' = pkiType this).
Proof.
  intros Hx H.
  apply sign_Ok_inv in H
    as (this2 & alg & msg & chain & sig & -> & Ealg & Emsg & Echain & Esig
        & Hd & Hv & Ht).
  split.
  - unfold verify, bind at 1, get.
    assert (pkiType (setSignature this2 (Some sig)) = pkiType this2) as Hpt
      by (destruct this2; reflexivity).
    rewrite Hpt, (getAlgorithm_usable _ _ Ealg).
    replace (signature (setSignature this2 (Some sig))) with (Some sig)
      by (destruct this2; reflexivity).
    unfold bind at 1, tryCatch at 1, bind at 1, liftResult at 1.
    rewrite (getAlgorithm_pkiType _ _ Hpt), Ealg. cbn [ret].
    unfold bind at 1.
    assert (signatureData (setSignature this2 (Some sig))
            = (Ok msg, setSignature this2 (Some sig))) as Emsg'.
    { rewrite signatureData_run in *.
      replace (setSignature (setSignature this2 (Some sig)) (Some []))
        with (setSignature this2 (Some [])) by (destruct this2; reflexivity).
      destruct (toRaw (setSignature this2 (Some []))); try discriminate Emsg.
      apply pair_inv in Emsg as [-> _]. reflexivity. }
    rewrite Emsg'. unfold bind at 1, get. unfold bind at 1.
    rewrite getChain_run.
    rewrite (getChain_pkiData fuel this2 (setSignature this2 (Some sig)))
      by (destruct this2; reflexivity).
    rewrite Echain. cbn [fst].
    replace (signature (setSignature this2 (Some sig))) with (Some sig)
      by (destruct this2; reflexivity).
    unfold tryCatch, external. rewrite (Hx _ _ _ _ _ Esig). reflexivity.
  - replace (paymentDetails (setSignature this2 (Some sig)))
      with (paymentDetails this2) by (destruct this2; reflexivity).
    replace (version (setSignature this2 (Some sig)))
      with (version this2) by (destruct this2; reflexivity).
    replace (pkiType (setSignature this2 (Some sig)))
      with (pkiType this2) by (destruct this2; reflexivity).
    split; [exact Hd|]. split; [exact Hv|].
    split; intros E; rewrite E in Ht; exact Ht.
Qed.

Lemma sign_then_verify_witness :
  exists this',
    sign exampleSignSubject 3 [x07] (Some [[x01]; [x02]]) unsignedRequest
    = (Ok tt, this')
    /\ verify exampleVerifySubject 3 this' = (Ok true, this')
    /\ pkiType this' = Some "x509+sha256"%string.
Proof.
  eexists. split; [vm_compute; reflexivity|].
  refine ((fun H => conj (proj1 H)
                      (proj1 (proj2 (proj2 (proj2 H))) eq_refl))
            (sign_then_verify exampleSignSubject exampleVerifySubject 3
               [x07] (Some [[x01]; [x02]]) unsignedRequest _ _ _)).
  - intros h msg key chain sig H. apply (f_equal (fun o => match o with
                                                       | Some s => s
                                                       | None => []
                                                       end)) in H.
    cbn in H. subst sig. unfold exampleVerifySubject.
    rewrite length_app, Nat.add_sub, skipn_app, skipn_all, Nat.sub_diag.
    cbn [skipn app].
    destruct (list_eq_dec byte_eq_dec msg msg) as [_|N];
      [reflexivity | now destruct N].
  - vm_compute. reflexivity.
Defined.

(** X17. [sign] on a request whose [pkiType] is given and is not one of
    'x509+sha1' and 'x509+sha256' raises what [getAlgorithm] raises,
    before the signer is called: the signature is as it was. The chain
    has been replaced by then when certificates were given. *)
Theorem sign_raises_on_unsupported_pkiType
  (signSubject : string -> Buffer -> Buffer -> list Buffer -> option Buffer)
  (fuel : nat) (key : Buffer) (this : PaymentRequest.t) (e : error) :
  falsy (pkiType this) = false ->
  getAlgorithm this = Throw e ->
  sign signSubject fuel key None this = (Throw e, this)
  /\ (forall certs,
        Forall (fun c => len c < 2 ^ 32) certs ->
        sign signSubject fuel key (Some certs) this
        = (Throw e,
           setPkiData this (Some (concat (map (encBytes 1) certs))))).
Proof.
  intros Hf He. split.
  - unfold sign. unfold bind at 1, ret at 1. unfold bind at 1, get.
    unfold bind at 1. rewrite Hf. unfold ret at 1.
    unfold bind at 1, get. unfold bind at 1, liftResult at 1.
    rewrite He. reflexivity.
  - intros certs Hc. unfold sign.
    rewrite (bind_Ok _ _ _ _ _ (setChain_run certs this Hc)).
    set (this1 := setPkiData this (Some (concat (map (encBytes 1) certs)))).
    assert (pkiType this1 = pkiType this) as Ht
      by (subst this1; destruct this; reflexivity).
    unfold bind at 1, get. unfold bind at 1. rewrite Ht, Hf.
    unfold ret at 1. unfold bind at 1, get.
    unfold bind at 1, liftResult at 1.
    rewrite (getAlgorithm_pkiType _ _ Ht), He. reflexivity.
Qed.

Lemma sign_raises_on_unsupported_pkiType_witness :
  sign exampleSignSubject 2 [x07] None
    (setPkiType signedRequest (Some "x509+md5"%string))
  = (Throw (Error "Unknown hash algorithm: md5."),
     setPkiType signedRequest (Some "x509+md5"%string)).
Proof.
  apply (sign_raises_on_unsupported_pkiType exampleSignSubject 2 [x07]
           (setPkiType signedRequest (Some "x509+md5"%string))).
  - reflexivity.
  - reflexivity.
Defined.

(** X18. [verify] raises only from reading the chain or from serializing:
    on a request whose chain [getChain] reads and whose [signatureData]
    can be written, it answers a boolean and leaves the request as it
    was, whatever the verifier does. *)
Theorem verify_answers_when_the_chain_reads
  (verifySubject :
     string -> Buffer -> option Buffer -> list Buffer -> option bool)
  (fuel : nat) (this : PaymentRequest.t) (chain : list Buffer)
  (msg : Buffer) :
  fst (getChain fuel this) = Ok chain ->
  fst (signatureData this) = Ok msg ->
  exists b, verify verifySubject fuel this = (Ok b, this).
Proof.
  intros Hc Hm.
  assert (signatureData this = (Ok msg, this)) as Hsd.
  { rewrite signatureData_run in *.
    destruct (toRaw (setSignature this (Some []))); try discriminate.
    cbn [fst] in Hm. congruence. }
  assert (getChain fuel this = (Ok chain, this)) as Hgc
    by (rewrite getChain_run, Hc; reflexivity).
  destruct (falsy (pkiType this)) eqn:Hf.
  { exists false. apply verify_false_early. now left. }
  destruct (strictEq (pkiType this) "none") eqn:Hn.
  { exists false. apply verify_false_early. right. left.
    unfold strictEq in Hn. destruct (pkiType this) as [s|]; [|discriminate].
    apply String.eqb_eq in Hn. now subst. }
  destruct (signature this) as [sig|] eqn:Hsig.
  2: { exists false. apply verify_false_early. right. right. now left. }
  destruct (getAlgorithm this) as [alg| |] eqn:Halg.
  - unfold verify, bind at 1, get. rewrite Hf, Hn, Hsig. cbn [orb].
    unfold bind at 1, tryCatch at 1, bind at 1, liftResult at 1.
    rewrite Halg. cbn [ret]. unfold bind. rewrite Hsd, Hgc, Hsig.
    unfold tryCatch, external, get.
    destruct (verifySubject (hash alg) msg (Some sig) chain) as [b|].
    + now exists b.
    + now exists false.
  - exists false. apply verify_false_early. right. right. right.
    now exists e.
  - exfalso. revert Halg. unfold getAlgorithm.
    repeat match goal with
           | |- context [if ?c then _ else _] => destruct c
           | |- context [match ?c with _ => _ end] => destruct c
           end; discriminate.
Qed.

Lemma verify_answers_when_the_chain_reads_witness :
  exists b,
    verify exampleVerifySubject 2 signedRequest = (Ok b, signedRequest).
Proof.
  apply (verify_answers_when_the_chain_reads exampleVerifySubject 2
           signedRequest [] (unsignedRaw ++ [x2a; x00])).
  - reflexivity.
  - vm_compute. reflexivity.
Defined.

Lemma nth_length_pred_last {A} (l : list A) (d : A) :
  nth (length l - 1) l d = last l d.
Proof.
  induction l as [|a [|b l] IH]; [reflexivity | reflexivity |].
  cbn [length] in *. rewrite Nat.sub_succ, Nat.sub_0_r in *.
  cbn [nth last] in *. exact IH.
Qed.

(** X19. [getCA] answers the authority of the last certificate of the
    chain: on a request with a [pkiType] other than 'none' whose chain was
    set with [setChain], it parses the last certificate that was given
    and no other, and raises 'No CA found (chain).' when none was given.
    Without a [pkiType], or with 'none', it raises 'No CA found
    (pkiType).' whatever the chain. *)
Theorem getCA_is_of_the_last_certificate (Certificate Name : Type)
  (parse : Buffer -> option Certificate)
  (getCAName : Certificate -> option Name)
  (isTrusted : Certificate -> option bool)
  (fuel : nat) (certs : list Buffer) (this0 this : PaymentRequest.t) :
  setChain certs this0 = (Ok tt, this) ->
  Forall (fun c => len c < 2 ^ 32) certs ->
  (length certs < fuel)%nat ->
  getCA Certificate Name parse getCAName isTrusted fuel this =
  if falsy (pkiType this0) || strictEq (pkiType this0) "none"
  then (Throw (Error "No CA found (pkiType)."), this)
  else
    match certs with
    | [] => (Throw (Error "No CA found (chain)."), this)
    | _ =>
        match parse (last certs []) with
        | Some root =>
            newCA Certificate Name getCAName isTrusted root this
        | None => (Throw (Error "x509"), this)
        end
    end.
Proof.
  intros Hset Hc Hfuel.
  pose proof (setChain_fields _ _ _ _ Hset) as (Ht & _).
  rewrite (setChain_run certs this0 Hc) in Hset.
  apply pair_inv in Hset as [_ Hthis].
  assert (pkiData this = Some (concat (map (encBytes 1) certs))) as Hd
    by (subst this; destruct this0; reflexivity).
  unfold getCA, bind at 1, get. rewrite Ht.
  destruct (falsy (pkiType this0) || strictEq (pkiType this0) "none");
    [reflexivity|].
  rewrite (bind_Ok _ _ _ _ _ (getChain_encoded certs fuel this Hc Hfuel Hd)).
  destruct certs as [|c certs]; [reflexivity|].
  cbn [length Nat.eqb]. rewrite <- (nth_length_pred_last (c :: certs)).
  cbn [length]. unfold bind at 1, external at 1.
  destruct (parse (nth (S (length certs) - 1) (c :: certs) []));
    reflexivity.
Qed.

Lemma getCA_is_of_the_last_certificate_witness :
  exists this,
    setChain [[x01]; [x02]] signedRequest = (Ok tt, this)
    /\ getCA Buffer Buffer (fun b => Some b) (fun c => Some c)
         (fun c => Some true) 3 this
       = (Ok (mkCA Buffer Buffer [x02] true [x02]), this).
Proof.
  eexists. split; [vm_compute; reflexivity|].
  rewrite (getCA_is_of_the_last_certificate Buffer Buffer
             (fun b => Some b) (fun c => Some c) (fun c => Some true)
             3 [[x01]; [x02]] signedRequest).
  - reflexivity.
  - vm_compute. reflexivity.
  - repeat constructor.
  - cbn. lia.
Defined.
(** ** pk.js *)

Lemma getHash_None (alg : string) :
  alg <> "sha224"%string -> alg <> "sha256"%string ->
  alg <> "sha384"%string -> alg <> "sha512"%string ->
  pk.getHash alg = None.
Proof.
  intros H1 H2 H3 H4. unfold pk.getHash.
  apply String.eqb_neq in H1, H2, H3, H4. now rewrite H1, H2, H3, H4.
Qed.

(** X20. For a hash name other than 'sha224', 'sha256', 'sha384' and
    'sha512', so for 'sha1', the other hash that [getAlgorithm] accepts,
    [pk.verify] answers [false] whatever the message, the signature and
    the key, without a call to a primitive, and [pk.sign] raises
    'Unsupported hash algorithm'. *)
Theorem pk_unsupported_hash
  (digest : pk.Hash -> Buffer -> Buffer)
  (rsa_verify : pk.Hash -> Buffer -> Buffer -> Buffer -> option bool)
  (rsa_sign : pk.Hash -> Buffer -> Buffer -> option Buffer)
  (verifyDER : pk.Curve -> Buffer -> Buffer -> Buffer -> option bool)
  (signDER : pk.Curve -> Buffer -> Buffer -> option Buffer)
  (alg : string) (msg sig : Buffer) (key : pk.Key) :
  alg <> "sha224"%string -> alg <> "sha256"%string ->
  alg <> "sha384"%string -> alg <> "sha512"%string ->
  pk.verify digest rsa_verify verifyDER alg msg sig key = Ok false
  /\ pk.sign digest rsa_sign signDER alg msg key
     = Throw (Error ("Unsupported hash algorithm: " ++ alg ++ ".")).
Proof.
  intros H1 H2 H3 H4. unfold pk.verify, pk.sign.
  rewrite (getHash_None alg H1 H2 H3 H4). split; reflexivity.
Qed.

Lemma pk_unsupported_hash_witness :
  getAlgorithm (setPkiType signedRequest (Some "x509+sha1"%string))
  = Ok (mkAlgorithm "x509" "sha1")
  /\ pk.verify (fun _ msg => msg) (fun _ _ _ _ => Some true)
       (fun _ _ _ _ => Some true) "sha1" [x01] [x02]
       (pk.mkKey "rsa" None [x03])
     = Ok false.
Proof.
  split; [reflexivity|].
  refine (proj1 (pk_unsupported_hash (fun _ msg => msg)
                   (fun _ _ _ _ => Some true) (fun _ _ _ => None)
                   (fun _ _ _ _ => Some true) (fun _ _ _ => None)
                   "sha1" [x01] [x02] (pk.mkKey "rsa" None [x03])
                   _ _ _ _)); discriminate.
Defined.

(** X21. When [pk.sign] returns a signature, the hash is one of the four,
    the key is an RSA key or an ECDSA key on one of the four curves, and
    [pk.verify] with the same hash name and key is decided by the
    primitive of that key on the digest of the message: none of its early
    answers occurs. *)
Theorem pk_verify_after_sign
  (digest : pk.Hash -> Buffer -> Buffer)
  (rsa_verify : pk.Hash -> Buffer -> Buffer -> Buffer -> option bool)
  (rsa_sign : pk.Hash -> Buffer -> Buffer -> option Buffer)
  (verifyDER : pk.Curve -> Buffer -> Buffer -> Buffer -> option bool)
  (signDER : pk.Curve -> Buffer -> Buffer -> option Buffer)
  (alg : string) (msg sig : Buffer) (key : pk.Key) :
  pk.sign digest rsa_sign signDER alg msg key = Ok sig ->
  exists h,
    pk.getHash alg = Some h
    /\ ((pk.alg key = "rsa"%string
         /\ rsa_sign h (digest h msg) (pk.data key) = Some sig
         /\ forall sig',
              pk.verify digest rsa_verify verifyDER alg msg sig' key
              = pk.call (rsa_verify h (digest h msg) sig' (pk.data key)))
        \/ (pk.alg key = "ecdsa"%string
            /\ exists c,
                 pk.getCurve (pk.curve key) = Ok (Some c)
                 /\ signDER c (digest h msg) (pk.data key) = Some sig
                 /\ forall sig',
                      pk.verify digest rsa_verify verifyDER alg msg sig' key
                      = pk.call (verifyDER c (digest h msg) sig'
                                   (pk.data key)))).
Proof.
  unfold pk.sign, pk.verify. intros H.
  destruct (pk.getHash alg) as [h|]; [|discriminate].
  exists h. split; [reflexivity|].
  destruct (String.eqb (pk.alg key) "rsa") eqn:Ersa.
  - left. apply String.eqb_eq in Ersa. split; [exact Ersa|].
    split; [|reflexivity].
    unfold pk.call in H. destruct (rsa_sign h (digest h msg) (pk.data key));
      [|discriminate].
    now apply Ok_inv in H as ->.
  - destruct (String.eqb (pk.alg key) "ecdsa") eqn:Eec; [|discriminate].
    right. apply String.eqb_eq in Eec. split; [exact Eec|].
    destruct (pk.getCurve (pk.curve key)) as [[c|]| |]; try discriminate.
    exists c. split; [reflexivity|]. split; [|reflexivity].
    cbn [bindR] in H. unfold pk.call in H.
    destruct (signDER c (digest h msg) (pk.data key)); [|discriminate].
    now apply Ok_inv in H as ->.
Qed.

Lemma pk_verify_after_sign_witness :
  pk.sign (fun _ msg => msg) (fun _ d k => Some (k ++ d))
    (fun _ _ _ => None) "sha256" [x01] (pk.mkKey "rsa" None [x03])
  = Ok [x03; x01]
  /\ exists h, pk.getHash "sha256" = Some h.
Proof.
  split; [reflexivity|].
  destruct (pk_verify_after_sign (fun _ msg => msg)
              (fun _ _ _ _ => Some true) (fun _ d k => Some (k ++ d))
              (fun _ _ _ _ => Some true) (fun _ _ _ => None)
              "sha256" [x01] [x03; x01] (pk.mkKey "rsa" None [x03])
              eq_refl) as (h & Hh & _).
  exists h. exact Hh.
Defined.

(** X22. With a supported hash, the two functions differ on a curve they
    do not know, where [pk.verify] answers [false] and [pk.sign] raises
    'Unsupported curve', and agree on a key algorithm other than 'rsa' and
    'ecdsa', where both raise 'Unsupported algorithm'. *)
Theorem pk_unknown_curve_and_algorithm
  (digest : pk.Hash -> Buffer -> Buffer)
  (rsa_verify : pk.Hash -> Buffer -> Buffer -> Buffer -> option bool)
  (rsa_sign : pk.Hash -> Buffer -> Buffer -> option Buffer)
  (verifyDER : pk.Curve -> Buffer -> Buffer -> Buffer -> option bool)
  (signDER : pk.Curve -> Buffer -> Buffer -> option Buffer)
  (alg : string) (h : pk.Hash) (msg sig : Buffer) (key : pk.Key) :
  pk.getHash alg = Some h ->
  (forall c,
     pk.alg key = "ecdsa"%string -> pk.curve key = Some c ->
     c <> "p224"%string -> c <> "p256"%string ->
     c <> "p384"%string -> c <> "p521"%string ->
     pk.verify digest rsa_verify verifyDER alg msg sig key = Ok false
     /\ pk.sign digest rsa_sign signDER alg msg key
        = Throw (Error ("Unsupported curve: " ++ c ++ ".")))
  /\ (pk.alg key <> "rsa"%string -> pk.alg key <> "ecdsa"%string ->
      pk.verify digest rsa_verify verifyDER alg msg sig key
      = Throw (Error ("Unsupported algorithm: " ++ pk.alg key ++ "."))
      /\ pk.sign digest rsa_sign signDER alg msg key
         = Throw (Error ("Unsupported algorithm: " ++ pk.alg key ++ "."))).
Proof.
  intros Hh. unfold pk.verify, pk.sign. rewrite Hh. split.
  - intros c Ha Hc H1 H2 H3 H4. rewrite Ha, Hc. cbn [String.eqb Ascii.eqb Bool.eqb].
    unfold pk.getCurve.
    apply String.eqb_neq in H1, H2, H3, H4. rewrite H1, H2, H3, H4.
    split; reflexivity.
  - intros H1 H2. apply String.eqb_neq in H1, H2. rewrite H1, H2.
    split; reflexivity.
Qed.

Lemma pk_unknown_curve_and_algorithm_witness :
  pk.getHash "sha256" = Some pk.SHA256
  /\ pk.verify (fun _ msg => msg) (fun _ _ _ _ => Some true)
       (fun _ _ _ _ => Some true) "sha256" [x01] [x02]
       (pk.mkKey "ecdsa" (Some "secp256k1"%string) [x03])
     = Ok false.
Proof.
  split; [reflexivity|].
  refine (proj1 (proj1 (pk_unknown_curve_and_algorithm (fun _ msg => msg)
                   (fun _ _ _ _ => Some true) (fun _ _ _ => None)
                   (fun _ _ _ _ => Some true) (fun _ _ _ => None)
                   "sha256" pk.SHA256 [x01] [x02]
                   (pk.mkKey "ecdsa" (Some "secp256k1"%string) [x03])
                   eq_refl) "secp256k1"%string eq_refl eq_refl _ _ _ _));
    discriminate.
Defined.

(** ** [setData] and [getData] *)

(** X23. What [setData] stores, [getData] answers: a buffer is answered as
    it was given; a value that is stored as JSON, with no encoding or with
    'json', is answered by [getData('json')] as [JSON.parse] reads the
    decoded bytes of the text that [JSON.stringify] wrote, which is that
    text when it is well formed; [null] clears the data; and a value with
    another encoding raises and leaves the data as they were. *)
Theorem setData_then_getData (J : Type)
  (JSON_stringify : J -> option string)
  (fromString : string -> string -> option Buffer)
  (JSON_parse : string -> option J)
  (toString : Buffer -> string -> option string)
  (this : PaymentDetails.t) :
  (forall b enc,
     exists this',
       PaymentDetails.setData J JSON_stringify fromString
         (PaymentDetails.ABuffer b) enc this = (Ok tt, this')
       /\ PaymentDetails.getData J JSON_parse toString this' None
          = Ok (PaymentDetails.DBuffer b))
  /\ (forall j s enc,
        JSON_stringify j = Some s ->
        enc = None \/ enc = Some EmptyString \/ enc = Some "json"%string ->
        exists this',
          PaymentDetails.setData J JSON_stringify fromString
            (PaymentDetails.AValue j) enc this = (Ok tt, this')
          /\ PaymentDetails.merchantData this'
             = Some (list_byte_of_string s)
          /\ PaymentDetails.getData J JSON_parse toString this'
               (Some "json"%string)
             = match JSON_parse (reread s) with
               | Some j' => Ok (PaymentDetails.DJson j')
               | None => Ok PaymentDetails.DNull
               end
          /\ (wellFormed s ->
              PaymentDetails.getData J JSON_parse toString this'
                (Some "json"%string)
              = match JSON_parse s with
                | Some j' => Ok (PaymentDetails.DJson j')
                | None => Ok PaymentDetails.DNull
                end))
  /\ (forall j enc,
        enc <> None -> enc <> Some EmptyString ->
        enc <> Some "json"%string ->
        PaymentDetails.setData J JSON_stringify fromString
          (PaymentDetails.AValue j) enc this
        = (Throw (AssertionError "Assertion failed."), this))
  /\ (forall enc enc',
        exists this',
          PaymentDetails.setData J JSON_stringify fromString
            PaymentDetails.ANull enc this = (Ok tt, this')
          /\ PaymentDetails.getData J JSON_parse toString this' enc'
             = Ok PaymentDetails.DNull).
Proof.
  split; [|split; [|split]].
  - intros b enc. eexists. split; [reflexivity|]. reflexivity.
  - intros j s enc Hs Henc.
    exists (PaymentDetails.setMerchantData this
              (Some (list_byte_of_string s))).
    assert (PaymentDetails.setDataOf J JSON_stringify fromString
              (PaymentDetails.AValue j) enc
            = Ok (Some (list_byte_of_string s))) as E.
    { unfold PaymentDetails.setDataOf. rewrite Hs.
      destruct Henc as [->|[->| ->]]; reflexivity. }
    assert (PaymentDetails.getData J JSON_parse toString
              (PaymentDetails.setMerchantData this
                 (Some (list_byte_of_string s))) (Some "json"%string)
            = match JSON_parse (reread s) with
              | Some j' => Ok (PaymentDetails.DJson j')
              | None => Ok PaymentDetails.DNull
              end) as G.
    { unfold PaymentDetails.getData, PaymentDetails.getDataOf.
      cbn [PaymentDetails.setMerchantData PaymentDetails.merchantData].
      cbn [String.eqb Ascii.eqb Bool.eqb]. fold (reread s).
      destruct (JSON_parse (reread s)); reflexivity. }
    split; [|split; [|split]].
    + unfold PaymentDetails.setData, bind, liftResult. rewrite E.
      reflexivity.
    + reflexivity.
    + exact G.
    + intros Hwf. rewrite G. now rewrite reread_wellFormed.
  - intros j enc H1 H2 H3.
    unfold PaymentDetails.setData, bind, liftResult,
      PaymentDetails.setDataOf.
    destruct enc as [[|c enc]|]; try congruence.
    destruct (String.eqb (String c enc) "json") eqn:E.
    + apply String.eqb_eq in E. congruence.
    + reflexivity.
  - intros enc enc'. eexists. split; [reflexivity|]. reflexivity.
Qed.

(** X26. Expiry is for good: payment details that are expired at one time
    are expired at every later time. *)
Theorem isExpired_monotone (now later : Z) (this : PaymentDetails.t) :
  now <= later ->
  PaymentDetails.isExpired now this = true ->
  PaymentDetails.isExpired later this = true.
Proof.
  unfold PaymentDetails.isExpired. intros Hle.
  destruct (PaymentDetails.expires this =? -1); [trivial|].
  intros H. apply Z.ltb_lt in H. apply Z.ltb_lt.
  assert (now / 1000 <= later / 1000) by (apply Z.div_le_mono; lia).
  lia.
Qed.

Lemma isExpired_monotone_witness :
  PaymentDetails.isExpired 3000000
    (PaymentRequest.paymentDetails signedRequest) = true.
Proof.
  apply (isExpired_monotone 2001000 3000000); [lia | reflexivity].
Defined.
(** ** [fromOptions] *)

Lemma bind_inv {S A B} (m : M S A) (k : A -> M S B) (s s' : S) (b : B) :
  bind m k s = (Ok b, s') ->
  exists a s1, m s = (Ok a, s1) /\ k a s1 = (Ok b, s').
Proof.
  unfold bind. destruct (m s) as [[a| |] s1]; try discriminate.
  intros H. now exists a, s1.
Qed.

Lemma ToInt32_fixed (v : Z) :
  (JS.ToInt32 v =? v) = true <-> - 2 ^ 31 <= v < 2 ^ 31.
Proof.
  rewrite Z.eqb_eq. unfold JS.ToInt32.
  pose proof (Z.mod_pos_bound v (2 ^ 32) ltac:(lia)) as Hm.
  destruct (v mod 2 ^ 32 <? 2 ^ 31) eqn:E;
    [apply Z.ltb_lt in E | apply Z.ltb_ge in E]; split; intros H.
  - lia.
  - destruct (Z_lt_le_dec v 0) as [Hneg|Hpos].
    + exfalso.
      assert (v mod 2 ^ 32 = v + 2 ^ 32); [|lia].
      symmetry. apply (Z.mod_unique v (2 ^ 32) (-1)); lia.
    + apply Z.mod_small. lia.
  - lia.
  - destruct (Z_lt_le_dec v 0) as [Hneg|Hpos].
    + assert (v mod 2 ^ 32 = v + 2 ^ 32); [|lia].
      symmetry. apply (Z.mod_unique v (2 ^ 32) (-1)); lia.
    + exfalso. rewrite Z.mod_small in E by lia. lia.
Qed.

Lemma checkOutput_accepted (o : Output) :
  acceptedOutput o -> checkOutput o = Ok tt.
Proof.
  unfold acceptedOutput, checkOutput, isSafeInteger, assert.
  intros [Hv Hs].
  replace (- (2 ^ 53 - 1) <=? value o) with true
    by (symmetry; apply Z.leb_le; lia).
  replace (value o <=? 2 ^ 53 - 1) with true
    by (symmetry; apply Z.leb_le; lia).
  replace (0 <=? value o) with true by (symmetry; apply Z.leb_le; lia).
  destruct (script o); [reflexivity | congruence].
Qed.

Lemma checkOutput_rejected (o : Output) :
  ~ acceptedOutput o ->
  checkOutput o = Throw (AssertionError "Assertion failed.").
Proof.
  unfold acceptedOutput, checkOutput, isSafeInteger, assert.
  intros H.
  destruct ((- (2 ^ 53 - 1) <=? value o) && (value o <=? 2 ^ 53 - 1)
            && (0 <=? value o)) eqn:E; [|reflexivity].
  destruct (script o) eqn:Es; [|reflexivity].
  exfalso. apply H.
  apply andb_prop in E as [E E3]. apply andb_prop in E as [E1 E2].
  apply Z.leb_le in E1, E2, E3. split; [lia | discriminate].
Qed.

Lemma checkOutput_Ok_inv (o : Output) :
  checkOutput o = Ok tt -> acceptedOutput o.
Proof.
  intros H. destruct (Z_le_dec 0 (value o)) as [H0|H0];
    [destruct (Z_le_dec (value o) (2 ^ 53 - 1)) as [H1|H1];
       [destruct (script o) eqn:Es|]|];
    try (split; [lia | congruence]);
    rewrite checkOutput_rejected in H; try discriminate;
    unfold acceptedOutput; intros [? ?]; try lia; congruence.
Qed.

Lemma PaymentDetails_setOutputs_app (this : PaymentDetails.t)
  (a b : list Output) :
  PaymentDetails.setOutputs
    (PaymentDetails.setOutputs this (PaymentDetails.outputs this ++ a))
    (PaymentDetails.outputs
       (PaymentDetails.setOutputs this (PaymentDetails.outputs this ++ a))
     ++ b)
  = PaymentDetails.setOutputs this (PaymentDetails.outputs this ++ a ++ b).
Proof. destruct this. cbn. now rewrite <- app_assoc. Qed.

Lemma PaymentDetails_setOutputs_nil (this : PaymentDetails.t) :
  PaymentDetails.setOutputs this (PaymentDetails.outputs this ++ []) = this.
Proof. destruct this. cbn. now rewrite app_nil_r. Qed.

(** The loop over the outputs of the options: the outputs are appended one
    by one up to the first that is not accepted. *)
Lemma PaymentDetails_pushOutputs (xs : list Output) :
  forall this : PaymentDetails.t,
    (Forall acceptedOutput xs ->
     forEachM xs PaymentDetails.pushOutput this
     = (Ok tt,
        PaymentDetails.setOutputs this (PaymentDetails.outputs this ++ xs)))
    /\ (forall good bad rest,
          xs = good ++ bad :: rest ->
          Forall acceptedOutput good -> ~ acceptedOutput bad ->
          forEachM xs PaymentDetails.pushOutput this
          = (Throw (AssertionError "Assertion failed."),
             PaymentDetails.setOutputs this
               (PaymentDetails.outputs this ++ good))).
Proof.
  induction xs as [|x xs IH]; intros this.
  - split.
    + intros _. cbn [forEachM]. unfold ret.
      now rewrite PaymentDetails_setOutputs_nil.
    + intros [|g good] bad rest E; discriminate E.
  - cbn [forEachM]. split.
    + intros H. apply Forall_cons_iff in H as [Hx Hxs].
      unfold PaymentDetails.pushOutput at 1.
      unfold bind at 1, bind at 1, liftResult at 1.
      rewrite (checkOutput_accepted x Hx).
      unfold bind at 1, get, put.
      rewrite (proj1 (IH _) Hxs).
      now rewrite (PaymentDetails_setOutputs_app this [x] xs).
    + intros [|g good] bad rest E Hg Hb.
      * cbn [app] in E. injection E as E1 E2. subst x xs.
        unfold PaymentDetails.pushOutput at 1.
        unfold bind at 1, bind at 1, liftResult at 1.
        rewrite (checkOutput_rejected bad Hb).
        now rewrite PaymentDetails_setOutputs_nil.
      * cbn [app] in E. injection E as E1 E2. subst x xs.
        apply Forall_cons_iff in Hg as [Hx Hg].
        unfold PaymentDetails.pushOutput at 1.
        unfold bind at 1, bind at 1, liftResult at 1.
        rewrite (checkOutput_accepted g Hx).
        unfold bind at 1, get, put.
        rewrite (proj2 (IH _) good bad rest eq_refl Hg Hb).
        now rewrite (PaymentDetails_setOutputs_app this [g] good).
Qed.

Lemma PaymentDetails_pushOutputs_inv (xs : list Output) :
  forall this this' : PaymentDetails.t,
    forEachM xs PaymentDetails.pushOutput this = (Ok tt, this') ->
    Forall acceptedOutput xs
    /\ this' = PaymentDetails.setOutputs this
                 (PaymentDetails.outputs this ++ xs).
Proof.
  induction xs as [|x xs IH]; intros this this' H.
  - cbn in H. apply pair_inv in H as [_ <-].
    split; [constructor | now rewrite PaymentDetails_setOutputs_nil].
  - cbn [forEachM] in H. apply bind_inv in H as ([] & s1 & H1 & H).
    unfold PaymentDetails.pushOutput in H1.
    apply bind_inv in H1 as ([] & s0 & H0 & H1).
    unfold liftResult in H0. apply pair_inv in H0 as [H0 <-].
    apply checkOutput_Ok_inv in H0.
    unfold bind, get, put in H1. apply pair_inv in H1 as [_ <-].
    apply IH in H as [Hxs ->].
    split; [now constructor|].
    now rewrite (PaymentDetails_setOutputs_app this [x] xs).
Qed.
Lemma assign_step {S A} (o : option A) (f : S -> A -> S) (s s' : S)
  (r : result unit) :
  (match o with
   | Some x => this <- get ;; put (f this x)
   | None => ret tt
   end) s = (r, s') ->
  r = Ok tt /\ s' = match o with Some x => f s x | None => s end.
Proof.
  destruct o; unfold bind, get, put, ret; intros H;
    apply pair_inv in H as [<- <-]; now split.
Qed.

Lemma checked_assign_step {S} (o : option Z) (c : Z -> bool)
  (f : S -> Z -> S) (s s' : S) :
  (match o with
   | Some x =>
       _ <- assertM (c x) "Assertion failed." ;;
       this <- get ;; put (f this x)
   | None => ret tt
   end) s = (Ok tt, s') ->
  s' = match o with Some x => f s x | None => s end
  /\ (forall x, o = Some x -> c x = true).
Proof.
  destruct o as [x|]; unfold bind, get, put, ret, assertM, throw.
  - destruct (c x) eqn:E; [|discriminate].
    intros H. apply pair_inv in H as [_ <-].
    split; [reflexivity|]. intros y Hy. now injection Hy as <-.
  - intros H. apply pair_inv in H as [_ <-]. split; [reflexivity|].
    discriminate.
Qed.

Lemma isSafeInteger_range (v : Z) :
  isSafeInteger v = true -> - (2 ^ 53 - 1) <= v <= 2 ^ 53 - 1.
Proof.
  unfold isSafeInteger. intros H. apply andb_prop in H as [H1 H2].
  apply Z.leb_le in H1, H2. lia.
Qed.

Lemma PaymentDetails_setData_fields (J : Type)
  (JSON_stringify : J -> option string)
  (fromString : string -> string -> option Buffer)
  (data : PaymentDetails.DataArg J) (enc : option string)
  (this this' : PaymentDetails.t) (r : result unit) :
  PaymentDetails.setData J JSON_stringify fromString data enc this
  = (r, this') ->
  PaymentDetails.outputs this' = PaymentDetails.outputs this
  /\ PaymentDetails.time this' = PaymentDetails.time this
  /\ PaymentDetails.expires this' = PaymentDetails.expires this.
Proof.
  unfold PaymentDetails.setData, bind, liftResult, get, put.
  destruct (PaymentDetails.setDataOf J JSON_stringify fromString data enc);
    intros H; apply pair_inv in H as [_ <-]; destruct this; repeat split.
Qed.

(** X24. [PaymentDetails.fromOptions] appends the outputs it is given to
    those of the object, after checking of each that its value is a safe
    integer that is not negative and that it has a script, and takes a
    time and an expiry that are safe integers. It is not atomic: when an
    output is not accepted it raises, and the outputs before that one
    have been appended. *)
Theorem PaymentDetails_fromOptions_outputs (J : Type)
  (JSON_stringify : J -> option string) (truthy : J -> bool)
  (fromString : string -> string -> option Buffer)
  (options : PaymentDetails.Options.t J) (this : PaymentDetails.t) :
  (forall this',
     PaymentDetails.fromOptions J JSON_stringify truthy fromString
       options this = (Ok tt, this') ->
     PaymentDetails.outputs this'
     = PaymentDetails.outputs this
       ++ givenList (PaymentDetails.Options.outputs options)
     /\ Forall acceptedOutput
          (givenList (PaymentDetails.Options.outputs options))
     /\ (forall t, PaymentDetails.Options.time options = Some t ->
           PaymentDetails.time this' = t
           /\ - (2 ^ 53 - 1) <= t <= 2 ^ 53 - 1)
     /\ (forall e, PaymentDetails.Options.expires options = Some e ->
           PaymentDetails.expires this' = e
           /\ - (2 ^ 53 - 1) <= e <= 2 ^ 53 - 1))
  /\ (forall good bad rest,
        PaymentDetails.Options.outputs options
        = Some (good ++ bad :: rest) ->
        Forall acceptedOutput good -> ~ acceptedOutput bad ->
        exists this1,
          PaymentDetails.fromOptions J JSON_stringify truthy fromString
            options this
          = (Throw (AssertionError "Assertion failed."), this1)
          /\ PaymentDetails.outputs this1
             = PaymentDetails.outputs this ++ good).
Proof.
  split.
  - intros this' H. unfold PaymentDetails.fromOptions in H.
    apply bind_inv in H as ([] & s1 & H1 & H).
    apply bind_inv in H as ([] & s2 & H2 & H).
    apply bind_inv in H as ([] & s3 & H3 & H).
    apply bind_inv in H as ([] & s4 & H4 & H).
    apply bind_inv in H as ([] & s5 & H5 & H).
    apply bind_inv in H as ([] & s6 & H6 & H).
    apply (assign_step _ (fun this x => PaymentDetails.setNetwork this (Some x)))
      in H1 as [_ H1].
    assert (Forall acceptedOutput
              (givenList (PaymentDetails.Options.outputs options))
            /\ s2 = PaymentDetails.setOutputs s1
                      (PaymentDetails.outputs s1
                       ++ givenList (PaymentDetails.Options.outputs options)))
      as [Hacc H2'].
    { destruct (PaymentDetails.Options.outputs options) as [xs|].
      - now apply PaymentDetails_pushOutputs_inv.
      - apply pair_inv in H2 as [_ <-]. cbn [givenList].
        split; [constructor | now rewrite PaymentDetails_setOutputs_nil]. }
    apply (checked_assign_step _ isSafeInteger PaymentDetails.setTime)
      in H3 as [H3 Htime].
    apply (checked_assign_step _ isSafeInteger PaymentDetails.setExpires)
      in H4 as [H4 Hexp].
    apply (assign_step _ (fun this x => PaymentDetails.setMemo this (Some x)))
      in H5 as [_ H5].
    apply (assign_step _
             (fun this x => PaymentDetails.setPaymentUrl this (Some x)))
      in H6 as [_ H6].
    assert (PaymentDetails.outputs this' = PaymentDetails.outputs s6
            /\ PaymentDetails.time this' = PaymentDetails.time s6
            /\ PaymentDetails.expires this' = PaymentDetails.expires s6)
      as (Ho & Ht & He).
    { destruct (PaymentDetails.given J truthy
                  (PaymentDetails.Options.merchantData options)).
      - now apply PaymentDetails_setData_fields in H.
      - apply pair_inv in H as [_ <-]. now repeat split. }
    rewrite Ho, Ht, He. subst s6 s5 s4 s3 s2 s1.
    split; [|split; [exact Hacc|split]].
    + destruct (PaymentDetails.Options.paymentUrl options),
        (PaymentDetails.Options.memo options),
        (PaymentDetails.Options.expires options),
        (PaymentDetails.Options.time options),
        (PaymentDetails.Options.network options);
        destruct this; reflexivity.
    + intros t Et. split; [|apply isSafeInteger_range, Htime, Et].
      rewrite Et.
      destruct (PaymentDetails.Options.paymentUrl options),
        (PaymentDetails.Options.memo options),
        (PaymentDetails.Options.expires options); reflexivity.
    + intros e Ee. split; [|apply isSafeInteger_range, Hexp, Ee].
      rewrite Ee.
      destruct (PaymentDetails.Options.paymentUrl options),
        (PaymentDetails.Options.memo options); reflexivity.
  - intros good bad rest Ho Hg Hb.
    unfold PaymentDetails.fromOptions.
    set (s1 := match PaymentDetails.Options.network options with
               | Some x => PaymentDetails.setNetwork this (Some x)
               | None => this
               end).
    assert ((match PaymentDetails.Options.network options with
             | Some x =>
                 this <- get ;; put (PaymentDetails.setNetwork this (Some x))
             | None => ret tt
             end) this = (Ok tt, s1)) as H1
      by (subst s1; destruct (PaymentDetails.Options.network options);
          reflexivity).
    rewrite (bind_Ok _ _ _ _ _ H1).
    rewrite Ho.
    eexists. split.
    + apply bind_Throw.
      apply (proj2 (PaymentDetails_pushOutputs _ s1) good bad rest eq_refl
               Hg Hb).
    + subst s1. destruct (PaymentDetails.Options.network options);
        destruct this; reflexivity.
Qed.

Lemma PaymentDetails_fromOptions_outputs_witness :
  exists this1,
    PaymentDetails.fromOptions string (fun s => Some s) (fun _ => true)
      (fun _ _ => None)
      (PaymentDetails.Options.mk None
         (Some [mkOutput 1 (Some []); mkOutput (-1) (Some [])])
         None None None None PaymentDetails.ANull)
      (PaymentDetails.create 0)
    = (Throw (AssertionError "Assertion failed."), this1)
    /\ PaymentDetails.outputs this1 = [mkOutput 1 (Some [])].
Proof.
  apply (proj2 (PaymentDetails_fromOptions_outputs string
                  (fun s => Some s) (fun _ => true) (fun _ _ => None)
                  (PaymentDetails.Options.mk None
                     (Some [mkOutput 1 (Some []); mkOutput (-1) (Some [])])
                     None None None None PaymentDetails.ANull)
                  (PaymentDetails.create 0))
           [mkOutput 1 (Some [])] (mkOutput (-1) (Some [])) []).
  - reflexivity.
  - repeat constructor; cbn; try lia. discriminate.
  - intros [H _]. cbn in H. lia.
Defined.

Lemma within_inv {S S' A} (member : S -> S') (update : S -> S' -> S)
  (m : M S' A) (s s' : S) (r : result A) :
  within member update m s = (r, s') ->
  exists d, m (member s) = (r, d) /\ s' = update s d.
Proof.
  unfold within. destruct (m (member s)) as [r0 d].
  intros H. apply pair_inv in H as [<- <-]. now exists d.
Qed.

Lemma optional_within_fields {S S' : Type} {O : Type} (member : S -> S')
  (update : S -> S' -> S) (o : option O) (m : O -> M S' unit) (s s' : S)
  (r : result unit) :
  (match o with
   | Some x => within member update (m x)
   | None => ret tt
   end) s = (r, s') ->
  s' = s \/ exists d, s' = update s d.
Proof.
  destruct o as [x|].
  - intros H. apply within_inv in H as (d & _ & ->). right. now exists d.
  - intros H. apply pair_inv in H as [_ <-]. now left.
Qed.

Lemma setChain_pkiData (certs : list Buffer) (this this' : PaymentRequest.t) :
  setChain certs this = (Ok tt, this') ->
  pkiData this' = Some (concat (map (encBytes 1) certs)).
Proof.
  unfold setChain, bind, liftResult, get, put.
  destruct (ProtoWriter.forEach certs (ProtoWriter.writeFieldBytes 1)
              ProtoWriter.new) as [bw| |] eqn:E; try discriminate.
  apply forEach_writeFieldBytes_inv in E. cbn [app ProtoWriter.new] in E.
  intros H. apply pair_inv in H as [_ <-]. subst bw.
  destruct this; reflexivity.
Qed.

(** X25. [PaymentRequest.fromOptions] takes a version exactly when it is a
    signed 32-bit integer: on such a version it sets it and goes on with
    the other options, on any other it raises and leaves the request as
    it was. A chain that is given wins over [pkiData]: with a version in
    range, no payment details and certificates shorter than 2^32 bytes the
    call returns, the version is the one given and [pkiData] is the
    serialized chain; and whenever the call returns, the version given is
    the version, [pkiData] is the serialized chain and [getChain] answers
    the certificates that were given. *)
Theorem PaymentRequest_fromOptions_version_and_chain (J : Type)
  (JSON_stringify : J -> option string) (truthy : J -> bool)
  (fromString : string -> string -> option Buffer)
  (options : PaymentRequest.Options.t J) (this : PaymentRequest.t) :
  (forall v,
     PaymentRequest.Options.version options = Some v ->
     (~ (- 2 ^ 31 <= v < 2 ^ 31) ->
      PaymentRequest.fromOptions J JSON_stringify truthy fromString
        options this
      = (Throw (AssertionError "Assertion failed."), this))
     /\ (- 2 ^ 31 <= v < 2 ^ 31 ->
         PaymentRequest.fromOptions J JSON_stringify truthy fromString
           options this
         = PaymentRequest.fromOptions J JSON_stringify truthy fromString
             (PaymentRequest.Options.mk None
                (PaymentRequest.Options.pkiType options)
                (PaymentRequest.Options.pkiData options)
                (PaymentRequest.Options.paymentDetails options)
                (PaymentRequest.Options.signature options)
                (PaymentRequest.Options.chain options))
             (setVersion this v)))
  /\ (forall v certs,
        PaymentRequest.Options.version options = Some v ->
        - 2 ^ 31 <= v < 2 ^ 31 ->
        PaymentRequest.Options.paymentDetails options = None ->
        PaymentRequest.Options.chain options = Some certs ->
        Forall (fun c => len c < 2 ^ 32) certs ->
        PaymentRequest.fromOptions J JSON_stringify truthy fromString
          options this
        = (Ok tt,
           PaymentRequest.mk v
             match PaymentRequest.Options.pkiType options with
             | Some x => Some x
             | None => pkiType this
             end
             (Some (concat (map (encBytes 1) certs)))
             (paymentDetails this)
             match PaymentRequest.Options.signature options with
             | Some x => Some x
             | None => signature this
             end))
  /\ (forall this',
        PaymentRequest.fromOptions J JSON_stringify truthy fromString
          options this = (Ok tt, this') ->
        (forall v,
           PaymentRequest.Options.version options = Some v ->
           version this' = v /\ - 2 ^ 31 <= v < 2 ^ 31)
        /\ (forall certs,
              PaymentRequest.Options.chain options = Some certs ->
              pkiData this' = Some (concat (map (encBytes 1) certs))
              /\ forall fuel,
                   Forall (fun c => len c < 2 ^ 32) certs ->
                   (length certs < fuel)%nat ->
                   getChain fuel this' = (Ok certs, this'))).
Proof.
  split; [|split].
  - intros v Hv. split.
    + intros Hr. unfold PaymentRequest.fromOptions. rewrite Hv.
      destruct (JS.ToInt32 v =? v) eqn:E.
      * apply ToInt32_fixed in E. contradiction.
      * reflexivity.
    + intros Hr. apply ToInt32_fixed in Hr.
      unfold PaymentRequest.fromOptions. rewrite Hv.
      cbn [PaymentRequest.Options.version PaymentRequest.Options.pkiType
           PaymentRequest.Options.pkiData
           PaymentRequest.Options.paymentDetails
           PaymentRequest.Options.signature PaymentRequest.Options.chain].
      unfold bind at 1, bind at 1, assertM. rewrite Hr.
      reflexivity.
  - intros v certs Hv Hr Hd Hc Hcerts. apply ToInt32_fixed in Hr.
    unfold PaymentRequest.fromOptions. rewrite Hv, Hd, Hc.
    unfold bind at 1, bind at 1, assertM. rewrite Hr.
    unfold ret at 1, bind at 1, get at 1, put at 1.
    set (s1 := setVersion this v).
    rewrite (bind_Ok _ _ s1
               (match PaymentRequest.Options.pkiType options with
                | Some x => setPkiType s1 (Some x)
                | None => s1
                end) tt)
      by (destruct (PaymentRequest.Options.pkiType options); reflexivity).
    set (s2 := match PaymentRequest.Options.pkiType options with
               | Some x => setPkiType s1 (Some x)
               | None => s1
               end).
    rewrite (bind_Ok _ _ s2
               (match PaymentRequest.Options.pkiData options with
                | Some x => setPkiData s2 (Some x)
                | None => s2
                end) tt)
      by (destruct (PaymentRequest.Options.pkiData options); reflexivity).
    set (s3 := match PaymentRequest.Options.pkiData options with
               | Some x => setPkiData s2 (Some x)
               | None => s2
               end).
    unfold bind at 1, ret at 1.
    rewrite (bind_Ok _ _ s3
               (match PaymentRequest.Options.signature options with
                | Some x => setSignature s3 (Some x)
                | None => s3
                end) tt)
      by (destruct (PaymentRequest.Options.signature options); reflexivity).
    rewrite setChain_run by exact Hcerts.
    subst s3 s2 s1.
    destruct (PaymentRequest.Options.signature options),
      (PaymentRequest.Options.pkiData options),
      (PaymentRequest.Options.pkiType options); destruct this; reflexivity.
  - intros this' H. unfold PaymentRequest.fromOptions in H.
    apply bind_inv in H as ([] & s1 & H1 & H).
    apply bind_inv in H as ([] & s2 & H2 & H).
    apply bind_inv in H as ([] & s3 & H3 & H).
    apply bind_inv in H as ([] & s4 & H4 & H).
    apply bind_inv in H as ([] & s5 & H5 & H).
    apply (checked_assign_step _ (fun x => JS.ToInt32 x =? x) setVersion)
      in H1 as [H1 Hver].
    apply (assign_step _ (fun this x => setPkiType this (Some x)))
      in H2 as [_ H2].
    apply (assign_step _ (fun this x => setPkiData this (Some x)))
      in H3 as [_ H3].
    apply optional_within_fields in H4.
    apply (assign_step _ (fun this x => setSignature this (Some x)))
      in H5 as [_ H5].
    split.
    + intros v Ev. split; [|apply ToInt32_fixed, Hver, Ev].
      assert (version this' = version s5) as ->.
      { destruct (PaymentRequest.Options.chain options) as [certs|].
        - now apply setChain_fields in H.
        - now apply pair_inv in H as [_ <-]. }
      assert (version s4 = version s3) as E4
        by (destruct H4 as [->|[d ->]]; [reflexivity | now destruct s3]).
      subst s5 s3 s2 s1. rewrite Ev in *.
      destruct (PaymentRequest.Options.signature options);
        cbn [setSignature version]; rewrite E4;
        destruct (PaymentRequest.Options.pkiData options),
          (PaymentRequest.Options.pkiType options); reflexivity.
    + intros certs Ec. rewrite Ec in H.
      pose proof (setChain_pkiData _ _ _ H) as Hd.
      split; [exact Hd|].
      intros fuel Hc Hfuel. now apply getChain_encoded.
Qed.

(** A version of -2 with a chain and a [pkiData]: the version is taken and
    the chain wins. *)
Lemma PaymentRequest_fromOptions_version_and_chain_witness :
  PaymentRequest.fromOptions string (fun s => Some s) (fun _ => true)
    (fun _ _ => None)
    (PaymentRequest.Options.mk (Some (-2)) None (Some [x09]) None None
       (Some [[x01]]))
    (PaymentRequest.create 0)
  = (Ok tt,
     PaymentRequest.mk (-2) None (Some [x0a; x01; x01])
       (PaymentDetails.create 0) None).
Proof.
  refine (proj1 (proj2 (PaymentRequest_fromOptions_version_and_chain string
                          (fun s => Some s) (fun _ => true)
                          (fun _ _ => None)
                          (PaymentRequest.Options.mk (Some (-2)) None
                             (Some [x09]) None None (Some [[x01]]))
                          (PaymentRequest.create 0)))
            (-2) [[x01]] eq_refl _ eq_refl eq_refl _).
  - lia.
  - repeat constructor.
Defined.

Lemma Payment_pushTransactions (xs : list Buffer) :
  forall this : Payment.t,
    forEachM xs
      (fun tx =>
         this <- get ;;
         put (Payment.setTransactions this (Payment.transactions this ++ [tx])))
      this
    = (Ok tt,
       Payment.setTransactions this (Payment.transactions this ++ xs)).
Proof.
  induction xs as [|x xs IH]; intros this.
  - cbn [forEachM]. unfold ret. destruct this. cbn. now rewrite app_nil_r.
  - cbn [forEachM]. unfold bind at 1, bind at 1, get, put.
    rewrite IH. destruct this. cbn. now rewrite <- app_assoc.
Qed.

Lemma Payment_pushOutputs_inv (xs : list Output) :
  forall this this' : Payment.t,
    forEachM xs Payment.pushOutput this = (Ok tt, this') ->
    Forall acceptedOutput xs
    /\ this' = Payment.setRefundTo this (Payment.refundTo this ++ xs).
Proof.
  induction xs as [|x xs IH]; intros this this' H.
  - cbn in H. apply pair_inv in H as [_ <-].
    split; [constructor|]. destruct this. cbn. now rewrite app_nil_r.
  - cbn [forEachM] in H. apply bind_inv in H as ([] & s1 & H1 & H).
    unfold Payment.pushOutput in H1.
    apply bind_inv in H1 as ([] & s0 & H0 & H1).
    unfold liftResult in H0. apply pair_inv in H0 as [H0 <-].
    apply checkOutput_Ok_inv in H0.
    unfold bind, get, put in H1. apply pair_inv in H1 as [_ <-].
    apply IH in H as [Hxs ->].
    split; [now constructor|].
    destruct this. cbn. now rewrite <- app_assoc.
Qed.

Lemma Payment_setData_fields (J : Type)
  (JSON_stringify : J -> option string)
  (fromString : string -> string -> option Buffer)
  (data : PaymentDetails.DataArg J) (enc : option string)
  (this this' : Payment.t) (r : result unit) :
  Payment.setData J JSON_stringify fromString data enc this = (r, this') ->
  Payment.transactions this' = Payment.transactions this
  /\ Payment.refundTo this' = Payment.refundTo this.
Proof.
  unfold Payment.setData, bind, liftResult, get, put.
  destruct (PaymentDetails.setDataOf J JSON_stringify fromString data enc);
    intros H; apply pair_inv in H as [_ <-]; destruct this; repeat split.
Qed.

Lemma Payment_fromOptions_inv (J : Type)
  (JSON_stringify : J -> option string) (truthy : J -> bool)
  (fromString : string -> string -> option Buffer)
  (options : Payment.Options.t J) (this this' : Payment.t) :
  Payment.fromOptions J JSON_stringify truthy fromString options this
  = (Ok tt, this') ->
  Payment.transactions this'
  = Payment.transactions this
    ++ givenList (Payment.Options.transactions options)
  /\ Payment.refundTo this'
     = Payment.refundTo this ++ givenList (Payment.Options.refundTo options)
  /\ Forall acceptedOutput (givenList (Payment.Options.refundTo options)).
Proof.
  intros H. unfold Payment.fromOptions in H.
  apply bind_inv in H as ([] & s1 & H1 & H).
  apply bind_inv in H as ([] & s2 & H2 & H).
  apply bind_inv in H as ([] & s3 & H3 & H).
  apply (assign_step _ (fun this x => Payment.setMemo this (Some x)))
    in H as [_ H].
  assert (Payment.transactions s1 = Payment.transactions this
          /\ Payment.refundTo s1 = Payment.refundTo this) as [Et1 Er1].
  { destruct (PaymentDetails.given J truthy
                (Payment.Options.merchantData options)).
    - now apply Payment_setData_fields in H1.
    - apply pair_inv in H1 as [_ <-]. now split. }
  assert (s2 = Payment.setTransactions s1
                 (Payment.transactions s1
                  ++ givenList (Payment.Options.transactions options)))
    as E2.
  { destruct (Payment.Options.transactions options) as [xs|].
    - rewrite Payment_pushTransactions in H2.
      now apply pair_inv in H2 as [_ <-].
    - apply pair_inv in H2 as [_ <-]. cbn [givenList].
      destruct s1. cbn. now rewrite app_nil_r. }
  assert (Forall acceptedOutput
            (givenList (Payment.Options.refundTo options))
          /\ s3 = Payment.setRefundTo s2
                    (Payment.refundTo s2
                     ++ givenList (Payment.Options.refundTo options)))
    as [Hacc E3].
  { destruct (Payment.Options.refundTo options) as [xs|].
    - now apply Payment_pushOutputs_inv.
    - apply pair_inv in H3 as [_ <-]. cbn [givenList].
      split; [constructor|]. destruct s2. cbn. now rewrite app_nil_r. }
  subst this' s3 s2. rewrite <- Et1, <- Er1.
  split; [|split; [|exact Hacc]];
    destruct (Payment.Options.memo options); destruct s1; reflexivity.
Qed.

(** X27. [PaymentACK.fromOptions] hands the payment of the options to
    [Payment.fromOptions], which appends the transactions and the refund
    outputs that are given to those of the payment of the
    acknowledgement; when the call returns, every refund output that was
    given has a value that is a safe integer and not negative, and a
    script. *)
Theorem PaymentACK_fromOptions_payment (J : Type)
  (JSON_stringify : J -> option string) (truthy : J -> bool)
  (fromString : string -> string -> option Buffer)
  (options : PaymentACK.Options.t J) (p : Payment.Options.t J)
  (this this' : PaymentACK.t) :
  PaymentACK.fromOptions J JSON_stringify truthy fromString options this
  = (Ok tt, this') ->
  PaymentACK.Options.payment options = Some p ->
  Payment.transactions (PaymentACK.payment this')
  = Payment.transactions (PaymentACK.payment this)
    ++ givenList (Payment.Options.transactions p)
  /\ Payment.refundTo (PaymentACK.payment this')
     = Payment.refundTo (PaymentACK.payment this)
       ++ givenList (Payment.Options.refundTo p)
  /\ Forall acceptedOutput (givenList (Payment.Options.refundTo p))
  /\ (forall m, PaymentACK.Options.memo options = Some m ->
        PaymentACK.memo this' = Some m).
Proof.
  intros H Hp. unfold PaymentACK.fromOptions in H. rewrite Hp in H.
  apply bind_inv in H as ([] & s1 & H1 & H).
  apply within_inv in H1 as (d & H1 & ->).
  apply Payment_fromOptions_inv in H1 as (Ht & Hr & Hacc).
  apply (assign_step _ (fun this x => PaymentACK.setMemo this (Some x)))
    in H as [_ ->].
  split; [|split; [|split; [exact Hacc|]]].
  - rewrite <- Ht. destruct (PaymentACK.Options.memo options);
      destruct this; reflexivity.
  - rewrite <- Hr. destruct (PaymentACK.Options.memo options);
      destruct this; reflexivity.
  - intros m ->. reflexivity.
Qed.

Lemma PaymentACK_fromOptions_payment_witness :
  exists this',
    PaymentACK.fromOptions string (fun s => Some s) (fun _ => true)
      (fun _ _ => None)
      (PaymentACK.Options.mk
         (Some (Payment.Options.mk PaymentDetails.ANull (Some [[x01]])
                  (Some [mkOutput 5 (Some [x02])]) None))
         (Some "thanks"%string))
      PaymentACK.create
    = (Ok tt, this')
    /\ Payment.transactions (PaymentACK.payment this') = [[x01]]
    /\ Payment.refundTo (PaymentACK.payment this')
       = [mkOutput 5 (Some [x02])].
Proof.
  eexists. split; [vm_compute; reflexivity|].
  destruct (PaymentACK_fromOptions_payment string (fun s => Some s)
              (fun _ => true) (fun _ _ => None)
              (PaymentACK.Options.mk
                 (Some (Payment.Options.mk PaymentDetails.ANull
                          (Some [[x01]])
                          (Some [mkOutput 5 (Some [x02])]) None))
                 (Some "thanks"%string))
              (Payment.Options.mk PaymentDetails.ANull (Some [[x01]])
                 (Some [mkOutput 5 (Some [x02])]) None)
              PaymentACK.create _ eq_refl eq_refl) as (H1 & H2 & _).
  split; [exact H1 | exact H2].
Defined.

(** ** The hypotheses of the round trips hold of examples *)

Lemma PaymentDetails_roundtrip_witness :
  exists raw,
    PaymentDetails.toRaw (paymentDetails signedRequest) = Ok raw
    /\ PaymentDetails.decode 2 0 raw = Ok (paymentDetails signedRequest).
Proof.
  eexists. split; [vm_compute; reflexivity|].
  apply PaymentDetails_roundtrip.
  - reflexivity.
  - reflexivity.
  - repeat split. repeat constructor.
  - repeat split.
  - simpl. lia.
Defined.

Lemma Payment_roundtrip_witness :
  exists raw,
    Payment.toRaw
      (Payment.mk (Some [x01]) [[x02; x03]] [mkOutput 5 (Some [x04])]
         (Some "refund"%string)) = Ok raw
    /\ Payment.decode 2 raw
       = Ok (Payment.mk (Some [x01]) [[x02; x03]] [mkOutput 5 (Some [x04])]
               (Some "refund"%string)).
Proof.
  eexists. split; [vm_compute; reflexivity|].
  apply Payment_roundtrip.
  - reflexivity.
  - reflexivity.
  - repeat constructor.
  - repeat split.
  - simpl. lia.
  - simpl. lia.
Defined.

Lemma PaymentACK_roundtrip_witness :
  exists raw,
    PaymentACK.toRaw
      (PaymentACK.mk
         (Payment.mk (Some [x01]) [[x02; x03]] [mkOutput 5 (Some [x04])]
            None)
         (Some "thanks"%string)) = Ok raw
    /\ PaymentACK.decode 2 raw
       = Ok (PaymentACK.mk
               (Payment.mk (Some [x01]) [[x02; x03]]
                  [mkOutput 5 (Some [x04])] None)
               (Some "thanks"%string)).
Proof.
  eexists. split; [vm_compute; reflexivity|].
  apply PaymentACK_roundtrip.
  - reflexivity.
  - reflexivity.
  - repeat constructor.
  - repeat split.
  - simpl. lia.
  - simpl. lia.
Defined.

Lemma setData_then_getData_witness :
  exists this',
    PaymentDetails.setData string (fun s => Some s) (fun _ _ => None)
      (PaymentDetails.AValue "{}"%string) (Some "json"%string)
      (PaymentDetails.create 0) = (Ok tt, this')
    /\ PaymentDetails.getData string (fun s => Some s) (fun _ _ => None)
         this' (Some "json"%string)
       = Ok (PaymentDetails.DJson "{}"%string).
Proof.
  destruct (proj1 (proj2 (setData_then_getData string (fun s => Some s)
                            (fun _ _ => None) (fun s => Some s)
                            (fun _ _ => None) (PaymentDetails.create 0)))
              "{}"%string "{}"%string (Some "json"%string) eq_refl
              (or_intror (or_intror eq_refl)))
    as (this' & H1 & _ & _ & H3).
  exists this'. split; [exact H1 | exact (H3 eq_refl)].
Defined.

(** ** What decoding can answer *)

Lemma readFieldU64_Ok_range (data : Buffer) (fuel : nat) (tag : Z)
  (opt : bool) (off off' : nat) (v : Z) :
  readFieldU64 data fuel tag opt off = (Ok v, off') ->
  -1 <= v < 2 ^ 53 /\ (opt = false -> 0 <= v).
Proof.
  unfold readFieldU64. intros H. unfold bind at 1 in H.
  destruct (readField data fuel (Some tag) opt off)
    as [[[f|]| |] o] eqn:Ef; try discriminate.
  - apply readField_value_range in Ef as [Hv _].
    unfold bind, assertM in H.
    destruct ((ftype f =? wireType.VARINT) || (ftype f =? wireType.FIXED64));
      [|discriminate].
    apply pair_inv in H as [H _]. apply Ok_inv in H as <-. lia.
  - apply readField_fieldAnswer in Ef as (_ & _ & -> & _).
    apply pair_inv in H as [H _]. apply Ok_inv in H as <-.
    split; [lia | discriminate].
Qed.

Lemma readFieldU32_Ok_range (data : Buffer) (fuel : nat) (tag : Z)
  (opt : bool) (off off' : nat) (v : Z) :
  readFieldU32 data fuel tag opt off = (Ok v, off') -> -1 <= v < 2 ^ 42.
Proof.
  unfold readFieldU32. intros H. unfold bind at 1 in H.
  destruct (readField data fuel (Some tag) opt off)
    as [[[f|]| |] o] eqn:Ef; try discriminate.
  - apply readField_value_range in Ef as [Hv Hs].
    unfold bind, assertM in H.
    destruct ((ftype f =? wireType.VARINT) || (ftype f =? wireType.FIXED32))
      eqn:E; [|discriminate].
    apply pair_inv in H as [H _]. apply Ok_inv in H as <-.
    split; [lia|]. apply Hs.
    apply orb_prop in E as [E|E]; apply Z.eqb_eq in E; [now left | now right].
  - apply pair_inv in H as [H _]. apply Ok_inv in H as <-. lia.
Qed.

Lemma whileNextTag_invariant {A} (P : A -> Prop) (data : Buffer)
  (fuel : nat) (tag : Z) (body : A -> Reader A) :
  (forall acc off acc' off',
     P acc -> body acc off = (Ok acc', off') -> P acc') ->
  forall (n : nat) (acc : A) (off : nat) (r : A) (off' : nat),
    P acc ->
    whileNextTag data fuel n tag body acc off = (Ok r, off') -> P r.
Proof.
  intros Hbody. induction n as [|n IH]; intros acc off r off' Hacc H.
  - discriminate H.
  - cbn [whileNextTag] in H. apply bind_inv in H as (t & o1 & _ & H).
    destruct (t =? tag).
    + apply bind_inv in H as (acc' & o2 & Hb & H).
      apply (IH acc' o2 r off'); [|exact H].
      now apply (Hbody acc o1 acc' o2).
    + apply pair_inv in H as [H _]. apply Ok_inv in H as <-. exact Hacc.
Qed.

Lemma runReader_Ok {A} (m : Reader A) (a : A) :
  runReader m = Ok a -> exists s, m 0%nat = (Ok a, s).
Proof.
  unfold runReader. destruct (m 0%nat) as [r s]. cbn [fst].
  intros ->. now exists s.
Qed.

Lemma readOutput_value_range (fuel : nat) (d : option Buffer) (o : Output) :
  readOutput fuel d = Ok o -> -1 <= value o < 2 ^ 53.
Proof.
  unfold readOutput. destruct d as [d|]; [|discriminate].
  cbn [newProtoReader bindR]. intros H.
  apply runReader_Ok in H as (s & H).
  apply bind_inv in H as (v & o1 & Hv & H).
  apply bind_inv in H as (sc & o2 & _ & H).
  apply pair_inv in H as [H _]. apply Ok_inv in H as <-.
  cbn [value]. now apply readFieldU64_Ok_range in Hv as [Hv _].
Qed.

Lemma outputs_loop_invariant (data : Buffer) (fuel n : nat) (tag : Z)
  (acc : list Output) (off : nat) (r : list Output) (off' : nat) :
  Forall decodedOutput acc ->
  whileNextTag data fuel n tag
    (fun outputs =>
       d <- readFieldBytes data fuel tag false ;;
       output <- liftResult (readOutput fuel d) ;;
       ret (outputs ++ [output])) acc off = (Ok r, off') ->
  Forall decodedOutput r.
Proof.
  apply whileNextTag_invariant.
  intros a o a' o' Ha H.
  apply bind_inv in H as (d & o1 & _ & H).
  apply bind_inv in H as (out & o2 & Hout & H).
  apply pair_inv in H as [H _]. apply Ok_inv in H as <-.
  unfold liftResult in Hout. apply pair_inv in Hout as [Hout _].
  apply Forall_app. split; [exact Ha|].
  constructor; [|constructor].
  now apply readOutput_value_range in Hout.
Qed.

Lemma PaymentDetails_fromRaw_range (fuel : nat) (this d : PaymentDetails.t)
  (raw : option Buffer) :
  Forall decodedOutput (PaymentDetails.outputs this) ->
  PaymentDetails.fromRaw fuel this raw = Ok d ->
  0 <= PaymentDetails.time d < 2 ^ 53
  /\ -1 <= PaymentDetails.expires d < 2 ^ 53
  /\ Forall decodedOutput (PaymentDetails.outputs d).
Proof.
  intros Hthis H. unfold PaymentDetails.fromRaw in H.
  destruct raw as [raw|]; [|discriminate].
  cbn [newProtoReader bindR] in H.
  apply runReader_Ok in H as (s & H).
  apply bind_inv in H as (network & o1 & _ & H).
  apply bind_inv in H as (outputs & o2 & Hout & H).
  apply bind_inv in H as (time & o3 & Htime & H).
  apply bind_inv in H as (expires & o4 & Hexp & H).
  apply bind_inv in H as (memo & o5 & _ & H).
  apply bind_inv in H as (url & o6 & _ & H).
  apply bind_inv in H as (md & o7 & _ & H).
  apply pair_inv in H as [H _]. apply Ok_inv in H as <-.
  cbn [PaymentDetails.time PaymentDetails.expires PaymentDetails.outputs].
  apply readFieldU64_Ok_range in Htime as [Ht1 Ht2].
  apply readFieldU64_Ok_range in Hexp as [He _].
  apply outputs_loop_invariant in Hout; [|exact Hthis].
  specialize (Ht2 eq_refl).
  split; [lia|]. split; [exact He | exact Hout].
Qed.

(** X29. Whatever the bytes, the numbers of a request that decoding
    answers are safe integers: the version is -1 or from 0 to 2^42 - 1,
    the time of the payment details is from 0 to 2^53 - 1, their expiry
    and the value of each output are -1 or from 0 to 2^53 - 1. *)
Theorem decoded_numbers_are_in_range (fuel : nat) (now : Z) (raw : Buffer)
  (r : PaymentRequest.t) :
  PaymentRequest.decode fuel now raw = Ok r ->
  -1 <= version r < 2 ^ 42
  /\ 0 <= PaymentDetails.time (paymentDetails r) < 2 ^ 53
  /\ -1 <= PaymentDetails.expires (paymentDetails r) < 2 ^ 53
  /\ Forall (fun o => -1 <= value o < 2 ^ 53)
       (PaymentDetails.outputs (paymentDetails r)).
Proof.
  unfold PaymentRequest.decode, PaymentRequest.fromRaw.
  cbn [newProtoReader bindR]. intros H.
  apply runReader_Ok in H as (s & H).
  apply bind_inv in H as (v & o1 & Hv & H).
  apply bind_inv in H as (t & o2 & _ & H).
  apply bind_inv in H as (pd & o3 & _ & H).
  apply bind_inv in H as (d & o4 & _ & H).
  apply bind_inv in H as (details & o5 & Hd & H).
  apply bind_inv in H as (sig & o6 & _ & H).
  apply pair_inv in H as [H _]. apply Ok_inv in H as <-.
  cbn [version paymentDetails].
  apply readFieldU32_Ok_range in Hv.
  unfold liftResult in Hd. apply pair_inv in Hd as [Hd _].
  apply PaymentDetails_fromRaw_range in Hd as (Ht & He & Ho);
    [|apply Forall_nil].
  split; [exact Hv|]. split; [exact Ht|]. split; [exact He | exact Ho].
Qed.

Lemma decoded_numbers_are_in_range_witness :
  PaymentRequest.decode 2 0 (unsignedRaw ++ [x2a; x00])
  = Ok (setSignature signedRequest (Some []))
  /\ -1 <= 1 < 2 ^ 42.
Proof.
  split; [vm_compute; reflexivity|].
  exact (proj1 (decoded_numbers_are_in_range 2 0
                  (unsignedRaw ++ [x2a; x00])
                  (setSignature signedRequest (Some []))
                  ltac:(vm_compute; reflexivity))).
Defined.


